(** * Notflix cast receiver: manifest rewriter and track updater

    A shallow embedding of [docs/receiver.js]: [manifestRewriter],
    [langTag], [tracksUpdater], [doTracksUpdate], [encodeObject] and
    [decodeObject], together with the built-in functions they call
    (regular-expression matching, [String.prototype.split], [JSON],
    [encodeURIComponent] / [unescape] / [escape] / [decodeURIComponent],
    [btoa] / [atob]); [interceptPlayerLoad]; and the hooks that [start]
    installs: the response filter, which calls [manifestRewriter], the
    request filter and the interceptor of LOAD requests.  The request
    handler of [receiver.js], the receiver for recent firmware, is the
    assignment of the request filter.

    Conventions.
    - A JavaScript string is the list of its UTF-16 code units, each a
      number below 65536 ([wf_string]).
    - A call that can throw returns a [completion].
    - A plain JavaScript object is the list of its own properties in
      enumeration order ([obj_set] implements the order of
      OrdinaryOwnPropertyKeys).
    - The receiver runs in the Cast browser runtime, so
      [typeof window !== 'undefined'] holds and [encodeObject] /
      [decodeObject] take their [window.btoa] / [window.atob] branch.
    - What belongs to the Cast framework and to Shaka is a parameter:
      the interceptor and the original [load] of a player, and the
      conversions between the data of a response and a string. *)

From Stdlib Require Import List NArith ZArith Lia String Ascii Bool.
Import ListNotations.
Local Open Scope N_scope.

Ltac Zify.zify_post_hook ::= Z.to_euclidean_division_equations.

(* ================================================================= *)
(** ** Strings and completions *)

(** A string: its code units, first to last. *)
Definition jsstring := list N.

(** A code unit has sixteen bits. *)
Definition code_unit (c : N) : Prop := c < 65536.
Definition wf_string (s : jsstring) : Prop := Forall code_unit s.

(** A string literal of the source, as code units. *)
Definition lit (s : string) : jsstring :=
  map N_of_ascii (list_ascii_of_string s).

(** [a === b] on strings. *)
Fixpoint str_eqb (a b : jsstring) : bool :=
  match a, b with
  | [], [] => true
  | x :: a', y :: b' => (x =? y) && str_eqb a' b'
  | _, _ => false
  end.

(** [s.startsWith(p)] *)
Fixpoint startsWith (p s : jsstring) : bool :=
  match p, s with
  | [], _ => true
  | x :: p', y :: s' => (x =? y) && startsWith p' s'
  | _ :: _, [] => false
  end.

(** [s.slice(n)] for a non-negative literal [n]. *)
Definition slice (n : nat) (s : jsstring) : jsstring := skipn n s.

(** Whether [s] starts with the character [c]. *)
Definition headIs (c : N) (s : jsstring) : bool :=
  match s with
  | x :: _ => x =? c
  | [] => false
  end.

(** [parts.join(sep)] *)
Fixpoint join (sep : jsstring) (parts : list jsstring) : jsstring :=
  match parts with
  | [] => []
  | [p] => p
  | p :: ps => p ++ sep ++ join sep ps
  end.

(** [s.split(/c/)] for a one-character pattern: every occurrence of
    [c] separates two parts; the empty string gives one empty part. *)
Fixpoint splitOn (c : N) (s : jsstring) : list jsstring :=
  match s with
  | [] => [[]]
  | x :: s' =>
      if x =? c then [] :: splitOn c s'
      else match splitOn c s' with
           | p :: ps => (x :: p) :: ps
           | [] => [[x]]
           end
  end.

(** The errors the built-in functions and the receiver throw. *)
Inductive error : Set :=
| ReferenceError | TypeError | URIError | SyntaxError | InvalidCharacterError.

(** The outcome of a call: a value, or a thrown error. *)
Inductive completion (A : Type) : Type :=
| Return (a : A)
| Throw (e : error).
Arguments Return {A} a.
Arguments Throw {A} e.

Definition bind {A B} (c : completion A) (k : A -> completion B) : completion B :=
  match c with
  | Return a => k a
  | Throw e => Throw e
  end.

Notation "x <- c ;; k" := (bind c (fun x => k))
  (at level 61, c at next level, right associativity).

(* ================================================================= *)
(** ** Character codes *)

(** Line feed, carriage return, double quote, percent sign, comma and
    backslash. *)
Definition LF : N := 10.
Definition CR : N := 13.
Definition DQUOTE : N := 34.
Definition PERCENT : N := 37.
Definition COMMA : N := 44.
Definition BACKSLASH : N := 92.

(** [lo <= c <= hi] *)
Definition between (lo hi c : N) : bool := (lo <=? c) && (c <=? hi).

(** [0-9], and [A-Za-z0-9]. *)
Definition isDigit (c : N) : bool := between 48 57 c.
Definition isAlnum (c : N) : bool :=
  between 65 90 c || between 97 122 c || isDigit c.

(** Leading surrogates D800-DBFF and trailing surrogates DC00-DFFF. *)
Definition isHighSurrogate (c : N) : bool := between 55296 56319 c.
Definition isLowSurrogate (c : N) : bool := between 56320 57343 c.

(** Code point of a surrogate pair. *)
Definition pairCodePoint (h l : N) : N :=
  (h - 55296) * 1024 + (l - 56320) + 65536.

(** UTF16EncodeCodePoint *)
Definition utf16 (cp : N) : jsstring :=
  if cp <? 65536 then [cp]
  else [55296 + (cp - 65536) / 1024; 56320 + (cp - 65536) mod 1024].

(** The hexadecimal digit of [d], uppercase and lowercase, and the value
    of a hexadecimal digit. *)
Definition hexDigitU (d : N) : N := if d <? 10 then 48 + d else 55 + d.
Definition hexDigitL (d : N) : N := if d <? 10 then 48 + d else 87 + d.

Definition hexVal (c : N) : option N :=
  if between 48 57 c then Some (c - 48)
  else if between 65 70 c then Some (c - 55)
  else if between 97 102 c then Some (c - 87)
  else None.

(** Two hexadecimal digits at the head of [s]. *)
Definition hex2 (s : jsstring) : option N :=
  match s with
  | a :: b :: _ =>
      match hexVal a, hexVal b with
      | Some x, Some y => Some (16 * x + y)
      | _, _ => None
      end
  | _ => None
  end.

(** Four hexadecimal digits at the head of [s]. *)
Definition hex4 (s : jsstring) : option N :=
  match hex2 s, hex2 (skipn 2 s) with
  | Some x, Some y => Some (256 * x + y)
  | _, _ => None
  end.

(* ================================================================= *)
(** ** URI functions: [encodeURIComponent], [unescape], [escape],
       [decodeURIComponent] *)

(** The octets of the UTF-8 encoding of a code point. *)
Definition utf8_octets (cp : N) : list N :=
  if cp <? 128 then [cp]
  else if cp <? 2048 then [192 + cp / 64; 128 + cp mod 64]
  else if cp <? 65536 then
    [224 + cp / 4096; 128 + (cp / 64) mod 64; 128 + cp mod 64]
  else
    [240 + cp / 262144; 128 + (cp / 4096) mod 64;
     128 + (cp / 64) mod 64; 128 + cp mod 64].

(** The escape sequence [%XX] of an octet. *)
Definition pctOctet (b : N) : jsstring :=
  [PERCENT; hexDigitU (b / 16); hexDigitU (b mod 16)].

Definition pctOctets (bs : list N) : jsstring := flat_map pctOctet bs.

(** uriUnescaped of [encodeURIComponent]: alphanumerics and [-_.!~*'()]. *)
Definition uriUnreserved (c : N) : bool :=
  isAlnum c ||
  existsb (N.eqb c) [45; 95; 46; 33; 126; 42; 39; 40; 41].

(** [encodeURIComponent(s)] (the abstract operation Encode): a lone
    surrogate throws a URIError. *)
Fixpoint encodeURIComponent (s : jsstring) : completion jsstring :=
  match s with
  | [] => Return []
  | c :: s' =>
      if uriUnreserved c then
        r <- encodeURIComponent s' ;; Return (c :: r)
      else if isLowSurrogate c then Throw URIError
      else if isHighSurrogate c then
        match s' with
        | d :: s'' =>
            if isLowSurrogate d then
              r <- encodeURIComponent s'' ;;
              Return (pctOctets (utf8_octets (pairCodePoint c d)) ++ r)
            else Throw URIError
        | [] => Throw URIError
        end
      else
        r <- encodeURIComponent s' ;;
        Return (pctOctets (utf8_octets c) ++ r)
  end.

(** [unescape(s)]: [skip] counts the code units of an escape sequence
    that the index [k] of the specification's loop jumps over. *)
Fixpoint unescape_from (skip : nat) (s : jsstring) : jsstring :=
  match s with
  | [] => []
  | c :: s' =>
      match skip with
      | S k => unescape_from k s'
      | O =>
          if c =? PERCENT then
            match (if headIs 117 s' then hex4 (tl s') else None) with
            | Some v => v :: unescape_from 5 s'
            | None =>
                match hex2 s' with
                | Some v => v :: unescape_from 2 s'
                | None => c :: unescape_from 0 s'
                end
            end
          else c :: unescape_from 0 s'
      end
  end.

(** [unescape(s)] *)
Definition unescape (s : jsstring) : jsstring := unescape_from 0 s.

(** The characters [escape] leaves alone: alphanumerics and [@*_+-./]. *)
Definition escapeUnreserved (c : N) : bool :=
  isAlnum c || existsb (N.eqb c) [64; 42; 95; 43; 45; 46; 47].

(** [escape(s)] *)
Definition escapeUnit (c : N) : jsstring :=
  if escapeUnreserved c then [c]
  else if c <? 256 then pctOctet c
  else [PERCENT; 117;
        hexDigitU (c / 4096); hexDigitU ((c / 256) mod 16);
        hexDigitU ((c / 16) mod 16); hexDigitU (c mod 16)].

(** [escape(s)] *)
Definition escape (s : jsstring) : jsstring := flat_map escapeUnit s.

(** An escape sequence [%XX] at the head of [s]. *)
Definition pctAt (s : jsstring) : option N :=
  match s with
  | c :: s' => if c =? PERCENT then hex2 s' else None
  | [] => None
  end.

(** A continuation octet, [10xxxxxx]. *)
Definition isContinuation (b : N) : bool := between 128 191 b.

(** The code point of a UTF-8 sequence with leading octet [b] and the
    [%XX] continuation octets that follow in [s]; [None] unless the
    octets are the valid UTF-8 encoding of a code point.  The second
    component is the number of code units of [s] the sequence takes. *)
Definition utf8_decode_at (b : N) (s : jsstring) : option (N * nat) :=
  if between 192 223 b then
    match pctAt s with
    | Some b1 =>
        let v := (b mod 32) * 64 + b1 mod 64 in
        if isContinuation b1 && (128 <=? v) then Some (v, 3%nat) else None
    | None => None
    end
  else if between 224 239 b then
    match pctAt s, pctAt (skipn 3 s) with
    | Some b1, Some b2 =>
        let v := ((b mod 16) * 64 + b1 mod 64) * 64 + b2 mod 64 in
        if isContinuation b1 && isContinuation b2 && (2048 <=? v)
           && negb (between 55296 57343 v)
        then Some (v, 6%nat) else None
    | _, _ => None
    end
  else if between 240 247 b then
    match pctAt s, pctAt (skipn 3 s), pctAt (skipn 6 s) with
    | Some b1, Some b2, Some b3 =>
        let v := (((b mod 8) * 64 + b1 mod 64) * 64 + b2 mod 64) * 64
                 + b3 mod 64 in
        if isContinuation b1 && isContinuation b2 && isContinuation b3
           && (65536 <=? v) && (v <=? 1114111)
        then Some (v, 9%nat) else None
    | _, _, _ => None
    end
  else None.

(** [decodeURIComponent(s)] (the abstract operation Decode with an empty
    reserved set). *)
Fixpoint decodeURI_from (skip : nat) (s : jsstring) : completion jsstring :=
  match s with
  | [] => Return []
  | c :: s' =>
      match skip with
      | S k => decodeURI_from k s'
      | O =>
          if c =? PERCENT then
            match hex2 s' with
            | None => Throw URIError
            | Some b =>
                if b <? 128 then
                  r <- decodeURI_from 2 s' ;; Return (b :: r)
                else
                  match utf8_decode_at b (skipn 2 s') with
                  | None => Throw URIError
                  | Some (v, n) =>
                      r <- decodeURI_from (2 + n) s' ;; Return (utf16 v ++ r)
                  end
            end
          else r <- decodeURI_from 0 s' ;; Return (c :: r)
      end
  end.

(** [decodeURIComponent(s)] *)
Definition decodeURIComponent (s : jsstring) : completion jsstring :=
  decodeURI_from 0 s.

(* ================================================================= *)
(** ** Base64: [btoa] and [atob] *)

(** The base64 alphabet [A-Za-z0-9+/]: the character of a six-bit
    group, and the group of a character. *)
Definition b64char (i : N) : N :=
  if i <? 26 then 65 + i
  else if i <? 52 then 71 + i
  else if i <? 62 then i - 4
  else if i =? 62 then 43
  else 47.

Definition b64val (c : N) : option N :=
  if between 65 90 c then Some (c - 65)
  else if between 97 122 c then Some (c - 71)
  else if between 48 57 c then Some (c + 4)
  else if c =? 43 then Some 62
  else if c =? 47 then Some 63
  else None.

(** The padding character [=]. *)
Definition PAD : N := 61.

(** Base64 of a sequence of octets, with padding. *)
Fixpoint b64encode (bs : list N) : jsstring :=
  match bs with
  | [] => []
  | [a] => [b64char (a / 4); b64char ((a mod 4) * 16); PAD; PAD]
  | [a; b] =>
      [b64char (a / 4); b64char ((a mod 4) * 16 + b / 16);
       b64char ((b mod 16) * 4); PAD]
  | a :: b :: c :: r =>
      b64char (a / 4) :: b64char ((a mod 4) * 16 + b / 16)
      :: b64char ((b mod 16) * 4 + c / 64) :: b64char (c mod 64)
      :: b64encode r
  end.

(** [window.btoa(m)]: a code unit above 255 throws. *)
Definition btoa (m : jsstring) : completion jsstring :=
  if forallb (fun c => c <? 256) m then Return (b64encode m)
  else Throw InvalidCharacterError.

(** ASCII whitespace: tab, line feed, form feed, carriage return,
    space. *)
Definition isAsciiWhitespace (c : N) : bool :=
  existsb (N.eqb c) [9; 10; 12; 13; 32].

(** Step 2 of forgiving-base64 decode: when the length is a multiple of
    four, one or two trailing [=] are removed. *)
Definition stripPadding (s : jsstring) : jsstring :=
  if N.of_nat (List.length s) mod 4 =? 0 then
    match rev s with
    | c :: r =>
        if c =? PAD then
          if headIs PAD r then rev (tl r) else rev r
        else s
    | [] => s
    end
  else s.

(** The six-bit groups of a text; [None] when a character is outside
    the alphabet. *)
Fixpoint sextets (s : jsstring) : option (list N) :=
  match s with
  | [] => Some []
  | c :: s' =>
      match b64val c, sextets s' with
      | Some v, Some vs => Some (v :: vs)
      | _, _ => None
      end
  end.

(** The octets of a sequence of six-bit groups; the bits left over at
    the end are dropped. *)
Fixpoint b64decode (vs : list N) : list N :=
  match vs with
  | a :: b :: c :: d :: r =>
      let n := ((a * 64 + b) * 64 + c) * 64 + d in
      n / 65536 :: (n / 256) mod 256 :: n mod 256 :: b64decode r
  | [a; b; c] =>
      let n := (a * 64 + b) * 64 + c in [n / 1024; (n / 4) mod 256]
  | [a; b] => [(a * 64 + b) / 16]
  | _ => []
  end.

(** [window.atob(str)]: forgiving-base64 decode; a failure throws. *)
Definition atob (str : jsstring) : completion jsstring :=
  let data := stripPadding (filter (fun c => negb (isAsciiWhitespace c)) str) in
  if N.of_nat (List.length data) mod 4 =? 1 then Throw InvalidCharacterError
  else match sextets data with
       | None => Throw InvalidCharacterError
       | Some vs => Return (b64decode vs)
       end.

(* ================================================================= *)
(** ** JSON *)

Set Warnings "-register-all".

(** The values [JSON.parse] can return, and [undefined].  A number keeps
    its exact decimal value [(-1)^neg * digits * 10^exp10]; an object
    keeps its members in source order, and a name that occurs twice
    denotes the later member ([getProp]). *)
Inductive jsval : Type :=
| JUndefined
| JNull
| JBool (b : bool)
| JNum (neg : bool) (digits : N) (exp10 : Z)
| JStr (s : jsstring)
| JArr (elems : list jsval)
| JObj (members : list (jsstring * jsval)).

(** UnicodeEscape: [\uxxxx] with lowercase digits. *)
Definition unicodeEscape (c : N) : jsstring :=
  [BACKSLASH; 117;
   hexDigitL (c / 4096); hexDigitL ((c / 256) mod 16);
   hexDigitL ((c / 16) mod 16); hexDigitL (c mod 16)].

(** The two-character escapes of QuoteJSONString. *)
Definition shortEscape (c : N) : option N :=
  if c =? 8 then Some 98
  else if c =? 9 then Some 116
  else if c =? 10 then Some 110
  else if c =? 12 then Some 102
  else if c =? 13 then Some 114
  else if c =? DQUOTE then Some DQUOTE
  else if c =? BACKSLASH then Some BACKSLASH
  else None.

(** The body of QuoteJSONString (well-formed [JSON.stringify]): control
    characters and lone surrogates are escaped, a surrogate pair is
    copied. *)
Fixpoint quoteChars (s : jsstring) : jsstring :=
  match s with
  | [] => []
  | c :: s' =>
      match shortEscape c with
      | Some e => BACKSLASH :: e :: quoteChars s'
      | None =>
          if c <? 32 then unicodeEscape c ++ quoteChars s'
          else if isHighSurrogate c then
            match s' with
            | d :: s'' =>
                if isLowSurrogate d then c :: d :: quoteChars s''
                else unicodeEscape c ++ quoteChars s'
            | [] => unicodeEscape c
            end
          else if isLowSurrogate c then unicodeEscape c ++ quoteChars s'
          else c :: quoteChars s'
      end
  end.

(** QuoteJSONString *)
Definition QuoteJSONString (s : jsstring) : jsstring :=
  DQUOTE :: quoteChars s ++ [DQUOTE].

(** A member [name:value] of SerializeJSONObject. *)
Definition stringifyMember (p : jsstring * jsstring) : jsstring :=
  QuoteJSONString (fst p) ++ [58] ++ QuoteJSONString (snd p).

(** [JSON.stringify(obj)] for an object whose property values are all
    strings, given by its properties in enumeration order. *)
Definition JSON_stringify (obj : list (jsstring * jsstring)) : jsstring :=
  [123] ++ join [COMMA] (map stringifyMember obj) ++ [125].

(** The result of a parser: a value and the text after it, a syntax
    error, or no fuel left. *)
Inductive presult (A : Type) : Type :=
| POk (a : A) (rest : jsstring)
| PErr
| PFuel.
Arguments POk {A} a rest.
Arguments PErr {A}.
Arguments PFuel {A}.

(** JSON white space, and the text after leading white space. *)
Definition isJsonWs (c : N) : bool := existsb (N.eqb c) [9; 10; 13; 32].

Fixpoint skipWs (s : jsstring) : jsstring :=
  match s with
  | c :: s' => if isJsonWs c then skipWs s' else s
  | [] => []
  end.

(** The character of a two-character escape. *)
Definition unescapeChar (e : N) : option N :=
  if e =? DQUOTE then Some DQUOTE
  else if e =? BACKSLASH then Some BACKSLASH
  else if e =? 47 then Some 47
  else if e =? 98 then Some 8
  else if e =? 102 then Some 12
  else if e =? 110 then Some 10
  else if e =? 114 then Some 13
  else if e =? 116 then Some 9
  else None.

(** [c] put before the string of a result. *)
Definition consFst {A} (c : N) (r : option (jsstring * A)) : option (jsstring * A) :=
  match r with
  | Some (s, a) => Some (c :: s, a)
  | None => None
  end.

(** The characters of a JSON string after its opening quote, up to the
    closing quote; the value and the text after the closing quote. *)
Fixpoint parseChars (skip : nat) (s : jsstring) : option (jsstring * jsstring) :=
  match s with
  | [] => None
  | c :: s' =>
      match skip with
      | S k => parseChars k s'
      | O =>
          if c =? DQUOTE then Some ([], s')
          else if c =? BACKSLASH then
            match s' with
            | [] => None
            | e :: s'' =>
                if e =? 117 then
                  match hex4 s'' with
                  | Some v => consFst v (parseChars 5 s')
                  | None => None
                  end
                else
                  match unescapeChar e with
                  | Some v => consFst v (parseChars 1 s')
                  | None => None
                  end
            end
          else if c <? 32 then None
          else consFst c (parseChars 0 s')
      end
  end.

(** The longest run of decimal digits at the head of [s]. *)
Fixpoint takeDigits (s : jsstring) : list N * jsstring :=
  match s with
  | c :: s' =>
      if isDigit c then let (ds, r) := takeDigits s' in (c - 48 :: ds, r)
      else ([], s)
  | [] => ([], [])
  end.

(** The number a sequence of decimal digits denotes. *)
Definition digitsValue (ds : list N) : N :=
  fold_left (fun acc d => 10 * acc + d) ds 0.

Definition isNil {A} (l : list A) : bool :=
  match l with [] => true | _ :: _ => false end.

(** A JSON number: [-? int frac? exp?]. *)
Definition parseNumber (s : jsstring) : option (jsval * jsstring) :=
  let neg := headIs 45 s in
  let s1 := if neg then tl s else s in
  let (ip, s2) := takeDigits s1 in
  if isNil ip || (headIs 0 ip && negb (isNil (tl ip))) then None
  else
    let (fp, s3) := if headIs 46 s2 then takeDigits (tl s2) else ([], s2) in
    if headIs 46 s2 && isNil fp then None
    else
      let m := digitsValue (ip ++ fp) in
      let shift := Z.of_nat (List.length fp) in
      if headIs 101 s3 || headIs 69 s3 then
        let r := tl s3 in
        let eneg := headIs 45 r in
        let r1 := if eneg || headIs 43 r then tl r else r in
        let (ep, r2) := takeDigits r1 in
        if isNil ep then None
        else
          let e := Z.of_N (digitsValue ep) in
          Some (JNum neg m ((if eneg then - e else e) - shift)%Z, r2)
      else Some (JNum neg m (- shift)%Z, s3).

(** One of the words [true], [false], [null]. *)
Definition parseLiteral (word : jsstring) (v : jsval) (s : jsstring) : presult jsval :=
  if startsWith word s then POk v (skipn (List.length word) s) else PErr.

(** JSON value, object members and array elements.  [fuel] bounds the
    nesting depth plus the number of members and elements; one more
    than twice the length of the text is never used up
    ([parseValue_fuel]). *)
Fixpoint parseValue (fuel : nat) (s : jsstring) : presult jsval :=
  match fuel with
  | O => PFuel
  | S f =>
      match skipWs s with
      | [] => PErr
      | c :: r =>
          if c =? DQUOTE then
            match parseChars 0 r with
            | Some (str, r') => POk (JStr str) r'
            | None => PErr
            end
          else if c =? 123 then
            if headIs 125 (skipWs r) then POk (JObj []) (tl (skipWs r))
            else
              match parseMembers f r with
              | POk ms r' => POk (JObj ms) r'
              | PErr => PErr
              | PFuel => PFuel
              end
          else if c =? 91 then
            if headIs 93 (skipWs r) then POk (JArr []) (tl (skipWs r))
            else
              match parseElements f r with
              | POk es r' => POk (JArr es) r'
              | PErr => PErr
              | PFuel => PFuel
              end
          else if c =? 116 then parseLiteral (lit "true") (JBool true) (c :: r)
          else if c =? 102 then parseLiteral (lit "false") (JBool false) (c :: r)
          else if c =? 110 then parseLiteral (lit "null") JNull (c :: r)
          else
            match parseNumber (c :: r) with
            | Some (v, r') => POk v r'
            | None => PErr
            end
      end
  end

with parseMembers (fuel : nat) (s : jsstring) : presult (list (jsstring * jsval)) :=
  match fuel with
  | O => PFuel
  | S f =>
      let s0 := skipWs s in
      if headIs DQUOTE s0 then
        match parseChars 0 (tl s0) with
        | None => PErr
        | Some (k, r1) =>
            let s1 := skipWs r1 in
            if headIs 58 s1 then
              match parseValue f (tl s1) with
              | PErr => PErr
              | PFuel => PFuel
              | POk v r3 =>
                  let s3 := skipWs r3 in
                  if headIs COMMA s3 then
                    match parseMembers f (tl s3) with
                    | POk ms r5 => POk ((k, v) :: ms) r5
                    | PErr => PErr
                    | PFuel => PFuel
                    end
                  else if headIs 125 s3 then POk [(k, v)] (tl s3)
                  else PErr
              end
            else PErr
        end
      else PErr
  end

with parseElements (fuel : nat) (s : jsstring) : presult (list jsval) :=
  match fuel with
  | O => PFuel
  | S f =>
      match parseValue f s with
      | PErr => PErr
      | PFuel => PFuel
      | POk v r1 =>
          let s1 := skipWs r1 in
          if headIs COMMA s1 then
            match parseElements f (tl s1) with
            | POk es r3 => POk (v :: es) r3
            | PErr => PErr
            | PFuel => PFuel
            end
          else if headIs 93 s1 then POk [v] (tl s1)
          else PErr
      end
  end.

(** [JSON.parse(text)] (without reviver). *)
Definition JSON_parse (text : jsstring) : completion jsval :=
  match parseValue (S (2 * List.length text)) text with
  | POk v r =>
      match skipWs r with
      | [] => Return v
      | _ :: _ => Throw SyntaxError
      end
  | _ => Throw SyntaxError
  end.

(* ================================================================= *)
(** ** [encodeObject] and [decodeObject] *)

(** [encodeObject(obj)], receiver.js lines 288-294, in a browser:
    [typeof window !== 'undefined'] holds where the receiver runs, and
    the [Buffer] branch is not taken. *)
Definition encodeObject (obj : list (jsstring * jsstring)) : completion jsstring :=
  e <- encodeURIComponent (JSON_stringify obj) ;;
  let m := unescape e in
  btoa m.

(** [decodeObject(str)], receiver.js lines 295-303, in a browser. *)
Definition decodeObject (str : jsstring) : completion jsval :=
  m <- atob str ;;
  d <- decodeURIComponent (escape m) ;;
  JSON_parse d.

(* ================================================================= *)
(** ** Regular expressions

    The two patterns of [manifestRewriter] are sequences of
    one-character atoms, some of them quantified and some of them
    captured, anchored at both ends.  [exec] is the backtracking matcher
    of the language specification on this fragment: a quantifier first
    takes as many characters as it can and gives them back one at a time
    while the rest of the pattern fails. *)

(** An atom with its quantifier. *)
Inductive atom : Type :=
| Chr (c : N)                  (* the character c *)
| Opt (c : N)                  (* c? *)
| Star (cls : N -> bool)       (* [cls]* *)
| Plus (cls : N -> bool).      (* [cls]+ *)

(** A pattern [^ ... $]; the flag says whether the atom is a capture
    group. *)
Definition regex := list (bool * atom).

Section Greedy.
Context {A : Type} (cls : N -> bool) (k : jsstring -> jsstring -> option A).

(** [taken] holds the characters consumed so far, last one first. *)
Fixpoint greedy (taken : jsstring) (s : jsstring) : option A :=
  match s with
  | c :: s' =>
      if cls c then
        match greedy (c :: taken) s' with
        | Some r => Some r
        | None => k (rev taken) s
        end
      else k (rev taken) s
  | [] => k (rev taken) s
  end.
End Greedy.

(** [s.match(re)]: the groups of the match, or [None] for [null]. *)
Fixpoint exec (re : regex) (s : jsstring) : option (list jsstring) :=
  match re with
  | [] => match s with [] => Some [] | _ :: _ => None end
  | (cap, a) :: re' =>
      let k := fun (m r : jsstring) =>
                 match exec re' r with
                 | Some caps => Some (if cap : bool then m :: caps else caps)
                 | None => None
                 end in
      match a with
      | Chr c =>
          match s with
          | x :: s' => if x =? c then k [x] s' else None
          | [] => None
          end
      | Opt c =>
          match s with
          | x :: s' =>
              if x =? c then
                match k [x] s' with
                | Some r => Some r
                | None => k [] s
                end
              else k [] s
          | [] => k [] s
          end
      | Star cls => greedy cls k [] s
      | Plus cls =>
          greedy cls (fun m r => match m with [] => None | _ :: _ => k m r end) [] s
      end
  end.

(** [[A-Za-z0-9_-]] *)
Definition isKeyChar (c : N) : bool := isAlnum c || (c =? 95) || (c =? 45).

(** The negated classes: any character but the double quote, any
    character but the comma. *)
Definition notQuote (c : N) : bool := negb (c =? DQUOTE).
Definition notComma (c : N) : bool := negb (c =? COMMA).

(** LineTerminator: LF, CR, LS, PS. *)
Definition isLineTerminator (c : N) : bool :=
  existsb (N.eqb c) [10; 13; 8232; 8233].

(** [.] without the [s] flag *)
Definition isDot (c : N) : bool := negb (isLineTerminator c).

(** [\s]: WhiteSpace and LineTerminator. *)
Definition isWhiteSpace (c : N) : bool :=
  existsb (N.eqb c) [9; 11; 12; 32; 160; 5760; 8239; 8287; 12288; 65279]
  || between 8192 8202 c || isLineTerminator c.

(** The pattern of line 46: a captured key [[A-Za-z0-9_-]+], [=], a
    double quote, a captured run of characters other than the double
    quote, a double quote, a run of white space, an optional comma, and
    the captured rest of the line (any characters but line
    terminators). *)
Definition reQuoted : regex :=
  [(true, Plus isKeyChar); (false, Chr 61); (false, Chr DQUOTE);
   (true, Star notQuote); (false, Chr DQUOTE);
   (false, Star isWhiteSpace); (false, Opt COMMA); (true, Star isDot)].

(** The pattern of line 49: the same with a captured run of characters
    other than the comma for the value, and no quotes. *)
Definition reBare : regex :=
  [(true, Plus isKeyChar); (false, Chr 61);
   (true, Star notComma);
   (false, Star isWhiteSpace); (false, Opt COMMA); (true, Star isDot)].

(* ================================================================= *)
(** ** Plain objects *)

(** The own properties of an object, in enumeration order. *)
Definition jsobj (A : Type) : Type := list (jsstring * A).

(** [o[k]] for an own property; [None] for [undefined]. *)
Fixpoint obj_get {A} (o : jsobj A) (k : jsstring) : option A :=
  match o with
  | [] => None
  | (k', v) :: o' => if str_eqb k' k then Some v else obj_get o' k
  end.

(** The array index a property name denotes, if it is the canonical
    decimal numeral of an integer below 2^32 - 1. *)
Definition arrayIndex (k : jsstring) : option N :=
  match k with
  | [] => None
  | c :: r =>
      if forallb isDigit k
         && (negb (c =? 48) || match r with [] => true | _ => false end)
      then
        let v := digitsValue (map (fun d => d - 48) k) in
        if v <? 4294967295 then Some v else None
      else None
  end.

(** The value of the existing property [k] replaced. *)
Fixpoint obj_replace {A} (o : jsobj A) (k : jsstring) (v : A) : jsobj A :=
  match o with
  | [] => []
  | (k', v') :: o' =>
      if str_eqb k' k then (k', v) :: o' else (k', v') :: obj_replace o' k v
  end.

(** A new array-index property goes among the array indices, in
    ascending order, before every other property. *)
Fixpoint obj_insert_index {A} (n : N) (k : jsstring) (v : A) (o : jsobj A) : jsobj A :=
  match o with
  | [] => [(k, v)]
  | (k', v') :: o' =>
      match arrayIndex k' with
      | Some n' =>
          if n' <? n then (k', v') :: obj_insert_index n k v o'
          else (k, v) :: o
      | None => (k, v) :: o
      end
  end.

(** [o[k] = v] on an object whose prototype chain ends in
    [Object.prototype].  An existing property keeps its place; a new
    one is appended (array indices apart).  The name [__proto__] reaches
    the accessor of [Object.prototype], which creates no own property. *)
Definition obj_set {A} (o : jsobj A) (k : jsstring) (v : A) : jsobj A :=
  if str_eqb k (lit "__proto__") then o
  else
    match obj_get o k with
    | Some _ => obj_replace o k v
    | None =>
        match arrayIndex k with
        | Some n => obj_insert_index n k v o
        | None => o ++ [(k, v)]
        end
    end.

(* ================================================================= *)
(** ** [manifestRewriter] and [langTag] *)

(** The value [{ value, quoted }] stored for an attribute. *)
Record attr : Type := { value : jsstring; quoted : bool }.

(** The object [kv] of line 42. *)
Definition AttributeSet : Type := jsobj attr.

(** [res[1]], [res[2]] and [res[3]] of a match with three groups. *)
Definition groups3 (res : option (list jsstring))
  : option (jsstring * jsstring * jsstring) :=
  match res with
  | Some [k; v; rest] => Some (k, v, rest)
  | _ => None
  end.

(** One turn of the loop of lines 44-56: the quoted pattern first, then
    the bare one.  The result is [res[1]], [{ value: res[2], quoted }]
    and [res[3]]. *)
Definition matchAttr (line : jsstring) : option (jsstring * attr * jsstring) :=
  match groups3 (exec reQuoted line) with
  | Some (k, v, rest) => Some (k, {| value := v; quoted := true |}, rest)
  | None =>
      match groups3 (exec reBare line) with
      | Some (k, v, rest) => Some (k, {| value := v; quoted := false |}, rest)
      | None => None
      end
  end.

(** The loop [while (line.length > 0)], lines 44-56.  Every turn
    shortens [line], so [fuel] at least the length of [line] is never
    used up ([parseLoop_fuel]). *)
Fixpoint parseLoop (fuel : nat) (kv : AttributeSet) (line : jsstring) : AttributeSet :=
  match fuel with
  | O => kv
  | S f =>
      match line with
      | [] => kv
      | _ :: _ =>
          match matchAttr line with
          | None => kv
          | Some (k, a, rest) => parseLoop f (obj_set kv k a) rest
          end
      end
  end.

(** Lines 42-56: the attribute set of the text after the line prefix. *)
Definition parseAttrs (line : jsstring) : AttributeSet :=
  parseLoop (List.length line) [] line.

(** Lines 78-82: one attribute, quoted or bare. *)
Definition renderAttr (e : jsstring * attr) : jsstring :=
  let (key, a) := e in
  if a.(quoted) then key ++ [61; DQUOTE] ++ a.(value) ++ [DQUOTE]
  else key ++ [61] ++ a.(value).

(** Lines 76-84: [kvn.join(',')] over [Object.entries(kv)]. *)
Definition serializeAttrs (kv : AttributeSet) : jsstring :=
  join [COMMA] (map renderAttr kv).

(** The object [state] of line 32: a counter for each key. *)
Definition AllocationState : Type := jsobj N.

(** [kv[k] ? kv[k].value : dflt], lines 105-106. *)
Definition attrOr (kv : AttributeSet) (k : jsstring) (dflt : jsstring) : jsstring :=
  match obj_get kv k with
  | Some a => a.(value)
  | None => dflt
  end.

(** The key [`${gid}.${lang}`] of line 108. *)
Definition langKey (kv : AttributeSet) : jsstring :=
  attrOr kv (lit "GROUP-ID") (lit "gid") ++ [46] ++ attrOr kv (lit "LANGUAGE") (lit "und").

(** [langTag(state, kv)], lines 104-134; the updated [state] is
    returned with the tag.  [tagseq -= 25] on line 126 reads the
    undeclared variable [tagseq] and throws a ReferenceError. *)
Definition langTag (state : AllocationState) (kv : AttributeSet)
  : completion (jsstring * AllocationState) :=
  let lang := attrOr kv (lit "LANGUAGE") (lit "und") in
  let key := langKey kv in
  let '(tagSeq, state) :=
    match obj_get state key with
    | None => (0, obj_set state key 1)
    | Some n => if n =? 0 then (0, obj_set state key 1)
                else (n, obj_set state key (n + 1))
    end in
  if tagSeq =? 0 then Return (lang, state)
  else
    let firstLetter := 88 in
    if 26 <? tagSeq then Throw ReferenceError
    else
      let tagSeq := if 26 <? tagSeq then 26 else tagSeq in
      let tag := [firstLetter; 64 + tagSeq] in
      Return (lang ++ [45] ++ tag, state).

(** The prefix of a rendition declaration, and the marker of an
    injected token. *)
Definition PREFIX : jsstring := lit "#EXT-X-MEDIA:".
Definition MARKER : jsstring := lit "xyzzy.obj.".

(** The test of line 59, negated: [TYPE] is [SUBTITLES] or [AUDIO]. *)
Definition handledType (kv : AttributeSet) : bool :=
  match obj_get kv (lit "TYPE") with
  | None => false
  | Some a => str_eqb a.(value) (lit "SUBTITLES") || str_eqb a.(value) (lit "AUDIO")
  end.

(** Lines 64-67: the object smuggled through [CHARACTERISTICS]. *)
Definition collectObject (kv : AttributeSet) : jsobj jsstring :=
  fold_left
    (fun obj key =>
       match obj_get kv key with
       | Some a => obj_set obj key a.(value)
       | None => obj
       end)
    [lit "LANGUAGE"; lit "NAME"; lit "FORCED"; lit "CHANNELS"] [].

(** Lines 63-73: the attribute set of a handled line after the two
    assignments. *)
Definition rewriteAttrs (state : AllocationState) (kv : AttributeSet)
  : completion (AttributeSet * AllocationState) :=
  let obj := collectObject kv in
  let ch := match obj_get kv (lit "CHARACTERISTICS") with
            | Some a => splitOn COMMA a.(value)
            | None => []
            end in
  payload <- encodeObject obj ;;
  let ch := ch ++ [MARKER ++ payload] in
  let kv := obj_set kv (lit "CHARACTERISTICS")
                    {| value := join [COMMA] ch; quoted := true |} in
  r <- langTag state kv ;;
  let kv := obj_set kv (lit "LANGUAGE") {| value := fst r; quoted := true |} in
  Return (kv, snd r).

(** The body of the loop over the lines, lines 36-85. *)
Definition rewriteLine (state : AllocationState) (line : jsstring)
  : completion (jsstring * AllocationState) :=
  if negb (startsWith PREFIX line) then Return (line, state)
  else
    let kv := parseAttrs (slice 13 line) in
    if negb (handledType kv) then Return (line, state)
    else
      r <- rewriteAttrs state kv ;;
      Return (PREFIX ++ serializeAttrs (fst r), snd r).

(** The loop of lines 34-86 over the lines after [idx]. *)
Fixpoint rewriteLines (state : AllocationState) (lines : list jsstring)
  : completion (list jsstring) :=
  match lines with
  | [] => Return []
  | line :: rest =>
      r <- rewriteLine state line ;;
      out <- rewriteLines (snd r) rest ;;
      Return (fst r :: out)
  end.

(** [c] put before the first part. *)
Definition consHead (c : N) (parts : list jsstring) : list jsstring :=
  match parts with
  | p :: ps => (c :: p) :: ps
  | [] => [[c]]
  end.

(** [m3u8.split(/\r?\n/)], line 31. *)
Fixpoint splitLines (s : jsstring) : list jsstring :=
  match s with
  | [] => [[]]
  | c :: s' =>
      if c =? LF then [] :: splitLines s'
      else
        match s' with
        | d :: s'' =>
            if (c =? CR) && (d =? LF) then [] :: splitLines s''
            else consHead c (splitLines s')
        | [] => [[c]]
        end
  end.

(** [manifestRewriter(m3u8)], lines 28-91.  The count [numUpdated] only
    feeds [console.log] and is left out. *)
Definition manifestRewriter (m3u8 : jsstring) : completion jsstring :=
  lines <- rewriteLines [] (splitLines m3u8) ;;
  Return (join [LF] lines).

(* ================================================================= *)
(** ** [tracksUpdater] and [doTracksUpdate] *)

(** A number is falsy when it is zero as a double: its digits are all
    zero, or its exact value is at most 2^-1075 and rounds to zero. *)
Definition numberIsZero (digits : N) (exp10 : Z) : bool :=
  (digits =? 0)
  || ((exp10 <? 0)%Z && (Z.of_N digits * 2 ^ 1075 <=? 10 ^ (- exp10))%Z).

(** ToBoolean *)
Definition toBoolean (v : jsval) : bool :=
  match v with
  | JUndefined | JNull => false
  | JBool b => b
  | JNum _ d e => negb (numberIsZero d e)
  | JStr s => match s with [] => false | _ :: _ => true end
  | JArr _ | JObj _ => true
  end.

(** The member named [k], the last one if there are several. *)
Fixpoint lastMember (ms : list (jsstring * jsval)) (k : jsstring) : option jsval :=
  match ms with
  | [] => None
  | (k', v) :: ms' =>
      match lastMember ms' k with
      | Some w => Some w
      | None => if str_eqb k' k then Some v else None
      end
  end.

(** [obj.k] for a value [JSON.parse] returned and a name [k] that no
    built-in prototype defines ([LANGUAGE], [NAME], [FORCED],
    [CHANNELS]): reading from [null] throws a TypeError. *)
Definition getProp (obj : jsval) (k : jsstring) : completion jsval :=
  match obj with
  | JUndefined | JNull => Throw TypeError
  | JObj ms => Return (match lastMember ms k with Some v => v | None => JUndefined end)
  | _ => Return JUndefined
  end.

(** A track of [resp.media.tracks]: the fields the receiver reads or
    writes, and the other properties of the object ([trackId], [type]
    and so on), which it never touches.  [roles] is absent or an array
    of strings. *)
Record track : Type := {
  language : jsval;
  name : jsval;
  forced : jsval;
  channelCount : jsval;
  roles : option (list jsstring);
  others : jsobj jsval
}.

(** The index of the first role that starts with the marker. *)
Fixpoint findMarker (rs : list jsstring) (i : nat) : option nat :=
  match rs with
  | [] => None
  | r :: rs' => if startsWith MARKER r then Some i else findMarker rs' (S i)
  end.

(** [roles.splice(i, 1)] *)
Definition splice1 (i : nat) (rs : list jsstring) : list jsstring :=
  firstn i rs ++ skipn (S i) rs.

(** Lines 167-171. *)
Definition updateLanguage (obj : jsval) (t : track) : completion track :=
  l <- getProp obj (lit "LANGUAGE") ;;
  if toBoolean l then
    Return {| language := l; name := t.(name); forced := t.(forced);
              channelCount := t.(channelCount); roles := t.(roles);
              others := t.(others) |}
  else if toBoolean t.(language) then
    match t.(language) with
    | JStr s =>
        if startsWith (lit "und") s then
          Return {| language := JNull; name := t.(name); forced := t.(forced);
                    channelCount := t.(channelCount); roles := t.(roles);
              others := t.(others) |}
        else Return t
    | _ => Throw TypeError
    end
  else Return t.

(** The body of the loop over the tracks, lines 156-189, as a function
    from the track to the track after its in-place update.  Every throw
    happens before the first assignment to the track. *)
Definition doTrackUpdate (t : track) : completion track :=
  match t.(roles) with
  | None => Return t
  | Some rs =>
      match findMarker rs 0 with
      | None => Return t
      | Some i =>
          obj <- decodeObject (slice 10 (nth i rs [])) ;;
          t <- updateLanguage obj t ;;
          n <- getProp obj (lit "NAME") ;;
          let name1 := if toBoolean n then n else t.(name) in
          f <- getProp obj (lit "FORCED") ;;
          let rs1 := if toBoolean f then rs ++ [lit "forced_subtitle"] else rs in
          let forced1 := if toBoolean f then JBool true else t.(forced) in
          c <- getProp obj (lit "CHANNELS") ;;
          let channels1 := if toBoolean c then c else t.(channelCount) in
          let rs2 := splice1 i rs1 in
          Return {| language := t.(language); name := name1; forced := forced1;
                    channelCount := channels1;
                    roles := match rs2 with [] => None | _ :: _ => Some rs2 end;
                    others := t.(others) |}
      end
  end.

(** [doTracksUpdate(resp)], lines 151-193, on the array of tracks: the
    tracks as the loop leaves them, and the error that ended the loop
    early, if any.  The tracks are updated in place, so the ones before
    a throw keep their update. *)
Fixpoint doTracksUpdate (ts : list track) : list track * option error :=
  match ts with
  | [] => ([], None)
  | t :: ts' =>
      match doTrackUpdate t with
      | Throw e => (t :: ts', Some e)
      | Return t' =>
          let (out, e) := doTracksUpdate ts' in (t' :: out, e)
      end
  end.

(** [resp.media] and [resp]: absent fields are [None]. *)
Record mediaInfo : Type := { tracks : option (list track) }.
Record response : Type := { media : option mediaInfo }.

(** [tracksUpdater(resp)], lines 137-147: the error is caught and
    logged, and [resp] is returned as the loop left it. *)
Definition tracksUpdater (resp : response) : response :=
  match resp.(media) with
  | None => resp
  | Some m =>
      match m.(tracks) with
      | None => resp
      | Some ts =>
          {| media := Some {| tracks := Some (fst (doTracksUpdate ts)) |} |}
      end
  end.

(* ================================================================= *)
(** ** [interceptPlayerLoad] *)

Section InterceptPlayerLoad.

(** The state of a player apart from its property [_didIntercept], the
    arguments of [load] and its result. *)
Context {State Args Result : Type}.

(** [interceptor.apply(this)] and [_load.apply(this, args)]: the state
    each leaves, with the error when it throws.  Neither touches
    [_didIntercept]: the interceptor of line 231 configures the player
    and registers two filters, and [_load] is the method of Shaka, which
    does not know the property. *)
Variable interceptor : State -> State * option error.
Variable _load : Args -> State -> State * completion Result.

(** A player: [_didIntercept] is absent, that is falsy, on a new one. *)
Record player : Type := { _didIntercept : bool; rest : State }.

(** The method installed on line 198: the player it leaves, and the
    completion of the call. *)
Definition load (args : Args) (this : player) : player * completion Result :=
  if negb this.(_didIntercept) then
    match interceptor this.(rest) with
    | (s, Some e) => ({| _didIntercept := this.(_didIntercept); rest := s |}, Throw e)
    | (s, None) =>
        let (s', r) := _load args s in
        ({| _didIntercept := true; rest := s' |}, r)
    end
  else
    let (s', r) := _load args this.(rest) in
    ({| _didIntercept := this.(_didIntercept); rest := s' |}, r).

(** Calls of [load] on one player, one after the other, whatever each
    returns or throws. *)
Fixpoint loads (calls : list Args) (this : player) : player :=
  match calls with
  | [] => this
  | args :: calls' => loads calls' (fst (load args this))
  end.

End InterceptPlayerLoad.

Arguments player State : clear implicits.

(* ================================================================= *)
(** ** The filters and the interceptor of [start] *)

(** [shaka.net.NetworkingEngine.RequestType] *)
Inductive requestType : Set := MANIFEST | SEGMENT | LICENSE | APP | TIMING.

(** [type === shaka.net.NetworkingEngine.RequestType.MANIFEST] *)
Definition isManifest (type : requestType) : bool :=
  match type with MANIFEST => true | _ => false end.

(** [s.endsWith(p)] *)
Definition endsWith (p s : jsstring) : bool :=
  (List.length p <=? List.length s)%nat
  && str_eqb (skipn (List.length s - List.length p) s) p.

(** [parseInt(status / 100, 10)] for a status that is an integer from 1
    to 2^53, as the status of an HTTP response is: the quotient is at
    least 0.01 and below 10^21, so its numeral has no exponent, and the
    digits before the point are those of the integral part of the
    quotient. *)
Definition statusClass (status : N) : N := status / 100.

(** The third test of line 237; [None] is a response without status. *)
Definition statusRefused (status : option N) : bool :=
  match status with
  | None => false
  | Some n => negb (n =? 0) && negb (statusClass n =? 2)
  end.

Section ResponseFilter.

(** The data of a response, and the two conversions of Shaka between
    the data and a string. *)
Context {D : Type}.
Variable fromUTF8 : D -> completion jsstring.
Variable toUTF8 : jsstring -> completion D.

(** The fields of a response the filter reads or writes. *)
Record netResponse : Type := { uri : jsstring; status : option N; data : D }.

(** The response filter of lines 234-247, as a function from the
    response to the response after the call: an error of the rewrite is
    caught and logged, and the data stay as they were. *)
Definition responseFilter (type : requestType) (response : netResponse) : netResponse :=
  if negb (isManifest type)
     || (negb (endsWith (lit "master.m3u8") response.(uri))
         && negb (endsWith (lit "main.m3u8") response.(uri)))
     || statusRefused response.(status)
  then response
  else
    match (s <- fromUTF8 response.(data) ;;
           m3u8 <- manifestRewriter s ;;
           toUTF8 m3u8) with
    | Return d => {| uri := response.(uri); status := response.(status); data := d |}
    | Throw _ => response
    end.

End ResponseFilter.

Arguments netResponse D : clear implicits.

(** The assignment of line 252, and of line 28 of the receiver for
    recent firmware: [request.headers['x-application'] = 'Notflix']. *)
Definition setApplicationHeader (headers : jsobj jsstring) : jsobj jsstring :=
  obj_set headers (lit "x-application") (lit "Notflix").

(** The request filter of lines 250-254, on the headers of the
    request. *)
Definition requestFilter (type : requestType) (headers : jsobj jsstring)
  : jsobj jsstring :=
  if isManifest type then setApplicationHeader headers else headers.

(** [playbackConfig.manifestRequestHandler], lines 27-29 of the receiver
    for recent firmware. *)
Definition manifestRequestHandler (headers : jsobj jsstring) : jsobj jsstring :=
  setApplicationHeader headers.

(** The pattern of line 270 after its first atom.  The string literal
    drops the backslash before the dot, so the pattern is a dot, the
    characters [m3u8], a group with two alternatives and the end of the
    text; [alt] is the alternative taken. *)
Definition reM3u8 (alt : regex) : regex :=
  map (fun c => (false, Chr c)) (lit "m3u8") ++ alt.

(** The alternatives of the group: nothing, or a question mark and a
    run of characters other than line terminators. *)
Definition altEmpty : regex := [].
Definition altQuery : regex := [(false, Chr 63); (false, Star isDot)].

(** Whether the pattern matches at the start of [s]. *)
Definition m3u8At (s : jsstring) : bool :=
  match s with
  | c :: r =>
      isDot c
      && (match exec (reM3u8 altEmpty) r with
          | Some _ => true
          | None =>
              match exec (reM3u8 altQuery) r with
              | Some _ => true
              | None => false
              end
          end)
  | [] => false
  end.

(** Whether [s.match(m3u8)] is not [null]: the pattern is tried at
    every index, first to last. *)
Fixpoint m3u8Match (s : jsstring) : bool :=
  m3u8At s || match s with
              | [] => false
              | _ :: s' => m3u8Match s'
              end.

(** [req.media] of a LOAD request: an absent field is [None]. *)
Record loadMedia : Type := {
  contentId : option jsstring;
  contentUrl : option jsstring;
  contentType : option jsstring
}.

Record loadRequest : Type := { requestMedia : option loadMedia }.

(** [field || ''] *)
Definition orEmpty (field : option jsstring) : jsstring :=
  match field with
  | Some s => s
  | None => []
  end.

(** The interceptor of LOAD requests, lines 266-280. *)
Definition loadInterceptor (req : loadRequest) : loadRequest :=
  match req.(requestMedia) with
  | None => req
  | Some m =>
      let id := orEmpty m.(contentId) in
      let url := orEmpty m.(contentUrl) in
      if m3u8Match id || m3u8Match url then
        {| requestMedia :=
             Some {| contentId := m.(contentId);
                     contentUrl := m.(contentUrl);
                     contentType := Some (lit "application/dash+xml") |} |}
      else req
  end.

(* ================================================================= *)
(** * Notions used in the statements *)

(** ** The side channel *)

(** An octet. *)
Definition byte (c : N) : Prop := c < 256.

(** The six-bit groups [b64encode] writes. *)
Fixpoint b64groups (bs : list N) : list N :=
  match bs with
  | [] => []
  | [a] => [a / 4; (a mod 4) * 16]
  | [a; b] => [a / 4; (a mod 4) * 16 + b / 16; (b mod 16) * 4]
  | a :: b :: c :: r =>
      a / 4 :: (a mod 4) * 16 + b / 16 :: (b mod 16) * 4 + c / 64 :: c mod 64
      :: b64groups r
  end.

(** The padding [b64encode] ends with. *)
Fixpoint b64padding (bs : list N) : jsstring :=
  match bs with
  | [] => []
  | [_] => [PAD; PAD]
  | [_; _] => [PAD]
  | _ :: _ :: _ :: r => b64padding r
  end.

(** Well-formed UTF-16: every surrogate is half of a pair. *)
Inductive paired : jsstring -> Prop :=
| paired_nil : paired []
| paired_unit c s :
    c < 65536 -> isHighSurrogate c = false -> isLowSurrogate c = false ->
    paired s -> paired (c :: s)
| paired_pair h l s :
    isHighSurrogate h = true -> isLowSurrogate l = true ->
    paired s -> paired (h :: l :: s).

(** The value [JSON.parse] builds for an object with string values. *)
Definition jsonOf (obj : jsobj jsstring) : jsval :=
  JObj (map (fun p => (fst p, JStr (snd p))) obj).

(** An object whose property names and values are strings of code
    units. *)
Definition wf_object (obj : jsobj jsstring) : Prop :=
  Forall (fun p => wf_string (fst p) /\ wf_string (snd p)) obj.

(** ** Tracks *)

(** Whether a role of the track starts with the marker. *)
Definition hasMarker (t : track) : bool :=
  match t.(roles) with
  | None => false
  | Some rs => existsb (startsWith MARKER) rs
  end.

(** The text after the marker in the first role that carries it. *)
Definition markerPayload (t : track) : option jsstring :=
  match t.(roles) with
  | None => None
  | Some rs =>
      match findMarker rs 0 with
      | None => None
      | Some i => Some (slice 10 (nth i rs []))
      end
  end.

(** ** Patterns and attribute lines *)

(** The number of characters a pattern consumes outside its groups, at
    least. *)
Fixpoint fixedChars (re : regex) : nat :=
  match re with
  | [] => 0
  | (false, Chr _) :: re' => S (fixedChars re')
  | _ :: re' => fixedChars re'
  end.

(** ** The allocation state *)

(** How many of [keys] are [key]. *)
Definition occurrences (key : jsstring) (keys : list jsstring) : nat :=
  List.length (filter (str_eqb key) keys).

(** [state] holds, for every key, the number of calls seen so far. *)
Definition counts (state : AllocationState) (seen : list jsstring) : Prop :=
  forall key,
    obj_get state key
    = match occurrences key seen with
      | O => None
      | S n => Some (N.of_nat (S n))
      end.

(** The language [langTag] works with, [und] when the line has none. *)
Definition langOf (kv : AttributeSet) : jsstring :=
  attrOr kv (lit "LANGUAGE") (lit "und").

(** The tag of a call whose key was seen [j] times before. *)
Definition tagFor (kv : AttributeSet) (j : nat) : jsstring :=
  match j with
  | O => langOf kv
  | S _ => langOf kv ++ [45] ++ [88; 64 + N.of_nat j]
  end.

(** A sequence of calls that share one state. *)
Fixpoint langTags (state : AllocationState) (kvs : list AttributeSet)
  : completion (list jsstring) :=
  match kvs with
  | [] => Return []
  | kv :: rest =>
      r <- langTag state kv ;;
      out <- langTags (snd r) rest ;;
      Return (fst r :: out)
  end.

(** The tags a sequence of calls returns when no call throws. *)
Fixpoint tagsFrom (seen : list jsstring) (kvs : list AttributeSet) : list jsstring :=
  match kvs with
  | [] => []
  | kv :: rest =>
      tagFor kv (occurrences (langKey kv) seen)
      :: tagsFrom (seen ++ [langKey kv]) rest
  end.

(** ** Well-formed attribute lines *)

(** A quantified atom cannot take more: [q] is empty or starts outside
    the class. *)
Definition stopsAt (cls : N -> bool) (q : jsstring) : Prop :=
  match q with [] => True | c :: _ => cls c = false end.

(** A text without line terminators. *)
Definition dots (s : jsstring) : Prop := Forall (fun c => isLineTerminator c = false) s.

(** The common end of both patterns: white space, an optional comma and
    the rest of the line. *)
Definition reTail : regex :=
  [(false, Star isWhiteSpace); (false, Opt COMMA); (true, Star isDot)].

(** The text that may follow an attribute: nothing, or a comma and the
    rest of the line. *)
Inductive follows : jsstring -> jsstring -> Prop :=
| follows_end : follows [] []
| follows_comma rest : dots rest -> follows (COMMA :: rest) rest.

(** A key: one or more key characters. *)
Definition wf_key (k : jsstring) : Prop :=
  k <> [] /\ forallb isKeyChar k = true.

(** An attribute as the grammar of rendition lines has it: a key of
    key characters, and a value without line terminators that is either
    quoted and free of quotes, or bare, free of commas and not opened by
    a quote. *)
Definition wf_attr (e : jsstring * attr) : Prop :=
  wf_key (fst e) /\ dots (snd e).(value)
  /\ if (snd e).(quoted) then forallb notQuote (snd e).(value) = true
     else forallb notComma (snd e).(value) = true
          /\ headIs DQUOTE (snd e).(value) = false.

(** A key that [obj_set] appends: not an array index, not [__proto__]. *)
Definition plainKey (k : jsstring) : Prop :=
  k <> lit "__proto__" /\ arrayIndex k = None.

(** ** The rewritten document *)

(** The lines the loop rewrites: a rendition declaration whose [TYPE]
    is handled. *)
Definition handled (line : jsstring) : bool :=
  startsWith PREFIX line && handledType (parseAttrs (slice 13 line)).

(** The keys [langTag] is called with, in line order. *)
Definition lineKeys (lines : list jsstring) : list jsstring :=
  flat_map (fun line => if handled line
                        then [langKey (parseAttrs (slice 13 line))]
                        else []) lines.

(** The list [ch] of line 68. *)
Definition characteristicsOf (kv : AttributeSet) : list jsstring :=
  match obj_get kv (lit "CHARACTERISTICS") with
  | Some a => splitOn COMMA a.(value)
  | None => []
  end.

(** The attribute set after lines 63-73, given the payload and the tag. *)
Definition rewritten (kv : AttributeSet) (payload tag : jsstring) : AttributeSet :=
  obj_set
    (obj_set kv (lit "CHARACTERISTICS")
       {| value := join [COMMA] (characteristicsOf kv ++ [MARKER ++ payload]);
          quoted := true |})
    (lit "LANGUAGE") {| value := tag; quoted := true |}.

(** The property [collectObject] copies from the attribute [k]. *)
Definition entryOf (kv : AttributeSet) (k : jsstring) : jsobj jsstring :=
  match obj_get kv k with
  | Some a => [(k, a.(value))]
  | None => []
  end.

(** Every key and value of [kv] is made of characters in [P]. *)
Definition attrsIn (P : N -> Prop) (kv : AttributeSet) : Prop :=
  Forall (fun e => Forall P (fst e) /\ Forall P (snd e).(value)) kv.

(** The characters of a payload: base64 digits and padding. *)
Definition payloadChar (c : N) : Prop :=
  c <> LF /\ c <> COMMA /\ c < 128.

(** A text without line feeds. *)
Definition noLF (s : jsstring) : Prop := Forall (fun c => c <> LF) s.

(** A set of characters that holds everything the rewriter adds to a
    line. *)
Definition admits (P : N -> Prop) : Prop :=
  P COMMA /\ P 61 /\ P DQUOTE
  /\ Forall P (lit "CHARACTERISTICS") /\ Forall P (lit "LANGUAGE")
  /\ Forall P (lit "und") /\ Forall P MARKER /\ Forall P PREFIX
  /\ (forall c, payloadChar c -> P c)
  /\ (forall c, 45 <= c < 65536 -> P c).

(** The payload [encodeObject] returns for the object of a line. *)
Definition payloadOf (kv : AttributeSet) : jsstring :=
  match encodeObject (collectObject kv) with
  | Return payload => payload
  | Throw _ => []
  end.

(** The line the loop writes for [line] when the keys in [seen] were
    handled before it. *)
Definition expectedLine (seen : list jsstring) (line : jsstring) : jsstring :=
  if handled line then
    let kv := parseAttrs (slice 13 line) in
    PREFIX ++ serializeAttrs
                (rewritten kv (payloadOf kv)
                   (tagFor kv (occurrences (langKey kv) seen)))
  else line.

(** The lines the loop writes for [lines]. *)
Fixpoint expectedLines (seen : list jsstring) (lines : list jsstring) : list jsstring :=
  match lines with
  | [] => []
  | line :: rest =>
      expectedLine seen line :: expectedLines (seen ++ lineKeys [line]) rest
  end.

(** ** Payloads of any origin *)

(** The characters of base64: the alphabet and the padding. *)
Definition base64Char (c : N) : bool :=
  isAlnum c || (c =? 43) || (c =? 47) || (c =? PAD).

(** Nothing, or a text that starts with an ASCII character. *)
Definition asciiNext (s : jsstring) : Prop :=
  match s with
  | [] => True
  | c :: _ => c < 128
  end.

(** A value of JSON that is neither an object nor [null]. *)
Definition notObject (v : jsval) : Prop :=
  match v with
  | JBool _ | JNum _ _ _ | JStr _ | JArr _ => True
  | _ => False
  end.

(** ** Attribute lines of any form *)

(** What the two patterns allow in an attribute: a key of one or more
    key characters, and a value without double quote when it was quoted,
    without comma when it was bare. *)
Definition parsedAttr (e : jsstring * attr) : Prop :=
  wf_key (fst e)
  /\ if (snd e).(quoted) then forallb notQuote (snd e).(value) = true
     else forallb notComma (snd e).(value) = true.

(** Nothing, or a text that starts with a character that is neither
    white space nor a comma. *)
Definition attrNext (s : jsstring) : Prop :=
  match s with
  | [] => True
  | c :: _ => isWhiteSpace c = false /\ c <> COMMA
  end.

(** Nothing, or a text that starts with a character no key can start
    with. *)
Definition noKeyNext (s : jsstring) : Prop :=
  match s with
  | [] => True
  | c :: _ => isKeyChar c = false
  end.

(** The value of the attribute [k], if [kv] has it, holds no double
    quote. *)
Definition quoteFree (kv : AttributeSet) (k : jsstring) : Prop :=
  forallb notQuote (attrOr kv k []) = true.

(** The name [k] when [kv] has no attribute of that name. *)
Definition newKey (kv : AttributeSet) (k : jsstring) : list jsstring :=
  match obj_get kv k with
  | Some _ => []
  | None => [k]
  end.

(** The counter [langTag] leaves for a key whose counter was [c]. *)
Definition nextCount (c : option N) : N :=
  match c with
  | None => 1
  | Some n => if n =? 0 then 1 else n + 1
  end.

(** Whether a carriage return is followed by a line feed somewhere in
    [s]. *)
Fixpoint hasCRLF (s : jsstring) : bool :=
  match s with
  | [] => false
  | c :: s' => (c =? CR) && headIs LF s' || hasCRLF s'
  end.

(** ** From a line to its track *)

(** The property [k] of the object a line carries, as [decodeObject]
    gives it back: the value of the attribute, or [undefined]. *)
Definition fieldOf (kv : AttributeSet) (k : jsstring) : jsval :=
  match obj_get kv k with
  | Some a => JStr a.(value)
  | None => JUndefined
  end.

(** A language that is a string, [null] or [undefined]. *)
Definition stringOrAbsent (v : jsval) : Prop :=
  match v with
  | JStr _ | JNull | JUndefined => True
  | _ => False
  end.

(** The track with the data of the line [kv]: each of language, name
    and channels is the attribute of the line when that is not empty; a
    language that starts with [und] is cleared when the line has none;
    a [FORCED] attribute that is not empty marks the track; [rs] are
    the roles other than the marked one. *)
Definition updatedTrack (kv : AttributeSet) (t : track) (rs : list jsstring) : track :=
  let isForced := toBoolean (fieldOf kv (lit "FORCED")) in
  let rs' := if isForced then rs ++ [lit "forced_subtitle"] else rs in
  {| language :=
       if toBoolean (fieldOf kv (lit "LANGUAGE")) then fieldOf kv (lit "LANGUAGE")
       else match t.(language) with
            | JStr s => if startsWith (lit "und") s then JNull else JStr s
            | v => v
            end;
     name := if toBoolean (fieldOf kv (lit "NAME")) then fieldOf kv (lit "NAME")
             else t.(name);
     forced := if isForced then JBool true else t.(forced);
     channelCount :=
       if toBoolean (fieldOf kv (lit "CHANNELS")) then fieldOf kv (lit "CHANNELS")
       else t.(channelCount);
     roles := match rs' with [] => None | _ :: _ => Some rs' end;
     others := t.(others) |}.

(** The number of roles of a track that start with the marker. *)
Definition markerCount (t : track) : nat :=
  match t.(roles) with
  | None => 0
  | Some rs => List.length (filter (startsWith MARKER) rs)
  end.

(** ** Requests and responses *)

(** The status of a response the filter lets through: none, zero, or
    200 to 299. *)
Definition statusAccepted (st : option N) : Prop :=
  match st with
  | None => True
  | Some n => n = 0 \/ 200 <= n < 300
  end.

(** A LOAD request whose media [m] has got the content type of DASH. *)
Definition routed (m : loadMedia) : loadRequest :=
  {| requestMedia :=
       Some {| contentId := m.(contentId);
               contentUrl := m.(contentUrl);
               contentType := Some (lit "application/dash+xml") |} |}.

(** In [s], what follows an occurrence of [m3u8] starts with a
    character other than the question mark. *)
Definition m3u8Continues (s : jsstring) : Prop :=
  forall a b, s = a ++ lit "m3u8" ++ b -> exists x b', b = x :: b' /\ x <> 63.

(** ** Sample data *)

(** A quoted literal, a rendition line with a type, a group and a
    language, and the same line after the rewrite. *)
Definition dq (s : string) : jsstring := DQUOTE :: lit s ++ [DQUOTE].

Definition mediaLine (type gid lang : string) : jsstring :=
  lit "#EXT-X-MEDIA:TYPE=" ++ lit type ++ lit ",GROUP-ID=" ++ dq gid
  ++ lit ",LANGUAGE=" ++ dq lang.

Definition rewrittenLine (type gid lang payload : string) : jsstring :=
  mediaLine type gid lang ++ lit ",CHARACTERISTICS=" ++ dq ("xyzzy.obj." ++ payload).

(** An object with a non-ASCII name that holds a surrogate pair, a
    quote, a backslash and a line feed. *)
Definition sampleObject : jsobj jsstring :=
  [(lit "LANGUAGE", lit "es");
   (lit "NAME", [69; 115; 112; 97; 241; 111; 108; 32; 55357; 56832; 34; 92; 10]);
   (lit "FORCED", lit "YES")].

(** A status message with the tracks [ts]. *)
Definition statusMessage (ts : list track) : response :=
  {| media := Some {| tracks := Some ts |} |}.

Definition sampleTrack (lang : string) (rs : list jsstring) : track :=
  {| language := JStr (lit lang); name := JUndefined; forced := JUndefined;
     channelCount := JNum false 2 0; roles := Some rs;
     others := [(lit "trackId", JNum false 1 0)] |}.



(** Two audio renditions g/en and one g/de, before and after the
    rewrite. *)
Definition exampleManifest : jsstring :=
  join [LF] [lit "#EXTM3U"; mediaLine "AUDIO" "g" "en"; mediaLine "AUDIO" "g" "en";
             mediaLine "AUDIO" "g" "de"].

Definition exampleRewritten : jsstring :=
  join [LF] [lit "#EXTM3U";
             rewrittenLine "AUDIO" "g" "en" "eyJMQU5HVUFHRSI6ImVuIn0=";
             rewrittenLine "AUDIO" "g" "en-XA" "eyJMQU5HVUFHRSI6ImVuIn0=";
             rewrittenLine "AUDIO" "g" "de" "eyJMQU5HVUFHRSI6ImRlIn0="].

(** The attribute set of a line with a group and a language. *)
Definition attrs (gid lang : string) : AttributeSet :=
  [(lit "GROUP-ID", {| value := lit gid; quoted := true |});
   (lit "LANGUAGE", {| value := lit lang; quoted := true |})].

(** A well-formed line with quoted and bare values. *)
Definition sampleAttrs : list (jsstring * attr) :=
  [(lit "TYPE", {| value := lit "SUBTITLES"; quoted := false |});
   (lit "GROUP-ID", {| value := lit "subs"; quoted := true |});
   (lit "NAME", {| value := lit "English (forced), SDH"; quoted := true |});
   (lit "LANGUAGE", {| value := lit "en"; quoted := true |});
   (lit "FORCED", {| value := lit "YES"; quoted := false |});
   (lit "URI", {| value := []; quoted := true |})].

(** A manifest with a handled line, a rendition line of another type
    and other lines. *)
Definition mixedManifest : jsstring :=
  join [LF] [lit "#EXTM3U"; mediaLine "AUDIO" "g" "en";
             mediaLine "VIDEO" "g" "en"; lit "media.1.m3u8"; []].

(** The attributes of an audio line with a language, a name and a
    number of channels, and those of a subtitles line that says it is
    not forced and has no language. *)
Definition audioAttrs : AttributeSet :=
  [(lit "TYPE", {| value := lit "AUDIO"; quoted := false |});
   (lit "GROUP-ID", {| value := lit "audio/ac-3"; quoted := true |});
   (lit "CHANNELS", {| value := lit "6"; quoted := true |});
   (lit "NAME", {| value := lit "English - 5.1 Channel"; quoted := true |});
   (lit "LANGUAGE", {| value := lit "en"; quoted := true |})].

Definition subtitlesAttrs : AttributeSet :=
  [(lit "TYPE", {| value := lit "SUBTITLES"; quoted := false |});
   (lit "NAME", {| value := lit "Commentary"; quoted := true |});
   (lit "FORCED", {| value := lit "NO"; quoted := false |})].

(* ================================================================= *)
(** * Properties *)

(** ** Comparisons and lists *)

Ltac cmp_hyps :=
  repeat match goal with
  | H : (_ && _) = true |- _ => apply andb_true_iff in H; destruct H
  | H : (_ || _) = false |- _ => apply orb_false_iff in H; destruct H
  | H : negb _ = true |- _ => apply negb_true_iff in H
  | H : negb _ = false |- _ => apply negb_false_iff in H
  | H : (_ <=? _) = true |- _ => apply N.leb_le in H
  | H : (_ <=? _) = false |- _ => apply N.leb_gt in H
  | H : (_ <? _) = true |- _ => apply N.ltb_lt in H
  | H : (_ <? _) = false |- _ => apply N.ltb_ge in H
  | H : (_ =? _) = true |- _ => apply N.eqb_eq in H
  | H : (_ =? _) = false |- _ => apply N.eqb_neq in H
  end.

Ltac cmp_goal :=
  repeat match goal with
  | |- context [?a <=? ?b] => destruct (N.leb_spec a b); try lia
  | |- context [?a <? ?b] => destruct (N.ltb_spec a b); try lia
  | |- context [?a =? ?b] => destruct (N.eqb_spec a b); try lia
  end.

Ltac cmp := cmp_hyps; cbn [andb orb negb]; cmp_goal; cbn [andb orb negb].

Lemma str_eqb_eq a b : str_eqb a b = true <-> a = b.
Proof.
  revert b; induction a as [|x a IH]; intros [|y b]; simpl; split;
    try congruence; intros H.
  - apply andb_true_iff in H as [H1 H2]. apply N.eqb_eq in H1.
    apply IH in H2. congruence.
  - inversion H; subst. rewrite N.eqb_refl. simpl. now apply IH.
Qed.

Lemma str_eqb_refl a : str_eqb a a = true.
Proof. now apply str_eqb_eq. Qed.

Lemma str_eqb_neq a b : str_eqb a b = false <-> a <> b.
Proof.
  split; intros H.
  - intros E. apply str_eqb_eq in E. congruence.
  - destruct (str_eqb a b) eqn:E; [|reflexivity].
    apply str_eqb_eq in E. contradiction.
Qed.

Lemma startsWith_split p s :
  startsWith p s = true -> s = p ++ skipn (List.length p) s.
Proof.
  revert s; induction p as [|x p IH]; intros [|y s]; simpl; try congruence.
  intros H. apply andb_true_iff in H as [H1 H2]. apply N.eqb_eq in H1.
  subst. f_equal. auto.
Qed.

(** Induction three elements at a time. *)
Lemma list_ind3 {A} (P : list A -> Prop) :
  P [] -> (forall a, P [a]) -> (forall a b, P [a; b]) ->
  (forall a b c r, P r -> P (a :: b :: c :: r)) ->
  forall l, P l.
Proof.
  intros H0 H1 H2 H3.
  assert (forall l, P l /\ (forall a, P (a :: l)) /\ (forall a b, P (a :: b :: l))) as H.
  { induction l as [|x l (IH0 & IH1 & IH2)]; auto. }
  intros l. apply H.
Qed.

(** ** Hexadecimal digits *)

Lemma hexVal_hexDigitU d : d < 16 -> hexVal (hexDigitU d) = Some d.
Proof.
  intros H. unfold hexVal, hexDigitU, between. cmp; f_equal; lia.
Qed.

Lemma hexVal_hexDigitL d : d < 16 -> hexVal (hexDigitL d) = Some d.
Proof.
  intros H. unfold hexVal, hexDigitL, between. cmp; f_equal; lia.
Qed.

Lemma hex2_pct b r :
  b < 256 -> hex2 (hexDigitU (b / 16) :: hexDigitU (b mod 16) :: r) = Some b.
Proof.
  intros H. unfold hex2.
  rewrite !hexVal_hexDigitU by lia. f_equal. lia.
Qed.

Lemma hex4_unicodeEscape c r :
  c < 65536 ->
  hex4 (hexDigitL (c / 4096) :: hexDigitL ((c / 256) mod 16)
        :: hexDigitL ((c / 16) mod 16) :: hexDigitL (c mod 16) :: r) = Some c.
Proof.
  intros H. unfold hex4, hex2. simpl skipn.
  rewrite !hexVal_hexDigitL by lia. f_equal. lia.
Qed.

Lemma hexDigitU_range d : d < 16 -> 48 <= hexDigitU d <= 70.
Proof. intros H. unfold hexDigitU. cmp. Qed.

Lemma hexDigitL_range d : d < 16 -> 48 <= hexDigitL d <= 102.
Proof. intros H. unfold hexDigitL. cmp. Qed.

(** ** Base64 *)

Lemma b64encode_split bs :
  b64encode bs = map b64char (b64groups bs) ++ b64padding bs.
Proof.
  induction bs as [| a | a b | a b c r IH] using list_ind3; try reflexivity.
  cbn [b64encode b64groups b64padding map app]. now rewrite IH.
Qed.

Lemma b64val_b64char i : i < 64 -> b64val (b64char i) = Some i.
Proof.
  intros H. unfold b64val, b64char, between. cmp; f_equal; lia.
Qed.

Lemma b64char_plain i :
  i < 64 -> b64char i <> PAD /\ isAsciiWhitespace (b64char i) = false.
Proof.
  intros H. unfold isAsciiWhitespace, existsb, b64char, PAD. cmp; auto.
Qed.

Lemma b64groups_range bs : Forall byte bs -> Forall (fun v => v < 64) (b64groups bs).
Proof.
  unfold byte.
  induction bs as [| a | a b | a b c r IH] using list_ind3; intros H;
    cbn [b64groups]; repeat (apply Forall_cons_iff in H as [? H]);
    repeat constructor; try lia.
  apply IH, H.
Qed.

Lemma sextets_map vs :
  Forall (fun v => v < 64) vs -> sextets (map b64char vs) = Some vs.
Proof.
  induction 1 as [|v vs Hv _ IH]; simpl; [reflexivity|].
  now rewrite b64val_b64char, IH.
Qed.

Lemma b64decode_groups bs : Forall byte bs -> b64decode (b64groups bs) = bs.
Proof.
  unfold byte.
  induction bs as [| a | a b | a b c r IH] using list_ind3; intros H;
    cbn [b64groups b64decode]; repeat (apply Forall_cons_iff in H as [? H]).
  - reflexivity.
  - f_equal. lia.
  - f_equal; [lia|f_equal; lia].
  - rewrite IH by assumption. f_equal; [lia|f_equal; [lia|f_equal; lia]].
Qed.

Lemma b64groups_length bs :
  N.of_nat (List.length (b64groups bs)) mod 4 <> 1
  /\ N.of_nat (List.length (b64groups bs ++ b64padding bs)) mod 4 = 0.
Proof.
  induction bs as [| a | a b | a b c r IH] using list_ind3;
    try (cbn; split; [discriminate|reflexivity]).
  cbn [b64groups b64padding List.length app].
  rewrite !Nat2N.inj_succ. lia.
Qed.

Lemma b64padding_cases bs :
  b64padding bs = [] \/ (b64groups bs <> [] /\ (b64padding bs = [PAD] \/ b64padding bs = [PAD; PAD])).
Proof.
  induction bs as [| a | a b | a b c r IH] using list_ind3; cbn; auto.
  - right. split; [discriminate|auto].
  - right. split; [discriminate|auto].
  - destruct IH as [IH|[_ IH]]; auto. right. split; [discriminate|auto].
Qed.

Lemma stripPadding_core core pad :
  Forall (fun c => c <> PAD) core ->
  N.of_nat (List.length (core ++ pad)) mod 4 = 0 ->
  pad = [] \/ (core <> [] /\ (pad = [PAD] \/ pad = [PAD; PAD])) ->
  stripPadding (core ++ pad) = core.
Proof.
  intros Hc Hl Hp. unfold stripPadding. rewrite Hl. cbn [N.eqb].
  assert (Hlast : forall x r, rev core = x :: r -> x <> PAD).
  { intros x r E. rewrite Forall_forall in Hc. apply Hc.
    apply in_rev. rewrite E. now left. }
  destruct Hp as [->|[Hne [->| ->]]]; rewrite ?app_nil_r, ?rev_app_distr.
  - destruct (rev core) as [|x r] eqn:E; [reflexivity|].
    specialize (Hlast x r eq_refl). cmp. reflexivity.
  - cbn [rev app]. unfold PAD at 1. cbn [N.eqb Pos.eqb].
    destruct (rev core) as [|x r] eqn:E.
    + apply (f_equal (@rev N)) in E. rewrite rev_involutive in E. contradiction.
    + specialize (Hlast x r eq_refl). cbn [headIs]. cmp.
      rewrite <- E. apply rev_involutive.
  - cbn [rev app headIs tl]. rewrite N.eqb_refl. apply rev_involutive.
Qed.

Lemma btoa_bytes m : Forall byte m -> btoa m = Return (b64encode m).
Proof.
  intros H. unfold btoa.
  replace (forallb (fun c => c <? 256) m) with true; [reflexivity|].
  symmetry. apply forallb_forall. rewrite Forall_forall in H.
  intros x Hx. apply N.ltb_lt, H, Hx.
Qed.

Lemma atob_b64encode m : Forall byte m -> atob (b64encode m) = Return m.
Proof.
  intros H. unfold atob.
  pose proof (b64groups_range m H) as Hr.
  assert (Hplain : Forall (fun c => c <> PAD /\ isAsciiWhitespace c = false)
                     (map b64char (b64groups m))).
  { apply Forall_map. eapply Forall_impl; [|exact Hr].
    intros i Hi. now apply b64char_plain. }
  assert (Hf : filter (fun c => negb (isAsciiWhitespace c)) (b64encode m) = b64encode m).
  { apply forallb_filter_id. apply forallb_forall. intros x Hx.
    rewrite b64encode_split in Hx. apply in_app_or in Hx as [Hx|Hx].
    - rewrite Forall_forall in Hplain. now rewrite (proj2 (Hplain x Hx)).
    - assert (x = PAD) as ->; [|reflexivity].
      destruct (b64padding_cases m) as [E|[_ [E|E]]]; rewrite E in Hx;
        simpl in Hx; intuition. }
  rewrite Hf, b64encode_split.
  rewrite stripPadding_core.
  - destruct (b64groups_length m) as [H1 _]. rewrite length_map.
    destruct (N.eqb_spec (N.of_nat (List.length (b64groups m)) mod 4) 1); [contradiction|].
    rewrite sextets_map by assumption. now rewrite b64decode_groups.
  - eapply Forall_impl; [|exact Hplain]. now intros c [? _].
  - destruct (b64groups_length m) as [_ H2].
    rewrite length_app, length_map. now rewrite length_app in H2.
  - destruct (b64padding_cases m) as [E|[Hne E]]; [now left|right].
    split; [|exact E]. destruct (b64groups m); [contradiction|discriminate].
Qed.

(** ** UTF-8 through the URI functions *)

Local Arguments N.add : simpl never.
Local Arguments N.mul : simpl never.
Local Arguments N.sub : simpl never.
Local Arguments N.div : simpl never.
Local Arguments N.modulo : simpl never.

Lemma paired_app a b : paired a -> paired b -> paired (a ++ b).
Proof. induction 1; simpl; auto using paired. Qed.

Lemma paired_ascii s : Forall (fun c => c < 128) s -> paired s.
Proof.
  induction 1 as [|c s Hc _ IH]; [constructor|].
  apply paired_unit; auto; try lia;
    unfold isHighSurrogate, isLowSurrogate, between; cmp; try reflexivity.
Qed.

Lemma unescape_pctOctet b r :
  byte b -> unescape (pctOctet b ++ r) = b :: unescape r.
Proof.
  unfold byte; intros H. unfold unescape, pctOctet.
  cbn [app unescape_from]. rewrite N.eqb_refl.
  assert (hexDigitU (b / 16) <> 117)
    by (pose proof (hexDigitU_range (b / 16)); lia).
  cbn [headIs]. destruct (N.eqb_spec (hexDigitU (b / 16)) 117); [contradiction|].
  rewrite hex2_pct by assumption. reflexivity.
Qed.

Lemma unescape_pctOctets bs r :
  Forall byte bs -> unescape (pctOctets bs ++ r) = bs ++ unescape r.
Proof.
  induction 1 as [|b bs Hb _ IH]; [reflexivity|].
  unfold pctOctets in *. cbn [flat_map]. rewrite <- app_assoc.
  rewrite unescape_pctOctet by assumption. now rewrite IH.
Qed.

Lemma unescape_plain c r : c <> PERCENT -> unescape (c :: r) = c :: unescape r.
Proof.
  intros H. unfold unescape. cbn [unescape_from].
  now destruct (N.eqb_spec c PERCENT).
Qed.

Lemma uriUnreserved_ascii c :
  uriUnreserved c = true -> c < 128 /\ c <> PERCENT.
Proof.
  unfold uriUnreserved, isAlnum, isDigit, between, existsb, PERCENT.
  intros H. repeat (apply orb_true_iff in H as [H|H]); cmp; lia.
Qed.

Lemma escapeUnreserved_ascii c :
  escapeUnreserved c = true -> c < 128 /\ c <> PERCENT.
Proof.
  unfold escapeUnreserved, isAlnum, isDigit, between, existsb, PERCENT.
  intros H. repeat (apply orb_true_iff in H as [H|H]); cmp; lia.
Qed.

Lemma utf8_octets_bytes cp : cp < 1114112 -> Forall byte (utf8_octets cp).
Proof.
  intros H. unfold utf8_octets, byte. cmp; repeat constructor; lia.
Qed.

Lemma pairCodePoint_range h l :
  isHighSurrogate h = true -> isLowSurrogate l = true ->
  65536 <= pairCodePoint h l < 1114112.
Proof.
  unfold isHighSurrogate, isLowSurrogate, between, pairCodePoint.
  intros. cmp. lia.
Qed.

Lemma utf16_pairCodePoint h l :
  isHighSurrogate h = true -> isLowSurrogate l = true ->
  utf16 (pairCodePoint h l) = [h; l].
Proof.
  intros Hh Hl. pose proof (pairCodePoint_range h l Hh Hl).
  unfold utf16. cmp.
  unfold isHighSurrogate, isLowSurrogate, between, pairCodePoint in *. cmp.
  f_equal; [lia|f_equal; lia].
Qed.

Lemma decodeURI_from_skip p r :
  decodeURI_from (List.length p) (p ++ r) = decodeURI_from 0 r.
Proof. induction p; simpl; auto. Qed.

Lemma decodeURI_plain c r :
  c <> PERCENT ->
  decodeURIComponent (c :: r) = (x <- decodeURIComponent r ;; Return (c :: x)).
Proof.
  intros H. unfold decodeURIComponent. cbn [decodeURI_from].
  now destruct (N.eqb_spec c PERCENT).
Qed.

Lemma pctAt_pctOctet b r : byte b -> pctAt (pctOctet b ++ r) = Some b.
Proof.
  intros H. unfold pctAt, pctOctet. cbn [app]. rewrite N.eqb_refl.
  now apply hex2_pct.
Qed.

Lemma escapeUnit_high b : 128 <= b -> byte b -> escapeUnit b = pctOctet b.
Proof.
  unfold byte; intros H1 H2. unfold escapeUnit.
  destruct (escapeUnreserved b) eqn:E.
  - apply escapeUnreserved_ascii in E. lia.
  - cmp. reflexivity.
Qed.

Lemma decodeURI_ascii c rest :
  c < 128 ->
  decodeURIComponent (escapeUnit c ++ rest)
  = (x <- decodeURIComponent rest ;; Return (c :: x)).
Proof.
  intros H. unfold escapeUnit.
  destruct (escapeUnreserved c) eqn:E.
  - apply escapeUnreserved_ascii in E. now apply decodeURI_plain.
  - cmp. unfold decodeURIComponent, pctOctet. cbn [app decodeURI_from].
    rewrite N.eqb_refl, hex2_pct by (unfold byte; lia). cmp. reflexivity.
Qed.

Lemma decodeURI_lead b p rest v :
  byte b -> 128 <= b ->
  utf8_decode_at b (p ++ rest) = Some (v, List.length p) ->
  decodeURIComponent (pctOctet b ++ p ++ rest)
  = (x <- decodeURIComponent rest ;; Return (utf16 v ++ x)).
Proof.
  unfold byte; intros Hb Hl Hd. unfold decodeURIComponent, pctOctet.
  cbn [app]. rewrite <- (decodeURI_from_skip p rest).
  change (decodeURI_from 0 (PERCENT :: hexDigitU (b / 16) :: hexDigitU (b mod 16) :: p ++ rest))
    with (if PERCENT =? PERCENT then
            match hex2 (hexDigitU (b / 16) :: hexDigitU (b mod 16) :: p ++ rest) with
            | None => Throw URIError
            | Some b' =>
                if b' <? 128 then
                  r <- decodeURI_from 0 (p ++ rest) ;; Return (b' :: r)
                else
                  match utf8_decode_at b' (p ++ rest) with
                  | None => Throw URIError
                  | Some (v, n) =>
                      r <- decodeURI_from n (p ++ rest) ;; Return (utf16 v ++ r)
                  end
            end
          else r <- decodeURI_from 0 (hexDigitU (b / 16) :: hexDigitU (b mod 16) :: p ++ rest) ;;
               Return (PERCENT :: r)).
  rewrite N.eqb_refl, hex2_pct by assumption.
  destruct (N.ltb_spec b 128); [lia|]. now rewrite Hd.
Qed.

Lemma skipn_pctOctet b r : skipn 3 (pctOctet b ++ r) = r.
Proof. reflexivity. Qed.

Lemma between_true lo hi c : lo <= c <= hi -> between lo hi c = true.
Proof.
  intros [H1 H2]. unfold between. apply andb_true_iff.
  split; now apply N.leb_le.
Qed.

Lemma between_false lo hi c : c < lo \/ hi < c -> between lo hi c = false.
Proof.
  intros H. unfold between. apply andb_false_iff.
  destruct H; [left|right]; now apply N.leb_gt.
Qed.

(** Decoding the escaped UTF-8 octets of a code point gives back its
    UTF-16 code units. *)
Lemma decodeURI_octets cp rest :
  cp < 1114112 -> between 55296 57343 cp = false ->
  decodeURIComponent (escape (utf8_octets cp) ++ rest)
  = (x <- decodeURIComponent rest ;; Return (utf16 cp ++ x)).
Proof.
  intros Hr Hs. unfold utf8_octets, escape.
  destruct (N.ltb_spec cp 128) as [H1|H1].
  { cbn [flat_map]. rewrite app_nil_r, decodeURI_ascii by assumption.
    unfold utf16. destruct (N.ltb_spec cp 65536); [reflexivity|lia]. }
  destruct (N.ltb_spec cp 2048) as [H2|H2].
  { cbn [flat_map]. rewrite app_nil_r.
    rewrite !escapeUnit_high by (unfold byte; lia).
    rewrite <- app_assoc. apply decodeURI_lead; try (unfold byte; lia).
    unfold utf8_decode_at, isContinuation.
    rewrite pctAt_pctOctet by (unfold byte; lia).
    assert (E : (192 + cp / 64) mod 32 * 64 + (128 + cp mod 64) mod 64 = cp) by lia.
    rewrite E, (between_true 192 223), (between_true 128 191) by lia.
    rewrite (proj2 (N.leb_le 128 cp)) by assumption. reflexivity. }
  destruct (N.ltb_spec cp 65536) as [H3|H3].
  { cbn [flat_map]. rewrite app_nil_r.
    rewrite !escapeUnit_high by (unfold byte; lia).
    rewrite <- app_assoc.
    rewrite <- (app_assoc (pctOctet _) (pctOctet _) rest).
    rewrite (app_assoc (pctOctet (128 + _)) (pctOctet _) rest).
    apply decodeURI_lead; try (unfold byte; lia).
    rewrite <- app_assoc.
    unfold utf8_decode_at, isContinuation.
    rewrite skipn_pctOctet, !pctAt_pctOctet by (unfold byte; lia).
    assert (E : ((224 + cp / 4096) mod 16 * 64 + (128 + cp / 64 mod 64) mod 64) * 64
                + (128 + cp mod 64) mod 64 = cp) by lia.
    rewrite E, (between_false 192 223), (between_true 224 239) by lia.
    rewrite !(between_true 128 191) by lia.
    rewrite (proj2 (N.leb_le 2048 cp)) by assumption. rewrite Hs. reflexivity. }
  cbn [flat_map]. rewrite app_nil_r.
  rewrite !escapeUnit_high by (unfold byte; lia).
  rewrite <- !app_assoc.
  set (b1 := pctOctet (128 + cp / 4096 mod 64)).
  set (b2 := pctOctet (128 + cp / 64 mod 64)).
  set (b3 := pctOctet (128 + cp mod 64)).
  change (b1 ++ b2 ++ b3 ++ rest) with ((b1 ++ b2 ++ b3) ++ rest).
  apply decodeURI_lead; try (unfold byte; lia).
  change ((b1 ++ b2 ++ b3) ++ rest) with (b1 ++ b2 ++ b3 ++ rest).
  unfold utf8_decode_at, isContinuation. subst b1 b2 b3.
  rewrite (skipn_pctOctet _ (pctOctet _ ++ pctOctet _ ++ rest)).
  change (skipn 6 (pctOctet (128 + cp / 4096 mod 64)
                   ++ pctOctet (128 + cp / 64 mod 64)
                   ++ pctOctet (128 + cp mod 64) ++ rest))
    with (pctOctet (128 + cp mod 64) ++ rest).
  rewrite !pctAt_pctOctet by (unfold byte; lia).
  assert (E : (((240 + cp / 262144) mod 8 * 64 + (128 + cp / 4096 mod 64) mod 64) * 64
               + (128 + cp / 64 mod 64) mod 64) * 64
              + (128 + cp mod 64) mod 64 = cp) by lia.
  rewrite E, (between_false 192 223), (between_false 224 239),
    (between_true 240 247) by lia.
  rewrite !(between_true 128 191) by lia.
  rewrite (proj2 (N.leb_le 65536 cp)) by assumption.
  rewrite (proj2 (N.leb_le cp 1114111)) by lia. reflexivity.
Qed.

Lemma not_surrogate c :
  isHighSurrogate c = false -> isLowSurrogate c = false ->
  between 55296 57343 c = false.
Proof.
  unfold isHighSurrogate, isLowSurrogate, between. intros H1 H2.
  destruct (N.leb_spec 55296 c), (N.leb_spec c 57343); try reflexivity.
  destruct (N.leb_spec c 56319), (N.leb_spec 56320 c);
    cbn in H1, H2; try discriminate; lia.
Qed.

Lemma encodeURIComponent_unit c s :
  c < 65536 -> isHighSurrogate c = false -> isLowSurrogate c = false ->
  exists chunk,
    encodeURIComponent (c :: s)
    = (r <- encodeURIComponent s ;; Return (chunk ++ r))
    /\ forall r, unescape (chunk ++ r) = utf8_octets c ++ unescape r.
Proof.
  intros Hc Hh Hl. cbn [encodeURIComponent]. rewrite Hh, Hl.
  destruct (uriUnreserved c) eqn:E.
  - exists [c]. split; [reflexivity|]. intros r.
    apply uriUnreserved_ascii in E as [E1 E2].
    cbn [app]. rewrite unescape_plain by assumption.
    unfold utf8_octets. destruct (N.ltb_spec c 128); [reflexivity|lia].
  - exists (pctOctets (utf8_octets c)). split; [reflexivity|]. intros r.
    apply unescape_pctOctets, utf8_octets_bytes. lia.
Qed.

Lemma encodeURIComponent_pair h l s :
  isHighSurrogate h = true -> isLowSurrogate l = true ->
  encodeURIComponent (h :: l :: s)
  = (r <- encodeURIComponent s ;;
     Return (pctOctets (utf8_octets (pairCodePoint h l)) ++ r)).
Proof.
  intros Hh Hl. cbn [encodeURIComponent]. rewrite Hh, Hl.
  destruct (uriUnreserved h) eqn:E.
  { apply uriUnreserved_ascii in E as [E _].
    unfold isHighSurrogate, between in Hh. cmp_hyps. lia. }
  destruct (isLowSurrogate h) eqn:E2; [|reflexivity].
  unfold isHighSurrogate, isLowSurrogate, between in *. cmp_hyps. lia.
Qed.

Lemma escape_app a b : escape (a ++ b) = escape a ++ escape b.
Proof. apply flat_map_app. Qed.

(** The text survives [encodeURIComponent], [unescape], [escape] and
    [decodeURIComponent] when it is well-formed UTF-16, and its image
    under the first two is a string of octets. *)
Lemma uri_roundtrip t :
  paired t ->
  exists e, encodeURIComponent t = Return e
            /\ Forall byte (unescape e)
            /\ decodeURIComponent (escape (unescape e)) = Return t.
Proof.
  induction 1 as [|c s Hc Hh Hl _ (e & He & Hb & Hd)
                  |h l s Hh Hl _ (e & He & Hb & Hd)].
  - exists []. repeat split. constructor.
  - destruct (encodeURIComponent_unit c s Hc Hh Hl) as (chunk & E1 & E2).
    exists (chunk ++ e). rewrite E1, He, E2. split; [reflexivity|]. split.
    + apply Forall_app. split; [apply utf8_octets_bytes; lia|assumption].
    + rewrite escape_app, decodeURI_octets, Hd;
        [|lia|now apply not_surrogate].
      unfold utf16. destruct (N.ltb_spec c 65536); [reflexivity|lia].
  - pose proof (pairCodePoint_range h l Hh Hl) as Hr.
    exists (pctOctets (utf8_octets (pairCodePoint h l)) ++ e).
    rewrite encodeURIComponent_pair, He by assumption.
    rewrite unescape_pctOctets by (apply utf8_octets_bytes; lia).
    split; [reflexivity|]. split.
    + apply Forall_app. split; [apply utf8_octets_bytes; lia|assumption].
    + rewrite escape_app, decodeURI_octets, Hd; [| lia |].
      * now rewrite utf16_pairCodePoint.
      * unfold between. destruct (N.leb_spec (pairCodePoint h l) 57343); [lia|].
        apply andb_false_r.
Qed.

(** ** JSON *)

Lemma list_ind2 {A} (P : list A -> Prop) :
  P [] -> (forall a, P [a]) ->
  (forall a b r, P r -> P (b :: r) -> P (a :: b :: r)) ->
  forall l, P l.
Proof.
  intros H0 H1 H2.
  assert (forall l, P l /\ forall a, P (a :: l)) as H.
  { induction l as [|x l [IH0 IH1]]; auto. }
  intros l. apply H.
Qed.

Lemma unicodeEscape_ascii c :
  c < 65536 -> Forall (fun x => x < 128) (unicodeEscape c).
Proof.
  intros H. unfold unicodeEscape, BACKSLASH.
  pose proof (hexDigitL_range (c / 4096)).
  pose proof (hexDigitL_range ((c / 256) mod 16)).
  pose proof (hexDigitL_range ((c / 16) mod 16)).
  pose proof (hexDigitL_range (c mod 16)).
  repeat constructor; lia.
Qed.

Lemma shortEscape_spec c e :
  shortEscape c = Some e ->
  c < 128 /\ e < 128 /\ e <> 117 /\ unescapeChar e = Some c.
Proof.
  unfold shortEscape, unescapeChar, DQUOTE, BACKSLASH.
  repeat match goal with
         | |- context [c =? ?k] =>
             destruct (N.eqb_spec c k) as [->|?];
             [intros [= <-]; cbn; repeat split; (lia || discriminate)|]
         end.
  discriminate.
Qed.

Lemma shortEscape_none c :
  shortEscape c = None -> c <> DQUOTE /\ c <> BACKSLASH.
Proof.
  unfold shortEscape, DQUOTE, BACKSLASH.
  repeat match goal with
         | |- context [c =? ?k] =>
             destruct (N.eqb_spec c k) as [->|?]; [discriminate|]
         end.
  auto.
Qed.

Lemma quoteChars_paired s : wf_string s -> paired (quoteChars s).
Proof.
  unfold wf_string, code_unit.
  induction s as [| a | a b r IH0 IH1] using list_ind2; intros H.
  - constructor.
  - apply Forall_cons_iff in H as [Ha _]. cbn [quoteChars].
    destruct (shortEscape a) as [e|] eqn:E.
    { apply shortEscape_spec in E as (_ & E & _).
      apply paired_ascii. repeat constructor; unfold BACKSLASH; lia. }
    destruct (a <? 32); [rewrite app_nil_r; now apply paired_ascii, unicodeEscape_ascii|].
    destruct (isHighSurrogate a) eqn:Eh; [now apply paired_ascii, unicodeEscape_ascii|].
    destruct (isLowSurrogate a) eqn:El;
      [rewrite app_nil_r; now apply paired_ascii, unicodeEscape_ascii|].
    now repeat constructor.
  - apply Forall_cons_iff in H as [Ha H]. specialize (IH1 H).
    apply Forall_cons_iff in H as [Hb H]. specialize (IH0 H).
    cbn [quoteChars] in *.
    destruct (shortEscape a) as [e|] eqn:E.
    { apply shortEscape_spec in E as (_ & E & _).
      apply (paired_app [BACKSLASH; e]); [|exact IH1].
      apply paired_ascii. repeat constructor; unfold BACKSLASH; lia. }
    destruct (a <? 32).
    { apply paired_app; [now apply paired_ascii, unicodeEscape_ascii|exact IH1]. }
    destruct (isHighSurrogate a) eqn:Eh.
    { destruct (isLowSurrogate b) eqn:Elb.
      - now apply paired_pair.
      - apply paired_app; [now apply paired_ascii, unicodeEscape_ascii|exact IH1]. }
    destruct (isLowSurrogate a) eqn:El.
    { apply paired_app; [now apply paired_ascii, unicodeEscape_ascii|exact IH1]. }
    now apply paired_unit.
Qed.

Lemma parseChars_literal c rest :
  c <> DQUOTE -> c <> BACKSLASH -> 32 <= c ->
  parseChars 0 (c :: rest) = consFst c (parseChars 0 rest).
Proof.
  intros H1 H2 H3. cbn [parseChars].
  destruct (N.eqb_spec c DQUOTE); [contradiction|].
  destruct (N.eqb_spec c BACKSLASH); [contradiction|].
  destruct (N.ltb_spec c 32); [lia|reflexivity].
Qed.

Lemma parseChars_unicodeEscape c rest :
  c < 65536 ->
  parseChars 0 (unicodeEscape c ++ rest) = consFst c (parseChars 0 rest).
Proof.
  intros H. unfold unicodeEscape. cbn [app].
  change (parseChars 0 (BACKSLASH :: 117 :: ?h1 :: ?h2 :: ?h3 :: ?h4 :: rest))
    with (match hex4 (h1 :: h2 :: h3 :: h4 :: rest) with
          | Some v => consFst v (parseChars 0 rest)
          | None => None
          end).
  now rewrite hex4_unicodeEscape.
Qed.

Lemma parseChars_short c e rest :
  shortEscape c = Some e ->
  parseChars 0 (BACKSLASH :: e :: rest) = consFst c (parseChars 0 rest).
Proof.
  intros H. apply shortEscape_spec in H as (_ & _ & H1 & H2).
  change (parseChars 0 (BACKSLASH :: e :: rest))
    with (if e =? 117 then
            match hex4 rest with
            | Some v => consFst v (parseChars 5 (e :: rest))
            | None => None
            end
          else match unescapeChar e with
               | Some v => consFst v (parseChars 0 rest)
               | None => None
               end).
  destruct (N.eqb_spec e 117); [contradiction|]. now rewrite H2.
Qed.

Lemma surrogate_literal c :
  isHighSurrogate c = true \/ isLowSurrogate c = true ->
  c <> DQUOTE /\ c <> BACKSLASH /\ 32 <= c.
Proof.
  unfold isHighSurrogate, isLowSurrogate, between, DQUOTE, BACKSLASH.
  intros [H|H]; cmp_hyps; lia.
Qed.

(** Reading back a quoted string. *)
Lemma parseChars_quoteChars s rest :
  wf_string s ->
  parseChars 0 (quoteChars s ++ DQUOTE :: rest) = Some (s, rest).
Proof.
  unfold wf_string, code_unit.
  assert (Hone : forall a tl r,
             a < 65536 ->
             parseChars 0 (quoteChars tl ++ DQUOTE :: r) = Some (tl, r) ->
             forall q, (q = match shortEscape a with
                            | Some e => BACKSLASH :: e :: quoteChars tl
                            | None =>
                                if (a <? 32) || isHighSurrogate a || isLowSurrogate a
                                then unicodeEscape a ++ quoteChars tl
                                else a :: quoteChars tl
                            end) ->
             parseChars 0 (q ++ DQUOTE :: r) = Some (a :: tl, r)).
  { intros a tl r Ha IH q ->.
    destruct (shortEscape a) as [e|] eqn:E.
    - cbn [app]. rewrite (parseChars_short a e) by assumption. now rewrite IH.
    - apply shortEscape_none in E as [E1 E2].
      destruct (N.ltb_spec a 32) as [Hlt|Hge]; cbn [orb].
      + rewrite <- app_assoc, parseChars_unicodeEscape by assumption. now rewrite IH.
      + destruct (isHighSurrogate a || isLowSurrogate a).
        * rewrite <- app_assoc, parseChars_unicodeEscape by assumption. now rewrite IH.
        * cbn [app]. rewrite parseChars_literal by assumption. now rewrite IH. }
  induction s as [| a | a b r IH0 IH1] using list_ind2; intros H.
  - reflexivity.
  - apply Forall_cons_iff in H as [Ha _].
    apply (Hone a [] rest Ha eq_refl). cbn [quoteChars].
    destruct (shortEscape a); [reflexivity|].
    destruct (a <? 32); [reflexivity|]. cbn [orb].
    destruct (isHighSurrogate a); [now rewrite app_nil_r|].
    cbn [orb]. destruct (isLowSurrogate a); reflexivity.
  - apply Forall_cons_iff in H as [Ha H]. specialize (IH1 H).
    pose proof H as Hbr.
    apply Forall_cons_iff in H as [Hb H]. specialize (IH0 H).
    destruct (shortEscape a) as [e|] eqn:E.
    { apply (Hone a (b :: r) rest Ha IH1).
      cbn [quoteChars]. now rewrite E. }
    destruct (isHighSurrogate a && isLowSurrogate b && negb (a <? 32)) eqn:Ep.
    + apply andb_true_iff in Ep as [Ep Hlt].
      apply andb_true_iff in Ep as [Eh El].
      apply negb_true_iff in Hlt.
      replace (quoteChars (a :: b :: r)) with (a :: b :: quoteChars r)
        by (cbn [quoteChars]; now rewrite E, Hlt, Eh, El).
      destruct (surrogate_literal a (or_introl Eh)) as (? & ? & ?).
      destruct (surrogate_literal b (or_intror El)) as (? & ? & ?).
      cbn [app]. rewrite !parseChars_literal by assumption. now rewrite IH0.
    + apply (Hone a (b :: r) rest Ha IH1).
      rewrite E. cbn [quoteChars]. rewrite E.
      destruct (a <? 32); [reflexivity|]. cbn [orb].
      destruct (isHighSurrogate a); [|reflexivity].
      cbn [orb]. destruct (isLowSurrogate b); [discriminate|reflexivity].
Qed.

Lemma parseValue_string f v tail :
  wf_string v ->
  parseValue (S f) (QuoteJSONString v ++ tail) = POk (JStr v) tail.
Proof.
  intros H. unfold QuoteJSONString.
  change (parseValue (S f) ((DQUOTE :: quoteChars v ++ [DQUOTE]) ++ tail))
    with (match parseChars 0 ((quoteChars v ++ [DQUOTE]) ++ tail) with
          | Some (str, r') => POk (JStr str) r'
          | None => PErr
          end).
  rewrite <- app_assoc. cbn [app]. now rewrite parseChars_quoteChars.
Qed.

Lemma parseMembers_step f k v tail :
  wf_string k -> wf_string v ->
  parseMembers (S (S f)) (stringifyMember (k, v) ++ tail)
  = (let s3 := skipWs tail in
     if headIs COMMA s3 then
       match parseMembers (S f) (tl s3) with
       | POk ms r5 => POk ((k, JStr v) :: ms) r5
       | PErr => PErr
       | PFuel => PFuel
       end
     else if headIs 125 s3 then POk [(k, JStr v)] (tl s3)
     else PErr).
Proof.
  intros Hk Hv. unfold stringifyMember, fst, snd.
  unfold QuoteJSONString at 1. rewrite <- !app_assoc.
  cbn [app]. rewrite <- !app_assoc.
  change (parseMembers (S (S f)) (DQUOTE :: ?text))
    with (match parseChars 0 text with
          | None => PErr
          | Some (k, r1) =>
              let s1 := skipWs r1 in
              if headIs 58 s1 then
                match parseValue (S f) (tl s1) with
                | PErr => PErr
                | PFuel => PFuel
                | POk v r3 =>
                    let s3 := skipWs r3 in
                    if headIs COMMA s3 then
                      match parseMembers (S f) (tl s3) with
                      | POk ms r5 => POk ((k, v) :: ms) r5
                      | PErr => PErr
                      | PFuel => PFuel
                      end
                    else if headIs 125 s3 then POk [(k, v)] (tl s3)
                    else PErr
                end
              else PErr
          end).
  cbn [app]. rewrite parseChars_quoteChars by assumption.
  cbn [skipWs isJsonWs existsb N.eqb Pos.eqb orb headIs tl].
  cbv zeta. now rewrite parseValue_string.
Qed.

Lemma parseMembers_stringify obj : forall fuel rest,
  obj <> [] -> wf_object obj -> (List.length obj < fuel)%nat ->
  parseMembers fuel (join [COMMA] (map stringifyMember obj) ++ 125 :: rest)
  = POk (map (fun p => (fst p, JStr (snd p))) obj) rest.
Proof.
  induction obj as [|[k v] obj IH]; intros fuel rest Hne Hwf Hf; [contradiction|].
  apply Forall_cons_iff in Hwf as [[Hk Hv] Hwf]. cbn [fst snd] in Hk, Hv.
  cbn [List.length] in Hf.
  destruct fuel as [|[|f]]; try lia.
  destruct obj as [|p obj].
  - cbn [map join]. rewrite parseMembers_step by assumption. reflexivity.
  - change (join [COMMA] (map stringifyMember ((k, v) :: p :: obj)))
      with (stringifyMember (k, v) ++ [COMMA]
            ++ join [COMMA] (map stringifyMember (p :: obj))).
    rewrite <- !app_assoc. rewrite parseMembers_step by assumption.
    cbn [app skipWs isJsonWs existsb N.eqb Pos.eqb orb headIs tl COMMA].
    cbv zeta. rewrite IH; [reflexivity|discriminate|assumption|].
    cbn [List.length] in *. lia.
Qed.

Lemma stringifyMember_length p : (1 <= List.length (stringifyMember p))%nat.
Proof. unfold stringifyMember, QuoteJSONString. cbn. lia. Qed.

Lemma members_length obj :
  (List.length obj <= List.length (join [COMMA] (map stringifyMember obj)))%nat.
Proof.
  induction obj as [|p [|q obj] IH].
  - cbn. lia.
  - cbn [map join List.length]. apply stringifyMember_length.
  - change (join [COMMA] (map stringifyMember (p :: q :: obj)))
      with (stringifyMember p ++ [COMMA]
            ++ join [COMMA] (map stringifyMember (q :: obj))).
    rewrite !length_app. cbn [List.length] in *. lia.
Qed.

(** [JSON.parse] inverts [JSON.stringify] on objects with string
    values. *)
Lemma JSON_parse_stringify obj :
  wf_object obj -> JSON_parse (JSON_stringify obj) = Return (jsonOf obj).
Proof.
  intros Hwf. unfold JSON_parse, JSON_stringify, jsonOf.
  set (text := [123] ++ join [COMMA] (map stringifyMember obj) ++ [125]).
  assert (Hlen : exists f, (2 * List.length text = S f)%nat
                           /\ (List.length obj < S f)%nat).
  { exists (2 * List.length text - 1)%nat.
    assert (List.length obj < List.length text)%nat; [|lia].
    subst text. rewrite !length_app. pose proof (members_length obj).
    cbn [List.length]. lia. }
  destruct Hlen as (f & -> & Hlen). subst text.
  destruct obj as [|[k v] obj].
  - reflexivity.
  - cbn [app].
    change (parseValue (S (S f)) (123 :: ?text))
      with (if headIs 125 (skipWs text) then POk (JObj []) (tl (skipWs text))
            else match parseMembers (S f) text with
                 | POk ms r' => POk (JObj ms) r'
                 | PErr => PErr
                 | PFuel => PFuel
                 end).
    assert (Hq : exists t, join [COMMA] (map stringifyMember ((k, v) :: obj)) ++ [125]
                           = DQUOTE :: t).
    { destruct obj; cbn; eauto. }
    destruct Hq as [t Hq]. rewrite Hq.
    cbn [skipWs isJsonWs existsb N.eqb Pos.eqb orb headIs tl DQUOTE].
    rewrite <- Hq. rewrite parseMembers_stringify; try assumption; [reflexivity|discriminate].
Qed.

(** *** The fuel of the parser *)

Lemma skipWs_length s : (List.length (skipWs s) <= List.length s)%nat.
Proof.
  induction s as [|c s IH]; cbn [skipWs]; [lia|].
  destruct (isJsonWs c); cbn [List.length] in *; lia.
Qed.

Lemma tl_length {A} (l : list A) : (List.length (tl l) <= List.length l)%nat.
Proof. destruct l; cbn; lia. Qed.

Lemma parseChars_length s : forall skip str r,
  parseChars skip s = Some (str, r) -> (List.length r < List.length s)%nat.
Proof.
  induction s as [|c s IH]; intros skip str r H; cbn [parseChars] in H;
    [discriminate|].
  cbn [List.length].
  assert (Hc : forall k v, consFst v (parseChars k s) = Some (str, r) ->
                           (List.length r < S (List.length s))%nat).
  { intros k v E. destruct (parseChars k s) as [[s0 r0]|] eqn:E0; [|discriminate].
    cbn in E. injection E as _ <-. apply IH in E0. lia. }
  destruct skip as [|k]; [|apply IH in H; lia].
  destruct (c =? DQUOTE); [injection H as _ <-; lia|].
  destruct (c <? 32), (c =? BACKSLASH); try discriminate;
    try (eapply Hc; exact H).
  - destruct s as [|e s'']; [discriminate|].
    destruct (e =? 117).
    + destruct (hex4 s''); [eapply Hc; exact H|discriminate].
    + destruct (unescapeChar e); [eapply Hc; exact H|discriminate].
  - destruct s as [|e s'']; [discriminate|].
    destruct (e =? 117).
    + destruct (hex4 s''); [eapply Hc; exact H|discriminate].
    + destruct (unescapeChar e); [eapply Hc; exact H|discriminate].
Qed.

Lemma takeDigits_length s :
  (List.length (snd (takeDigits s)) <= List.length s)%nat
  /\ (isNil (fst (takeDigits s)) = false ->
      (List.length (snd (takeDigits s)) < List.length s)%nat).
Proof.
  induction s as [|c s [IH1 IH2]]; cbn [takeDigits].
  - cbn. split; [lia|discriminate].
  - destruct (isDigit c).
    + destruct (takeDigits s) as [ds r]. cbn [fst snd List.length isNil] in *.
      split; intros; lia.
    + cbn [fst snd isNil]. split; [lia|discriminate].
Qed.

Lemma parseNumber_length s v r :
  parseNumber s = Some (v, r) -> (List.length r < List.length s)%nat.
Proof.
  unfold parseNumber.
  set (s1 := if headIs 45 s then tl s else s).
  assert (H1 : (List.length s1 <= List.length s)%nat)
    by (subst s1; destruct (headIs 45 s); [apply tl_length|lia]).
  destruct (takeDigits_length s1) as [_ Hip].
  destruct (takeDigits s1) as [ip s2]. cbn [fst snd] in Hip.
  destruct (isNil ip); [discriminate|]. specialize (Hip eq_refl).
  cbn [orb]. destruct (headIs 0 ip && negb (isNil (tl ip))); [discriminate|].
  set (p := if headIs 46 s2 then takeDigits (tl s2) else ([], s2)).
  assert (H3 : (List.length (snd p) <= List.length s2)%nat).
  { subst p. destruct (headIs 46 s2); [|cbn; lia].
    pose proof (proj1 (takeDigits_length (tl s2))). pose proof (tl_length s2). lia. }
  destruct p as [fp s3]. cbn [snd] in H3.
  destruct (headIs 46 s2 && isNil fp); [discriminate|].
  destruct (headIs 101 s3 || headIs 69 s3).
  - set (r1 := if headIs 45 (tl s3) || headIs 43 (tl s3) then tl (tl s3) else tl s3).
    assert (H4 : (List.length r1 <= List.length s3)%nat).
    { subst r1. pose proof (tl_length s3). pose proof (tl_length (tl s3)).
      destruct (headIs 45 (tl s3) || headIs 43 (tl s3)); lia. }
    pose proof (proj1 (takeDigits_length r1)) as H5.
    destruct (takeDigits r1) as [ep r2]. cbn [snd] in H5.
    destruct (isNil ep); [discriminate|]. intros [= _ <-]. lia.
  - intros [= _ <-]. lia.
Qed.

Lemma parseLiteral_length word v s v' r :
  word <> [] -> parseLiteral word v s = POk v' r ->
  (List.length r < List.length s)%nat.
Proof.
  unfold parseLiteral. intros Hw. destruct (startsWith word s) eqn:E; [|discriminate].
  intros [= _ <-]. apply startsWith_split in E.
  apply (f_equal (@List.length N)) in E. rewrite length_app in E.
  destruct word; [contradiction|]. cbn [List.length] in *. lia.
Qed.

(** A successful parse consumes at least one character. *)
Lemma parse_shorter fuel :
  (forall s v r, parseValue fuel s = POk v r -> (List.length r < List.length s)%nat)
  /\ (forall s ms r, parseMembers fuel s = POk ms r -> (List.length r < List.length s)%nat)
  /\ (forall s es r, parseElements fuel s = POk es r -> (List.length r < List.length s)%nat).
Proof.
  induction fuel as [|f (IHv & IHm & IHe)];
    [repeat split; intros; discriminate|].
  split; [|split].
  - intros s v r. cbn [parseValue].
    pose proof (skipWs_length s) as Hs.
    destruct (skipWs s) as [|c t]; [discriminate|]. cbn [List.length] in Hs.
    destruct (c =? DQUOTE).
    { destruct (parseChars 0 t) as [[str r']|] eqn:E; [|discriminate].
      intros [= _ <-]. apply parseChars_length in E. lia. }
    destruct (c =? 123).
    { pose proof (skipWs_length t). pose proof (tl_length (skipWs t)).
      destruct (headIs 125 (skipWs t)); [intros [= _ <-]; lia|].
      destruct (parseMembers f t) as [ms r'| |] eqn:E; try discriminate.
      intros [= _ <-]. apply IHm in E. lia. }
    destruct (c =? 91).
    { pose proof (skipWs_length t). pose proof (tl_length (skipWs t)).
      destruct (headIs 93 (skipWs t)); [intros [= _ <-]; lia|].
      destruct (parseElements f t) as [es r'| |] eqn:E; try discriminate.
      intros [= _ <-]. apply IHe in E. lia. }
    destruct (c =? 116).
    { intros H. apply parseLiteral_length in H; [|discriminate].
      cbn [List.length] in H. lia. }
    destruct (c =? 102).
    { intros H. apply parseLiteral_length in H; [|discriminate].
      cbn [List.length] in H. lia. }
    destruct (c =? 110).
    { intros H. apply parseLiteral_length in H; [|discriminate].
      cbn [List.length] in H. lia. }
    destruct (parseNumber (c :: t)) as [[v' r']|] eqn:E; [|discriminate].
    intros [= _ <-]. apply parseNumber_length in E. cbn [List.length] in E. lia.
  - intros s ms r. cbn [parseMembers]. cbv zeta.
    pose proof (skipWs_length s) as Hs. pose proof (tl_length (skipWs s)).
    destruct (headIs DQUOTE (skipWs s)); [|discriminate].
    destruct (parseChars 0 (tl (skipWs s))) as [[k r1]|] eqn:E1; [|discriminate].
    apply parseChars_length in E1.
    pose proof (skipWs_length r1). pose proof (tl_length (skipWs r1)).
    destruct (headIs 58 (skipWs r1)); [|discriminate].
    destruct (parseValue f (tl (skipWs r1))) as [v r3| |] eqn:E2; try discriminate.
    apply IHv in E2.
    pose proof (skipWs_length r3). pose proof (tl_length (skipWs r3)).
    destruct (headIs COMMA (skipWs r3)).
    + destruct (parseMembers f (tl (skipWs r3))) as [ms' r5| |] eqn:E3;
        try discriminate.
      intros [= _ <-]. apply IHm in E3. lia.
    + destruct (headIs 125 (skipWs r3)); [|discriminate].
      intros [= _ <-]. lia.
  - intros s es r. cbn [parseElements]. cbv zeta.
    destruct (parseValue f s) as [v r1| |] eqn:E1; try discriminate.
    apply IHv in E1.
    pose proof (skipWs_length r1). pose proof (tl_length (skipWs r1)).
    destruct (headIs COMMA (skipWs r1)).
    + destruct (parseElements f (tl (skipWs r1))) as [es' r3| |] eqn:E3;
        try discriminate.
      intros [= _ <-]. apply IHe in E3. lia.
    + destruct (headIs 93 (skipWs r1)); [|discriminate].
      intros [= _ <-]. lia.
Qed.

(** With fuel above twice the length of the text, the parser never
    runs out of it. *)
Lemma parse_fuel fuel :
  (forall s, (2 * List.length s < fuel)%nat -> parseValue fuel s <> PFuel)
  /\ (forall s, (2 * List.length s + 1 < fuel)%nat -> parseMembers fuel s <> PFuel)
  /\ (forall s, (2 * List.length s + 1 < fuel)%nat -> parseElements fuel s <> PFuel).
Proof.
  induction fuel as [|f (IHv & IHm & IHe)]; [repeat split; intros; lia|].
  destruct (parse_shorter f) as (Sv & Sm & Se).
  split; [|split].
  - intros s Hf. cbn [parseValue].
    pose proof (skipWs_length s) as Hs.
    destruct (skipWs s) as [|c t]; [discriminate|]. cbn [List.length] in Hs.
    destruct (c =? DQUOTE); [destruct (parseChars 0 t) as [[? ?]|]; discriminate|].
    destruct (c =? 123).
    { destruct (headIs 125 (skipWs t)); [discriminate|].
      specialize (IHm t). destruct (parseMembers f t); try discriminate.
      exfalso. apply IHm; [lia|reflexivity]. }
    destruct (c =? 91).
    { destruct (headIs 93 (skipWs t)); [discriminate|].
      specialize (IHe t). destruct (parseElements f t); try discriminate.
      exfalso. apply IHe; [lia|reflexivity]. }
    unfold parseLiteral.
    destruct (c =? 116); [destruct (startsWith _ _); discriminate|].
    destruct (c =? 102); [destruct (startsWith _ _); discriminate|].
    destruct (c =? 110); [destruct (startsWith _ _); discriminate|].
    destruct (parseNumber (c :: t)) as [[? ?]|]; discriminate.
  - intros s Hf. cbn [parseMembers]. cbv zeta.
    pose proof (skipWs_length s) as Hs. pose proof (tl_length (skipWs s)).
    destruct (headIs DQUOTE (skipWs s)); [|discriminate].
    destruct (parseChars 0 (tl (skipWs s))) as [[k r1]|] eqn:E1; [|discriminate].
    apply parseChars_length in E1.
    pose proof (skipWs_length r1). pose proof (tl_length (skipWs r1)).
    destruct (headIs 58 (skipWs r1)); [|discriminate].
    specialize (IHv (tl (skipWs r1))).
    destruct (parseValue f (tl (skipWs r1))) as [v r3| |] eqn:E2;
      [|discriminate|exfalso; apply IHv; [lia|reflexivity]].
    apply Sv in E2.
    pose proof (skipWs_length r3). pose proof (tl_length (skipWs r3)).
    destruct (headIs COMMA (skipWs r3)).
    + specialize (IHm (tl (skipWs r3))).
      destruct (parseMembers f (tl (skipWs r3))); try discriminate.
      exfalso. apply IHm; [lia|reflexivity].
    + destruct (headIs 125 (skipWs r3)); discriminate.
  - intros s Hf. cbn [parseElements]. cbv zeta.
    specialize (IHv s).
    destruct (parseValue f s) as [v r1| |] eqn:E1; [|discriminate|exfalso; apply IHv; [lia|reflexivity]].
    apply Sv in E1.
    pose proof (skipWs_length r1). pose proof (tl_length (skipWs r1)).
    destruct (headIs COMMA (skipWs r1)).
    + specialize (IHe (tl (skipWs r1))).
      destruct (parseElements f (tl (skipWs r1))); try discriminate.
      exfalso. apply IHe; [lia|reflexivity].
    + destruct (headIs 93 (skipWs r1)); discriminate.
Qed.

(** [JSON_parse] gives its parser enough fuel: a SyntaxError always
    comes from the text. *)
Lemma parseValue_fuel text :
  parseValue (S (2 * List.length text)) text <> PFuel.
Proof. apply parse_fuel. lia. Qed.

Lemma QuoteJSONString_paired s : wf_string s -> paired (QuoteJSONString s).
Proof.
  intros H. unfold QuoteJSONString.
  apply (paired_app [DQUOTE]); [apply paired_ascii; repeat constructor; unfold DQUOTE; lia|].
  apply paired_app; [now apply quoteChars_paired|].
  apply paired_ascii; repeat constructor; unfold DQUOTE; lia.
Qed.

Lemma JSON_stringify_paired obj : wf_object obj -> paired (JSON_stringify obj).
Proof.
  intros Hwf. unfold JSON_stringify.
  apply paired_app; [apply paired_ascii; repeat constructor; lia|].
  apply paired_app; [|apply paired_ascii; repeat constructor; lia].
  induction Hwf as [|[k v] obj [Hk Hv] Hwf IH]; [constructor|].
  assert (Hm : paired (stringifyMember (k, v))).
  { unfold stringifyMember. apply paired_app; [now apply QuoteJSONString_paired|].
    apply paired_app; [apply paired_ascii; repeat constructor; lia|].
    now apply QuoteJSONString_paired. }
  destruct obj as [|q obj]; [exact Hm|].
  change (join [COMMA] (map stringifyMember ((k, v) :: q :: obj)))
    with (stringifyMember (k, v) ++ [COMMA]
          ++ join [COMMA] (map stringifyMember (q :: obj))).
  apply paired_app; [exact Hm|].
  apply paired_app; [apply paired_ascii; repeat constructor; unfold COMMA; lia|exact IH].
Qed.

(** ** Track updates *)

Lemma findMarker_none rs i :
  existsb (startsWith MARKER) rs = false -> findMarker rs i = None.
Proof.
  revert i; induction rs as [|r rs IH]; intros i H; [reflexivity|].
  cbn [existsb] in H. apply orb_false_iff in H as [H1 H2].
  cbn [findMarker]. rewrite H1. auto.
Qed.

Lemma doTrackUpdate_no_marker t :
  hasMarker t = false -> doTrackUpdate t = Return t.
Proof.
  unfold hasMarker, doTrackUpdate. destruct (roles t) as [rs|]; [|reflexivity].
  intros H. now rewrite findMarker_none.
Qed.

Lemma doTracksUpdate_no_marker ts :
  forallb (fun t => negb (hasMarker t)) ts = true ->
  doTracksUpdate ts = (ts, None).
Proof.
  induction ts as [|t ts IH]; [reflexivity|].
  cbn [forallb]. intros H. apply andb_true_iff in H as [H1 H2].
  apply negb_true_iff in H1. cbn [doTracksUpdate].
  rewrite doTrackUpdate_no_marker by assumption. now rewrite IH.
Qed.

Lemma doTrackUpdate_payload_throws t payload e :
  markerPayload t = Some payload -> decodeObject payload = Throw e ->
  doTrackUpdate t = Throw e.
Proof.
  unfold markerPayload, doTrackUpdate.
  destruct (roles t) as [rs|]; [|discriminate].
  destruct (findMarker rs 0) as [i|]; [|discriminate].
  intros E H.
  assert (E' : slice 10 (nth i rs []) = payload) by congruence.
  now rewrite E', H.
Qed.


(** ** Regular expressions *)

Section GreedyFacts.
Context {A : Type} (cls : N -> bool) (k : jsstring -> jsstring -> option A).

(** A match of a quantified atom takes some prefix in the class. *)
Lemma greedy_inv s : forall taken r,
  greedy cls k taken s = Some r ->
  exists p q, s = p ++ q /\ forallb cls p = true /\ k (rev taken ++ p) q = Some r.
Proof.
  induction s as [|c s IH]; intros taken r H; cbn [greedy] in H.
  - exists [], []. repeat split. now rewrite app_nil_r.
  - destruct (cls c) eqn:Ec.
    + destruct (greedy cls k (c :: taken) s) as [r'|] eqn:E.
      * injection H as <-. apply IH in E as (p & q & -> & Hp & Hk).
        exists (c :: p), q. cbn [forallb app]. rewrite Ec, Hp.
        cbn [rev] in Hk. rewrite <- app_assoc in Hk. auto.
      * exists [], (c :: s). repeat split. now rewrite app_nil_r.
    + exists [], (c :: s). repeat split. now rewrite app_nil_r.
Qed.

(** It fails when the rest of the pattern fails after every prefix. *)
Lemma greedy_none s : forall taken,
  (forall p q, s = p ++ q -> forallb cls p = true -> k (rev taken ++ p) q = None) ->
  greedy cls k taken s = None.
Proof.
  induction s as [|c s IH]; intros taken H; cbn [greedy].
  - specialize (H [] [] eq_refl eq_refl). now rewrite app_nil_r in H.
  - assert (H0 : k (rev taken) (c :: s) = None).
    { specialize (H [] (c :: s) eq_refl eq_refl). now rewrite app_nil_r in H. }
    destruct (cls c) eqn:Ec; [|exact H0].
    rewrite IH; [exact H0|]. intros p q -> Hp.
    cbn [rev]. rewrite <- app_assoc. apply (H (c :: p) q eq_refl).
    cbn [forallb]. now rewrite Ec.
Qed.

(** The longest prefix is tried first. *)
Lemma greedy_longest p : forall taken q r,
  forallb cls p = true ->
  match q with [] => True | c :: _ => cls c = false end ->
  k (rev taken ++ p) q = Some r ->
  greedy cls k taken (p ++ q) = Some r.
Proof.
  induction p as [|c p IH]; intros taken q r Hp Hq Hk.
  - rewrite app_nil_r in Hk. cbn [app].
    destruct q as [|c q]; cbn [greedy]; [exact Hk|]. now rewrite Hq.
  - cbn [forallb] in Hp. apply andb_true_iff in Hp as [Hc Hp].
    cbn [app greedy]. rewrite Hc.
    rewrite (IH (c :: taken) q r); auto.
    cbn [rev]. now rewrite <- app_assoc.
Qed.
End GreedyFacts.

Lemma exec_length re : forall s caps,
  exec re s = Some caps ->
  (List.length (List.concat caps) + fixedChars re <= List.length s)%nat.
Proof.
  induction re as [|[cap a] re IH]; intros s caps H; cbn [exec] in H.
  - destruct s; [|discriminate]. injection H as <-. cbn. lia.
  - assert (Hk : forall m r caps',
               match exec re r with
               | Some caps => Some (if cap then m :: caps else caps)
               | None => None
               end = Some caps' ->
               (List.length (List.concat caps') + fixedChars re
                <= (if cap then List.length m else 0) + List.length r)%nat).
    { intros m r caps' E. destruct (exec re r) as [c0|] eqn:E0; [|discriminate].
      injection E as <-. apply IH in E0.
      destruct cap; cbn [List.concat]; rewrite ?length_app; lia. }
    destruct a as [c|c|cls|cls].
    + destruct s as [|x s]; [discriminate|].
      destruct (x =? c); [|discriminate]. apply Hk in H.
      destruct cap; cbn [fixedChars List.length] in *; lia.
    + assert (fixedChars ((cap, Opt c) :: re) = fixedChars re) as -> by now destruct cap.
      destruct s as [|x s]; [apply Hk in H; destruct cap; cbn [List.length] in *; lia|].
      destruct (x =? c).
      * pose proof (Hk [x] s) as Hk1.
        destruct (exec re s) as [c0|] eqn:E0.
        -- injection H as <-. specialize (Hk1 _ eq_refl).
           destruct cap; cbn [List.length] in *; lia.
        -- apply Hk in H. destruct cap; cbn [List.length] in *; lia.
      * apply Hk in H. destruct cap; cbn [List.length] in *; lia.
    + assert (fixedChars ((cap, Star cls) :: re) = fixedChars re) as -> by now destruct cap.
      apply greedy_inv in H as (p & q & -> & _ & H). apply Hk in H.
      rewrite length_app. cbn [rev app] in H. destruct cap; lia.
    + assert (fixedChars ((cap, Plus cls) :: re) = fixedChars re) as -> by now destruct cap.
      apply greedy_inv in H as (p & q & -> & _ & H). cbn [rev app] in H.
      destruct p; [discriminate|]. apply Hk in H.
      rewrite length_app. destruct cap; lia.
Qed.

(** Every group of a match is made of characters of the input. *)
Lemma exec_captures (P : N -> Prop) re : forall s caps,
  Forall P s -> exec re s = Some caps -> Forall (Forall P) caps.
Proof.
  induction re as [|[cap a] re IH]; intros s caps Hs H; cbn [exec] in H.
  - destruct s; [|discriminate]. injection H as <-. constructor.
  - assert (Hk : forall m r caps',
               Forall P m -> Forall P r ->
               match exec re r with
               | Some caps => Some (if cap then m :: caps else caps)
               | None => None
               end = Some caps' -> Forall (Forall P) caps').
    { intros m r caps' Hm Hr E. destruct (exec re r) as [c0|] eqn:E0; [|discriminate].
      injection E as <-. apply IH in E0; [|assumption].
      destruct cap; [constructor|]; assumption. }
    destruct a as [c|c|cls|cls].
    + destruct s as [|x s]; [discriminate|].
      apply Forall_cons_iff in Hs as [Hx Hs].
      destruct (x =? c); [|discriminate]. apply (Hk [x] s); auto.
    + destruct s as [|x s]; [apply (Hk [] []); auto|].
      pose proof Hs as Hxs. apply Forall_cons_iff in Hs as [Hx Hs].
      destruct (x =? c); [|apply (Hk [] (x :: s)); auto].
      pose proof (Hk [x] s) as Hk1.
      destruct (exec re s) as [c0|] eqn:E0.
      * injection H as <-. apply Hk1; auto.
      * apply (Hk [] (x :: s)); auto.
    + apply greedy_inv in H as (p & q & -> & _ & H).
      apply Forall_app in Hs as [Hp Hq]. apply (Hk _ _ _ Hp Hq H).
    + apply greedy_inv in H as (p & q & -> & _ & H).
      apply Forall_app in Hs as [Hp Hq]. cbn [rev app] in H.
      destruct p; [discriminate|]. apply (Hk _ _ _ Hp Hq H).
Qed.

Lemma groups3_inv res k v rest :
  groups3 res = Some (k, v, rest) -> res = Some [k; v; rest].
Proof.
  destruct res as [[|k1 [|v1 [|r1 [|]]]]|]; cbn; try discriminate.
  now intros [= <- <- <-].
Qed.

Lemma matchAttr_inv line k a rest :
  matchAttr line = Some (k, a, rest) ->
  exists re, (re = reQuoted \/ re = reBare)
             /\ exec re line = Some [k; a.(value); rest].
Proof.
  unfold matchAttr. intros H.
  destruct (groups3 (exec reQuoted line)) as [[[k1 v1] r1]|] eqn:E1.
  - injection H as <- <- <-. apply groups3_inv in E1. eauto.
  - destruct (groups3 (exec reBare line)) as [[[k2 v2] r2]|] eqn:E2; [|discriminate].
    injection H as <- <- <-. apply groups3_inv in E2. eauto.
Qed.

Lemma matchAttr_shorter line k a rest :
  matchAttr line = Some (k, a, rest) ->
  (List.length rest < List.length line)%nat.
Proof.
  intros H. apply matchAttr_inv in H as (re & Hre & E).
  apply exec_length in E. cbn [List.concat] in E. rewrite !length_app in E.
  destruct Hre as [-> | ->]; cbn in E; lia.
Qed.

Lemma matchAttr_captures (P : N -> Prop) line k a rest :
  Forall P line -> matchAttr line = Some (k, a, rest) ->
  Forall P k /\ Forall P a.(value) /\ Forall P rest.
Proof.
  intros Hl H. apply matchAttr_inv in H as (re & _ & E).
  apply (exec_captures P) in E; [|assumption].
  apply Forall_cons_iff in E as [? E]. apply Forall_cons_iff in E as [? E].
  apply Forall_cons_iff in E as [? E]. auto.
Qed.

(** The fuel of [parseLoop] is never used up. *)
Lemma parseLoop_fuel f1 : forall f2 kv line,
  (List.length line <= f1)%nat -> (List.length line <= f2)%nat ->
  parseLoop f1 kv line = parseLoop f2 kv line.
Proof.
  induction f1 as [|f1 IH]; intros f2 kv line H1 H2.
  - destruct line; [|cbn in H1; lia]. now destruct f2.
  - destruct line as [|c line]; [now destruct f2|].
    destruct f2 as [|f2]; [cbn in H2; lia|].
    cbn [parseLoop]. destruct (matchAttr (c :: line)) as [[[k a] rest]|] eqn:E;
      [|reflexivity].
    apply matchAttr_shorter in E. cbn [List.length] in *.
    apply IH; lia.
Qed.

Lemma parseAttrs_step line k a rest :
  line <> [] -> matchAttr line = Some (k, a, rest) ->
  forall kv, parseLoop (List.length line) kv line
             = parseLoop (List.length rest) (obj_set kv k a) rest.
Proof.
  intros Hne E kv. destruct line as [|c line]; [contradiction|].
  cbn [List.length parseLoop]. rewrite E.
  apply matchAttr_shorter in E. cbn [List.length] in E.
  apply parseLoop_fuel; lia.
Qed.

(** ** Plain objects *)

Lemma str_eqb_spec a b : reflect (a = b) (str_eqb a b).
Proof.
  destruct (str_eqb a b) eqn:E; constructor.
  - now apply str_eqb_eq.
  - now apply str_eqb_neq.
Qed.

Lemma str_eqb_sym a b : str_eqb a b = str_eqb b a.
Proof.
  destruct (str_eqb_spec a b) as [E|H], (str_eqb_spec b a) as [E'|H'];
    congruence.
Qed.

Section ObjectFacts.
Context {A : Type}.
Implicit Types (o : jsobj A) (k : jsstring) (v : A).

Lemma obj_get_replace o k v k' :
  obj_get o k <> None ->
  obj_get (obj_replace o k v) k' = if str_eqb k k' then Some v else obj_get o k'.
Proof.
  induction o as [|[k0 v0] o IH]; cbn [obj_get obj_replace]; [congruence|].
  intros H. destruct (str_eqb_spec k0 k) as [->|Hk0].
  - cbn [obj_get]. destruct (str_eqb_spec k k'); reflexivity.
  - cbn [obj_get]. specialize (IH H).
    destruct (str_eqb_spec k0 k') as [->|Hk']; [|exact IH].
    destruct (str_eqb_spec k k'); congruence.
Qed.

Lemma obj_get_insert_index n o k v k' :
  obj_get o k = None ->
  obj_get (obj_insert_index n k v o) k' = if str_eqb k k' then Some v else obj_get o k'.
Proof.
  induction o as [|[k0 v0] o IH]; cbn [obj_get obj_insert_index]; intros H.
  - reflexivity.
  - destruct (str_eqb_spec k0 k) as [->|Hk0]; [discriminate|]. specialize (IH H).
    assert (Hhere : obj_get ((k, v) :: (k0, v0) :: o) k'
                    = if str_eqb k k' then Some v else obj_get ((k0, v0) :: o) k')
      by reflexivity.
    destruct (arrayIndex k0) as [n'|]; [|exact Hhere].
    destruct (n' <? n); [|exact Hhere].
    cbn [obj_get]. destruct (str_eqb_spec k0 k') as [->|Hk']; [|exact IH].
    destruct (str_eqb_spec k k'); congruence.
Qed.

Lemma obj_get_app o k v k' :
  obj_get (o ++ [(k, v)]) k'
  = match obj_get o k' with
    | Some x => Some x
    | None => if str_eqb k k' then Some v else None
    end.
Proof.
  induction o as [|[k0 v0] o IH]; cbn [app obj_get]; [reflexivity|].
  destruct (str_eqb k0 k'); [reflexivity|exact IH].
Qed.

(** Reading after writing. *)
Lemma obj_get_set o k v k' :
  k <> lit "__proto__" ->
  obj_get (obj_set o k v) k' = if str_eqb k k' then Some v else obj_get o k'.
Proof.
  intros Hp. unfold obj_set.
  destruct (str_eqb_spec k (lit "__proto__")); [contradiction|].
  destruct (obj_get o k) as [x|] eqn:E.
  - apply obj_get_replace. congruence.
  - destruct (arrayIndex k) as [n'|].
    + now apply obj_get_insert_index.
    + rewrite obj_get_app. destruct (str_eqb_spec k k') as [->|Hk].
      * now rewrite E.
      * now destruct (obj_get o k').
Qed.

Lemma obj_set_fresh o k v :
  k <> lit "__proto__" -> arrayIndex k = None -> obj_get o k = None ->
  obj_set o k v = o ++ [(k, v)].
Proof.
  intros Hp Hi Hg. unfold obj_set.
  destruct (str_eqb_spec k (lit "__proto__")); [contradiction|].
  now rewrite Hg, Hi.
Qed.

(** Writing keeps the properties that were there, in some order, and
    adds at most the one written. *)
Lemma obj_set_In o k v e :
  In e (obj_set o k v) -> e = (k, v) \/ In e o.
Proof.
  unfold obj_set. destruct (str_eqb k (lit "__proto__")); [auto|].
  destruct (obj_get o k) as [x|].
  - clear x. induction o as [|[k0 v0] o IH]; cbn [obj_replace]; [auto|].
    destruct (str_eqb_spec k0 k) as [->|Hk0]; cbn [In].
    + intros [<-|H]; auto.
    + intros [<-|H]; auto. destruct (IH H); auto.
  - destruct (arrayIndex k) as [n|].
    + induction o as [|[k0 v0] o IH]; cbn [obj_insert_index In].
      * intros [<-|[]]; auto.
      * destruct (arrayIndex k0) as [n'|]; [destruct (n' <? n)|]; cbn [In];
          intros H; try (destruct H as [<-|[<-|H]]; auto).
        destruct H as [<-|H]; auto. destruct (IH H); auto.
    + intros H. apply in_app_or in H as [H|[<-|[]]]; auto.
Qed.
End ObjectFacts.

(** ** [langTag] *)

Lemma occurrences_app key a b :
  occurrences key (a ++ b) = (occurrences key a + occurrences key b)%nat.
Proof. unfold occurrences. now rewrite filter_app, length_app. Qed.

Lemma occurrences_one key k :
  occurrences key [k] = if str_eqb key k then 1%nat else 0%nat.
Proof. unfold occurrences. cbn. now destruct (str_eqb key k). Qed.

Lemma counts_nil : counts [] [].
Proof. intros key. reflexivity. Qed.

Lemma langKey_not_proto kv : langKey kv <> lit "__proto__".
Proof.
  intros E. assert (H : In 46 (langKey kv)).
  { unfold langKey. apply in_or_app. right. now left. }
  rewrite E in H. cbn in H. intuition discriminate.
Qed.

Lemma counts_step state seen key v :
  key <> lit "__proto__" ->
  counts state seen ->
  v = N.of_nat (S (occurrences key seen)) ->
  counts (obj_set state key v) (seen ++ [key]).
Proof.
  intros Hp Hc -> key'. rewrite obj_get_set by assumption.
  rewrite occurrences_app, occurrences_one, (str_eqb_sym key' key).
  destruct (str_eqb_spec key key') as [->|Hne].
  - now rewrite Nat.add_1_r.
  - rewrite Nat.add_0_r. apply Hc.
Qed.

Lemma langTag_spec state seen kv :
  counts state seen ->
  (occurrences (langKey kv) seen <= 26)%nat ->
  exists state',
    langTag state kv = Return (tagFor kv (occurrences (langKey kv) seen), state')
    /\ counts state' (seen ++ [langKey kv]).
Proof.
  intros Hc Hj. unfold langTag. rewrite (Hc (langKey kv)).
  pose proof (langKey_not_proto kv) as Hp.
  destruct (occurrences (langKey kv) seen) as [|n] eqn:E.
  - eexists. split; [reflexivity|].
    apply counts_step; auto. now rewrite E.
  - assert (Hn : N.of_nat (S n) <> 0) by lia.
    destruct (N.eqb_spec (N.of_nat (S n)) 0); [contradiction|].
    destruct (N.ltb_spec 26 (N.of_nat (S n))); [lia|].
    eexists. split; [reflexivity|].
    apply counts_step; auto. rewrite E. lia.
Qed.

Lemma langTag_overflow state seen kv :
  counts state seen ->
  (26 < occurrences (langKey kv) seen)%nat ->
  langTag state kv = Throw ReferenceError.
Proof.
  intros Hc Hj. unfold langTag. rewrite (Hc (langKey kv)).
  destruct (occurrences (langKey kv) seen) as [|n] eqn:E; [lia|].
  assert (Hn : N.of_nat (S n) <> 0) by lia.
  destruct (N.eqb_spec (N.of_nat (S n)) 0); [contradiction|].
  destruct (N.ltb_spec 26 (N.of_nat (S n))); [reflexivity|lia].
Qed.

Lemma langTags_spec kvs : forall state seen,
  counts state seen ->
  (forall key, (occurrences key (seen ++ map langKey kvs) <= 27)%nat) ->
  langTags state kvs = Return (tagsFrom seen kvs).
Proof.
  induction kvs as [|kv kvs IH]; intros state seen Hc Hb; [reflexivity|].
  cbn [langTags tagsFrom].
  assert (Hj : (occurrences (langKey kv) seen <= 26)%nat).
  { specialize (Hb (langKey kv)). cbn [map] in Hb.
    rewrite occurrences_app in Hb. unfold occurrences at 2 in Hb.
    cbn [filter] in Hb. rewrite str_eqb_refl in Hb. cbn [List.length] in Hb. lia. }
  destruct (langTag_spec state seen kv Hc Hj) as (state' & E & Hc').
  rewrite E. cbn [bind fst snd]. rewrite (IH state' (seen ++ [langKey kv])).
  - reflexivity.
  - assumption.
  - intros key. rewrite <- app_assoc. apply Hb.
Qed.

Lemma tagsFrom_length kvs : forall seen,
  List.length (tagsFrom seen kvs) = List.length kvs.
Proof. induction kvs; intros seen; cbn; auto. Qed.

Lemma tagsFrom_nth kvs : forall seen i kv,
  nth_error kvs i = Some kv ->
  nth_error (tagsFrom seen kvs) i
  = Some (tagFor kv (occurrences (langKey kv) (seen ++ map langKey (firstn i kvs)))).
Proof.
  induction kvs as [|kv0 kvs IH]; intros seen i kv H; [now destruct i|].
  destruct i as [|i]; cbn [nth_error tagsFrom firstn map] in *.
  - injection H as <-. now rewrite app_nil_r.
  - rewrite (IH _ _ _ H). now rewrite <- app_assoc.
Qed.

Lemma occurrences_firstn_lt keys : forall i i' key,
  (i' < i)%nat -> nth_error keys i' = Some key ->
  (occurrences key (firstn i' keys) < occurrences key (firstn i keys))%nat.
Proof.
  induction keys as [|k keys IH]; intros i i' key Hlt H; [now destruct i'|].
  destruct i as [|i]; [lia|].
  destruct i' as [|i']; cbn [nth_error firstn] in *.
  - injection H as ->. unfold occurrences. cbn [filter].
    rewrite str_eqb_refl. cbn [List.length]. lia.
  - assert (Hi : (i' < i)%nat) by lia. specialize (IH i i' key Hi H).
    unfold occurrences in *. cbn [filter].
    destruct (str_eqb key k); cbn [List.length]; lia.
Qed.

Lemma langKey_langOf kv :
  langKey kv = attrOr kv (lit "GROUP-ID") (lit "gid") ++ 46 :: langOf kv.
Proof. reflexivity. Qed.

(** Two calls with one key get different tags. *)
Lemma tagFor_distinct kv kv' j j' :
  langKey kv' = langKey kv -> (j' < j)%nat -> (j <= 26)%nat ->
  tagFor kv' j' <> tagFor kv j.
Proof.
  intros Hk Hlt Hb E. destruct j as [|n]; [lia|].
  destruct j' as [|n']; cbn [tagFor] in E.
  - rewrite !langKey_langOf in Hk. rewrite E in Hk.
    set (g' := attrOr kv' (lit "GROUP-ID") (lit "gid")) in *.
    set (g := attrOr kv (lit "GROUP-ID") (lit "gid")) in *.
    set (l := langOf kv) in *. set (L := 64 + N.of_nat (S n)) in *.
    assert (HL : L <> 46) by (subst L; lia).
    change (g' ++ 46 :: l ++ [45] ++ [88; L])
      with (g' ++ (46 :: l ++ [45; 88; L])) in Hk.
    change (g ++ 46 :: l) with (g ++ (46 :: l)) in Hk.
    apply app_eq_app in Hk as [x [[_ Hx]|[_ Hx]]].
    + apply (f_equal (@List.length N)) in Hx.
      rewrite length_app in Hx. cbn [List.length] in Hx.
      rewrite length_app in Hx. cbn [List.length] in Hx. lia.
    + assert (Hlen : List.length x = 3%nat).
      { apply (f_equal (@List.length N)) in Hx.
        rewrite length_app in Hx. cbn [List.length] in Hx.
        rewrite length_app in Hx. cbn [List.length] in Hx. lia. }
      destruct x as [|x0 x]; [discriminate|].
      pose proof Hx as Hc. apply (f_equal (count_occ N.eq_dec)) in Hc.
      apply (f_equal (fun f => f 46)) in Hc.
      injection Hx as <- _.
      change ((46 :: x) ++ 46 :: l) with (46 :: (x ++ 46 :: l)) in Hc.
      assert (H0 : count_occ N.eq_dec [45; 88; L] 46 = 0%nat).
      { apply count_occ_not_In. cbn. intuition (try discriminate; congruence). }
      rewrite (count_occ_cons_eq N.eq_dec (l ++ [45; 88; L]) (eq_refl 46)) in Hc.
      rewrite (count_occ_cons_eq N.eq_dec (x ++ 46 :: l) (eq_refl 46)) in Hc.
      rewrite !count_occ_app in Hc.
      rewrite (count_occ_cons_eq N.eq_dec l (eq_refl 46)) in Hc.
      lia.
  - assert (H : (langOf kv' ++ [45; 88]) ++ [64 + N.of_nat (S n')]
               = (langOf kv ++ [45; 88]) ++ [64 + N.of_nat (S n)])
      by (rewrite <- !app_assoc; exact E).
    apply app_inj_tail in H as [_ H]. lia.
Qed.

(** ** Matching one attribute *)

Lemma exec_Chr c re s : exec ((false, Chr c) :: re) (c :: s) = exec re s.
Proof. cbn [exec]. rewrite N.eqb_refl. now destruct (exec re s). Qed.

Lemma exec_Chr_fail c re s :
  headIs c s = false -> exec ((false, Chr c) :: re) s = None.
Proof.
  intros H. cbn [exec]. destruct s as [|x s]; [reflexivity|].
  cbn [headIs] in H. now rewrite H.
Qed.

Lemma exec_Star cap cls re p q caps :
  forallb cls p = true -> stopsAt cls q ->
  exec re q = Some caps ->
  exec ((cap, Star cls) :: re) (p ++ q) = Some (if cap then p :: caps else caps).
Proof.
  intros Hp Hq E. cbn [exec]. apply greedy_longest; auto.
  cbn [rev app]. now rewrite E.
Qed.

Lemma exec_Plus cap cls re p q caps :
  p <> [] -> forallb cls p = true -> stopsAt cls q ->
  exec re q = Some caps ->
  exec ((cap, Plus cls) :: re) (p ++ q) = Some (if cap then p :: caps else caps).
Proof.
  intros Hne Hp Hq E. cbn [exec]. apply greedy_longest; auto.
  cbn [rev app]. destruct p; [contradiction|]. now rewrite E.
Qed.

Lemma exec_Opt_take c re s caps :
  exec re s = Some caps -> exec ((false, Opt c) :: re) (c :: s) = Some caps.
Proof. intros E. cbn [exec]. now rewrite N.eqb_refl, E. Qed.

Lemma dots_forallb s : dots s -> forallb isDot s = true.
Proof.
  intros H. apply forallb_forall. unfold dots in H. rewrite Forall_forall in H.
  intros x Hx. unfold isDot. now rewrite (H x Hx).
Qed.

Lemma exec_reTail_end : exec reTail [] = Some [[]].
Proof. reflexivity. Qed.

Lemma exec_reTail_comma rest :
  dots rest -> exec reTail (COMMA :: rest) = Some [rest].
Proof.
  intros H. unfold reTail.
  apply (exec_Star false isWhiteSpace _ [] (COMMA :: rest)); [reflexivity|reflexivity|].
  apply exec_Opt_take.
  rewrite <- (app_nil_r rest) at 1.
  apply (exec_Star true isDot [] rest []); [now apply dots_forallb|exact I|reflexivity].
Qed.

Lemma exec_reTail tail rest : follows tail rest -> exec reTail tail = Some [rest].
Proof. destruct 1; [apply exec_reTail_end|now apply exec_reTail_comma]. Qed.

Lemma exec_reQuoted_match key v tail rest :
  wf_key key -> forallb notQuote v = true -> follows tail rest ->
  exec reQuoted (key ++ [61; DQUOTE] ++ v ++ [DQUOTE] ++ tail) = Some [key; v; rest].
Proof.
  intros [Hne Hk] Hv Hf. unfold reQuoted.
  apply (exec_Plus true); auto; [reflexivity|].
  cbn [app]. rewrite !exec_Chr.
  apply (exec_Star true); auto; [reflexivity|].
  rewrite exec_Chr. now apply exec_reTail.
Qed.

Lemma exec_reBare_match key v tail rest :
  wf_key key -> forallb notComma v = true -> follows tail rest ->
  exec reBare (key ++ [61] ++ v ++ tail) = Some [key; v; rest].
Proof.
  intros [Hne Hk] Hv Hf. unfold reBare.
  apply (exec_Plus true); auto; [reflexivity|].
  cbn [app]. rewrite exec_Chr.
  apply (exec_Star true); auto; [destruct Hf; [exact I|reflexivity]|].
  now apply exec_reTail.
Qed.

Lemma exec_Plus_none cap cls re s :
  (forall p q, s = p ++ q -> p <> [] -> forallb cls p = true -> exec re q = None) ->
  exec ((cap, Plus cls) :: re) s = None.
Proof.
  intros H. cbn [exec]. apply greedy_none. intros p q E Hp. cbn [rev app].
  destruct p as [|c p]; [reflexivity|].
  now rewrite (H (c :: p) q E).
Qed.

(** The quoted pattern fails when no quote follows the [=]. *)
Lemma exec_reQuoted_bare key t :
  wf_key key -> headIs DQUOTE t = false ->
  exec reQuoted (key ++ 61 :: t) = None.
Proof.
  intros [Hne Hk] Ht. unfold reQuoted.
  apply exec_Plus_none. intros p q E _ Hp.
  apply app_eq_app in E as [x [[E1 E2]|[E1 E2]]].
  - (* p stops inside the key *)
    destruct x as [|x0 x].
    + cbn [app] in E2. subst q. rewrite exec_Chr. now apply exec_Chr_fail.
    + subst q. apply exec_Chr_fail. cbn [app headIs].
      rewrite E1, forallb_app in Hk. apply andb_true_iff in Hk as [_ Hk].
      cbn [forallb] in Hk. apply andb_true_iff in Hk as [Hk _].
      destruct (N.eqb_spec x0 61) as [->|]; [discriminate|reflexivity].
  - (* p runs past the key *)
    destruct x as [|x0 x].
    + cbn [app] in E2. subst q. rewrite exec_Chr. now apply exec_Chr_fail.
    + injection E2 as <- _. rewrite E1, forallb_app in Hp.
      apply andb_true_iff in Hp as [_ Hp]. cbn in Hp. discriminate.
Qed.

Lemma matchAttr_quoted key v tail rest :
  wf_key key -> forallb notQuote v = true -> follows tail rest ->
  matchAttr (key ++ [61; DQUOTE] ++ v ++ [DQUOTE] ++ tail)
  = Some (key, {| value := v; quoted := true |}, rest).
Proof.
  intros Hk Hv Hf. unfold matchAttr.
  now rewrite (exec_reQuoted_match key v tail rest).
Qed.

Lemma matchAttr_bare key v tail rest :
  wf_key key -> forallb notComma v = true -> headIs DQUOTE v = false ->
  follows tail rest ->
  matchAttr (key ++ [61] ++ v ++ tail)
  = Some (key, {| value := v; quoted := false |}, rest).
Proof.
  intros Hk Hv Hq Hf. unfold matchAttr.
  change (key ++ [61] ++ v ++ tail) with (key ++ 61 :: (v ++ tail)).
  rewrite exec_reQuoted_bare; auto.
  - change (key ++ 61 :: (v ++ tail)) with (key ++ [61] ++ v ++ tail).
    now rewrite (exec_reBare_match key v tail rest).
  - destruct v as [|c v]; [|exact Hq]. destruct Hf; reflexivity.
Qed.

(** ** Parsing and serializing attribute lines *)

Lemma obj_get_absent {A} (o : jsobj A) k :
  ~ In k (map fst o) -> obj_get o k = None.
Proof.
  induction o as [|[k0 v0] o IH]; cbn [map fst In obj_get]; [reflexivity|].
  intros H. destruct (str_eqb_spec k0 k) as [->|Hne]; [tauto|].
  apply IH. tauto.
Qed.

Lemma isKeyChar_dot c : isKeyChar c = true -> isLineTerminator c = false.
Proof.
  unfold isKeyChar, isAlnum, isDigit, between, isLineTerminator, existsb.
  intros H. repeat (apply orb_true_iff in H as [H|H]); cmp; reflexivity.
Qed.

Lemma dots_app a b : dots a -> dots b -> dots (a ++ b).
Proof. intros Ha Hb. apply Forall_app. now split. Qed.

Lemma renderAttr_dots e : wf_attr e -> dots (renderAttr e).
Proof.
  destruct e as [k [v q]]. intros ([_ Hk] & Hv & _). cbn [fst snd value] in *.
  assert (Hkd : dots k).
  { apply Forall_forall. intros c Hc. apply isKeyChar_dot.
    rewrite forallb_forall in Hk. auto. }
  unfold renderAttr. cbn [quoted value]. destruct q.
  - apply dots_app; [assumption|]. apply (dots_app [61; DQUOTE]);
      [repeat constructor|]. apply dots_app; [assumption|repeat constructor].
  - apply dots_app; [assumption|]. apply (dots_app [61]); [repeat constructor|assumption].
Qed.

Lemma serializeAttrs_cons e es :
  serializeAttrs (e :: es)
  = renderAttr e ++ match es with [] => [] | _ :: _ => COMMA :: serializeAttrs es end.
Proof.
  unfold serializeAttrs. destruct es; cbn [map join].
  - now rewrite app_nil_r.
  - reflexivity.
Qed.

Lemma serializeAttrs_dots es : Forall wf_attr es -> dots (serializeAttrs es).
Proof.
  induction 1 as [|e es He _ IH]; [constructor|].
  rewrite serializeAttrs_cons. apply dots_app; [now apply renderAttr_dots|].
  destruct es; [constructor|]. constructor; [reflexivity|exact IH].
Qed.

Lemma matchAttr_render e tail rest :
  wf_attr e -> follows tail rest ->
  matchAttr (renderAttr e ++ tail) = Some (fst e, snd e, rest).
Proof.
  destruct e as [k [v q]]. intros (Hk & _ & Hv) Hf. cbn [fst snd value quoted] in *.
  unfold renderAttr. cbn [quoted value]. destruct q.
  - rewrite <- !app_assoc. now apply matchAttr_quoted.
  - destruct Hv as [Hv Hq]. rewrite <- !app_assoc. now apply matchAttr_bare.
Qed.

Lemma renderAttr_nonempty e tail : wf_attr e -> renderAttr e ++ tail <> [].
Proof.
  destruct e as [k [v q]]. intros ([Hne _] & _). cbn [fst] in Hne.
  unfold renderAttr. destruct k; [contradiction|]. now destruct q.
Qed.

(** The loop reads a well-formed line back, entry by entry. *)
Lemma parseLoop_serialize es : forall kv,
  Forall wf_attr es -> Forall plainKey (map fst es) ->
  NoDup (map fst kv ++ map fst es) ->
  parseLoop (List.length (serializeAttrs es)) kv (serializeAttrs es) = kv ++ es.
Proof.
  induction es as [|e es IH]; intros kv Hwf Hpl Hnd.
  - cbn. now rewrite app_nil_r.
  - apply Forall_cons_iff in Hwf as [He Hwf].
    cbn [map] in Hpl, Hnd. apply Forall_cons_iff in Hpl as [[Hp Hi] Hpl].
    rewrite serializeAttrs_cons.
    set (tail := match es with [] => [] | _ :: _ => COMMA :: serializeAttrs es end).
    assert (Hf : follows tail (serializeAttrs es)).
    { subst tail. destruct es; [constructor|].
      constructor. now apply serializeAttrs_dots. }
    rewrite (parseAttrs_step _ (fst e) (snd e) (serializeAttrs es));
      [|now apply renderAttr_nonempty|now apply matchAttr_render].
    rewrite obj_set_fresh; auto.
    + rewrite IH; auto.
      * rewrite <- app_assoc. now destruct e.
      * rewrite map_app, <- app_assoc. exact Hnd.
    + apply obj_get_absent. apply NoDup_remove_2 in Hnd.
      intros Hin. apply Hnd. apply in_or_app. now left.
Qed.

(** ** Rewriting one line *)

Lemma collectObject_entries kv :
  collectObject kv
  = entryOf kv (lit "LANGUAGE") ++ entryOf kv (lit "NAME")
    ++ entryOf kv (lit "FORCED") ++ entryOf kv (lit "CHANNELS").
Proof.
  unfold collectObject, entryOf. cbn [fold_left].
  destruct (obj_get kv (lit "LANGUAGE")), (obj_get kv (lit "NAME")),
    (obj_get kv (lit "FORCED")), (obj_get kv (lit "CHANNELS")); reflexivity.
Qed.

Lemma getProp_collectObject kv :
  getProp (jsonOf (collectObject kv)) (lit "LANGUAGE")
  = Return match obj_get kv (lit "LANGUAGE") with
           | Some a => JStr a.(value)
           | None => JUndefined
           end.
Proof.
  rewrite collectObject_entries. unfold entryOf, jsonOf, getProp.
  destruct (obj_get kv (lit "LANGUAGE")), (obj_get kv (lit "NAME")),
    (obj_get kv (lit "FORCED")), (obj_get kv (lit "CHANNELS")); reflexivity.
Qed.

Lemma obj_get_In {A} (o : jsobj A) k v : obj_get o k = Some v -> In (k, v) o.
Proof.
  induction o as [|[k0 v0] o IH]; cbn [obj_get]; [discriminate|].
  destruct (str_eqb_spec k0 k) as [->|Hne].
  - intros [= ->]. now left.
  - intros H. right. auto.
Qed.

Lemma attrsIn_get P kv k a :
  attrsIn P kv -> obj_get kv k = Some a -> Forall P a.(value).
Proof.
  intros H E. apply obj_get_In in E. unfold attrsIn in H.
  rewrite Forall_forall in H. apply (H _ E).
Qed.

Lemma attrsIn_set P kv k a :
  attrsIn P kv -> Forall P k -> Forall P a.(value) -> attrsIn P (obj_set kv k a).
Proof.
  intros H Hk Ha. apply Forall_forall. intros e He.
  apply obj_set_In in He as [->|He]; [now split|].
  unfold attrsIn in H. rewrite Forall_forall in H. auto.
Qed.

Lemma parseLoop_attrsIn P fuel : forall kv line,
  attrsIn P kv -> Forall P line -> attrsIn P (parseLoop fuel kv line).
Proof.
  induction fuel as [|fuel IH]; intros kv line Hkv Hl; [exact Hkv|].
  cbn [parseLoop]. destruct line as [|c line]; [exact Hkv|].
  destruct (matchAttr (c :: line)) as [[[k a] rest]|] eqn:E; [|exact Hkv].
  apply (matchAttr_captures P) in E as (Hk & Ha & Hr); [|assumption].
  apply IH; [now apply attrsIn_set|assumption].
Qed.

Lemma parseAttrs_attrsIn P line : Forall P line -> attrsIn P (parseAttrs line).
Proof. intros H. apply parseLoop_attrsIn; [constructor|assumption]. Qed.

Lemma lit_ascii s : Forall (fun c => c < 256) (lit s).
Proof.
  unfold lit. apply Forall_map. apply Forall_forall. intros a _.
  apply N_ascii_bounded.
Qed.

Lemma wf_lit s : wf_string (lit s).
Proof.
  eapply Forall_impl; [|apply lit_ascii]. unfold code_unit. intros; lia.
Qed.

Lemma entryOf_wf kv k :
  attrsIn code_unit kv -> wf_string k -> wf_object (entryOf kv k).
Proof.
  intros H Hk. unfold entryOf, wf_object.
  destruct (obj_get kv k) as [a|] eqn:E; [|constructor].
  constructor; [|constructor]. cbn [fst snd].
  split; [exact Hk|exact (attrsIn_get _ _ _ _ H E)].
Qed.

Lemma collectObject_wf kv : attrsIn code_unit kv -> wf_object (collectObject kv).
Proof.
  intros H. rewrite collectObject_entries. unfold wf_object.
  apply Forall_app. split; [apply entryOf_wf; auto using wf_lit|].
  apply Forall_app. split; [apply entryOf_wf; auto using wf_lit|].
  apply Forall_app. split; apply entryOf_wf; auto using wf_lit.
Qed.

Lemma skipn_Forall {A} (P : A -> Prop) n (l : list A) :
  Forall P l -> Forall P (skipn n l).
Proof.
  intros H. rewrite <- (firstn_skipn n l) in H. now apply Forall_app in H.
Qed.

Lemma attrOr_set_other (kv : AttributeSet) k a k' d :
  k <> lit "__proto__" -> str_eqb k k' = false ->
  attrOr (obj_set kv k a) k' d = attrOr kv k' d.
Proof.
  intros Hp Hk. unfold attrOr. now rewrite obj_get_set, Hk.
Qed.

Lemma langTag_ext state kv kv' :
  langKey kv' = langKey kv -> langOf kv' = langOf kv ->
  langTag state kv' = langTag state kv.
Proof.
  intros Hk Hl. unfold langTag. fold (langOf kv) (langOf kv').
  now rewrite Hk, Hl.
Qed.

(** [rewriteAttrs] is [encodeObject], then [langTag] on the attributes
    of the line. *)
Lemma rewriteAttrs_eq state kv :
  rewriteAttrs state kv
  = (payload <- encodeObject (collectObject kv) ;;
     r <- langTag state kv ;;
     Return (rewritten kv payload (fst r), snd r)).
Proof.
  unfold rewriteAttrs. destruct (encodeObject (collectObject kv)) as [payload|e];
    [|reflexivity].
  cbn [bind]. fold (characteristicsOf kv).
  rewrite (langTag_ext state kv); [reflexivity| |].
  - unfold langKey. now rewrite !attrOr_set_other.
  - unfold langOf. now rewrite !attrOr_set_other.
Qed.

Lemma rewriteLine_unhandled state line :
  handled line = false -> rewriteLine state line = Return (line, state).
Proof.
  unfold handled, rewriteLine. destruct (startsWith PREFIX line); [|reflexivity].
  cbn [andb negb]. now intros ->.
Qed.

Lemma rewriteLine_handled state line :
  handled line = true ->
  rewriteLine state line
  = (r <- rewriteAttrs state (parseAttrs (slice 13 line)) ;;
     Return (PREFIX ++ serializeAttrs (fst r), snd r)).
Proof.
  unfold handled, rewriteLine. intros H. apply andb_true_iff in H as [-> ->].
  reflexivity.
Qed.

(** *** Characters of the output *)

Lemma join_Forall (P : N -> Prop) sep parts :
  Forall P sep -> Forall (Forall P) parts -> Forall P (join sep parts).
Proof.
  intros Hs. induction 1 as [|p ps Hp Hps IH]; [constructor|].
  destruct ps as [|q ps]; [exact Hp|].
  change (join sep (p :: q :: ps)) with (p ++ sep ++ join sep (q :: ps)).
  repeat (apply Forall_app; split); assumption.
Qed.

Lemma splitOn_Forall (P : N -> Prop) c s :
  Forall P s -> Forall (Forall P) (splitOn c s).
Proof.
  induction 1 as [|x s Hx Hs IH]; [repeat constructor|].
  cbn [splitOn]. destruct (x =? c); [constructor; [constructor|exact IH]|].
  destruct (splitOn c s) as [|p ps]; [repeat constructor; assumption|].
  apply Forall_cons_iff in IH as [Hp Hps].
  constructor; [constructor|]; assumption.
Qed.

Lemma serializeAttrs_Forall (P : N -> Prop) kv :
  P 61 -> P DQUOTE -> P COMMA -> attrsIn P kv -> Forall P (serializeAttrs kv).
Proof.
  intros H1 H2 H3 Hkv. unfold serializeAttrs.
  apply join_Forall; [repeat constructor; assumption|].
  apply Forall_map. eapply Forall_impl; [|exact Hkv].
  intros [k [v q]] [Hk Hv]. cbn [fst snd value] in *. unfold renderAttr.
  cbn [quoted value]. destruct q;
    repeat (apply Forall_app; split); repeat constructor; assumption.
Qed.

Lemma b64char_payload i : payloadChar (b64char i).
Proof. unfold payloadChar, b64char, LF, COMMA. cmp. Qed.

Lemma b64encode_payload bs : Forall payloadChar (b64encode bs).
Proof.
  assert (Hpad : payloadChar PAD) by (unfold payloadChar, PAD, LF, COMMA; lia).
  induction bs as [| a | a b | a b c r IH] using list_ind3; cbn [b64encode];
    repeat (constructor; [first [apply b64char_payload|exact Hpad]|]);
    first [exact IH|constructor].
Qed.

Lemma encodeObject_payload obj payload :
  encodeObject obj = Return payload -> Forall payloadChar payload.
Proof.
  unfold encodeObject, btoa.
  destruct (encodeURIComponent (JSON_stringify obj)) as [e|]; [|discriminate].
  cbn [bind]. destruct (forallb _ _); [|discriminate].
  intros [= <-]. apply b64encode_payload.
Qed.

Lemma langTag_tag state kv tag state' :
  langTag state kv = Return (tag, state') ->
  exists suffix, tag = langOf kv ++ suffix
                 /\ Forall (fun c => 45 <= c < 65536) suffix.
Proof.
  unfold langTag. fold (langOf kv).
  destruct (match obj_get state (langKey kv) with
            | Some n => if n =? 0 then (0, obj_set state (langKey kv) 1)
                        else (n, obj_set state (langKey kv) (n + 1))
            | None => (0, obj_set state (langKey kv) 1)
            end) as [tagSeq st].
  destruct (tagSeq =? 0).
  - intros [= <- _]. exists []. now rewrite app_nil_r.
  - destruct (N.ltb_spec 26 tagSeq); [discriminate|].
    intros [= <- _]. eexists. split; [reflexivity|].
    repeat constructor; lia.
Qed.

(** *** Splitting and joining *)

Lemma splitOn_nonempty c s : splitOn c s <> [].
Proof.
  destruct s as [|x s]; cbn [splitOn]; [discriminate|].
  destruct (x =? c); [discriminate|]. destruct (splitOn c s); discriminate.
Qed.

Lemma splitOn_cons_other c x s :
  x <> c -> splitOn c (x :: s) = consHead x (splitOn c s).
Proof.
  intros H. cbn [splitOn]. destruct (N.eqb_spec x c); [contradiction|].
  reflexivity.
Qed.

Lemma splitOn_none c s : Forall (fun x => x <> c) s -> splitOn c s = [s].
Proof.
  induction 1 as [|x s Hx _ IH]; [reflexivity|].
  rewrite splitOn_cons_other, IH by assumption. reflexivity.
Qed.

Lemma consHead_app x a b :
  a <> [] -> consHead x (a ++ b) = consHead x a ++ b.
Proof. destruct a; [contradiction|reflexivity]. Qed.

Lemma splitOn_app c a b :
  splitOn c (a ++ c :: b) = splitOn c a ++ splitOn c b.
Proof.
  induction a as [|x a IH]; cbn [app].
  - cbn [splitOn]. now rewrite N.eqb_refl.
  - destruct (N.eqb_spec x c) as [->|Hne].
    + cbn [splitOn]. rewrite N.eqb_refl, IH. reflexivity.
    + rewrite !splitOn_cons_other, IH by assumption.
      apply consHead_app, splitOn_nonempty.
Qed.

Lemma join_cons sep p ps :
  ps <> [] -> join sep (p :: ps) = p ++ sep ++ join sep ps.
Proof. destruct ps; [contradiction|reflexivity]. Qed.

Lemma join_snoc sep ps x :
  ps <> [] -> join sep (ps ++ [x]) = join sep ps ++ sep ++ x.
Proof.
  induction ps as [|p ps IH]; [contradiction|]. intros _.
  destruct ps as [|q ps]; [reflexivity|].
  change ((p :: q :: ps) ++ [x]) with (p :: ((q :: ps) ++ [x])).
  rewrite join_cons by (cbn; discriminate).
  rewrite IH by discriminate. rewrite (join_cons sep p (q :: ps)) by discriminate.
  now rewrite <- !app_assoc.
Qed.

Lemma join_splitOn c s : join [c] (splitOn c s) = s.
Proof.
  induction s as [|x s IH]; [reflexivity|].
  destruct (N.eqb_spec x c) as [->|Hne].
  - cbn [splitOn]. rewrite N.eqb_refl.
    rewrite join_cons by apply splitOn_nonempty. now rewrite IH.
  - rewrite splitOn_cons_other by assumption.
    pose proof (splitOn_nonempty c s) as Hn.
    destruct (splitOn c s) as [|p [|q ps]]; [contradiction| |];
      cbn [consHead]; cbn in IH |- *; now rewrite <- IH.
Qed.

Lemma join_length_LF_CRLF ls :
  (2 <= List.length ls)%nat -> join [LF] ls <> join [CR; LF] ls.
Proof.
  intros H E. apply (f_equal (@List.length N)) in E. revert H E.
  assert (Hlen : forall l, l <> [] ->
            (List.length (join [LF] l) < List.length (join [CR; LF] l)
             \/ (List.length l = 1%nat
                 /\ List.length (join [LF] l) = List.length (join [CR; LF] l)))%nat).
  { induction l as [|p l IH]; [contradiction|]. intros _.
    destruct l as [|q l]; [right; auto|]. left.
    rewrite !(join_cons _ p (q :: l)) by discriminate.
    rewrite !length_app. cbn [List.length].
    destruct IH as [IH|[_ IH]]; [discriminate| |]; lia. }
  intros H E. destruct (Hlen ls) as [Hl|[Hl _]]; [|lia|lia].
  intros ->. cbn in H. lia.
Qed.

Lemma splitLines_noLF s : Forall noLF (splitLines s).
Proof.
  induction s as [| a | a b r IH0 IH1] using list_ind2.
  - repeat constructor.
  - cbn [splitLines]. destruct (N.eqb_spec a LF); repeat constructor; assumption.
  - cbn [splitLines] in *. destruct (N.eqb_spec a LF) as [->|Ha].
    + constructor; [constructor|]. exact IH1.
    + destruct ((a =? CR) && (b =? LF)).
      * constructor; [constructor|exact IH0].
      * revert IH1. destruct (b =? LF).
        -- intros IH1. apply Forall_cons_iff in IH1 as [_ IH1].
           constructor; [repeat constructor; assumption|exact IH1].
        -- destruct r as [|c r'].
           ++ intros IH1. cbn [consHead]. apply Forall_cons_iff in IH1 as [H1 _].
              constructor; [constructor; assumption|constructor].
           ++ destruct ((b =? CR) && (c =? LF)).
              ** intros IH1. cbn [consHead]. apply Forall_cons_iff in IH1 as [_ IH1].
                 constructor; [repeat constructor; assumption|exact IH1].
              ** destruct (consHead b (splitLines (c :: r'))) as [|p ps];
                   intros IH1; cbn [consHead].
                 --- repeat constructor; assumption.
                 --- apply Forall_cons_iff in IH1 as [H1 H2].
                     constructor; [constructor; assumption|exact H2].
Qed.

Lemma splitLines_line l :
  noLF l -> splitLines l = [l].
Proof.
  induction 1 as [|c l Hc Hl IH]; [reflexivity|].
  cbn [splitLines]. destruct (N.eqb_spec c LF); [contradiction|].
  destruct l as [|d l]; [reflexivity|].
  apply Forall_cons_iff in Hl as [Hd _].
  destruct (N.eqb_spec d LF); [contradiction|]. rewrite andb_false_r.
  now rewrite IH.
Qed.

Lemma splitLines_CRLF l rest :
  noLF l -> splitLines (l ++ [CR; LF] ++ rest) = l :: splitLines rest.
Proof.
  induction 1 as [|c l Hc Hl IH].
  - reflexivity.
  - cbn [app] in *. cbn [splitLines].
    destruct (N.eqb_spec c LF); [contradiction|].
    destruct l as [|d l].
    + cbn [app] in *. change (CR =? LF) with false. rewrite andb_false_r.
      now rewrite IH.
    + cbn [app] in *. apply Forall_cons_iff in Hl as [Hd _].
      destruct (N.eqb_spec d LF); [contradiction|]. rewrite andb_false_r.
      now rewrite IH.
Qed.

Lemma splitLines_join_CRLF ls :
  ls <> [] -> Forall noLF ls -> splitLines (join [CR; LF] ls) = ls.
Proof.
  induction ls as [|l ls IH]; [contradiction|]. intros _ H.
  apply Forall_cons_iff in H as [Hl H].
  destruct ls as [|l' ls]; [now apply splitLines_line|].
  rewrite join_cons by discriminate.
  rewrite splitLines_CRLF by assumption. rewrite IH; auto. discriminate.
Qed.

Lemma splitOn_join_LF ls :
  ls <> [] -> Forall noLF ls -> splitOn LF (join [LF] ls) = ls.
Proof.
  induction ls as [|l ls IH]; [contradiction|]. intros _ H.
  apply Forall_cons_iff in H as [Hl H].
  destruct ls as [|l' ls]; [now apply splitOn_none|].
  rewrite join_cons by discriminate. cbn [app].
  rewrite splitOn_app, splitOn_none by assumption.
  rewrite IH; auto. discriminate.
Qed.

Lemma splitLines_nonempty s : splitLines s <> [].
Proof.
  destruct s as [|c s]; cbn [splitLines]; [discriminate|].
  destruct (c =? LF); [discriminate|].
  destruct s as [|d s]; [discriminate|].
  destruct ((c =? CR) && (d =? LF)); [discriminate|].
  destruct (splitLines (d :: s)); discriminate.
Qed.

(** *** The loop over the lines *)

Lemma rewriteLines_cons state line rest out :
  rewriteLines state (line :: rest) = Return out ->
  exists line' state' out',
    rewriteLine state line = Return (line', state')
    /\ rewriteLines state' rest = Return out'
    /\ out = line' :: out'.
Proof.
  cbn [rewriteLines]. destruct (rewriteLine state line) as [[line' state']|];
    [|discriminate].
  cbn [bind fst snd]. destruct (rewriteLines state' rest) as [out'|] eqn:E;
    [|discriminate].
  cbn [bind]. intros [= <-]. exists line', state', out'. auto.
Qed.

Lemma rewriteLines_length lines : forall state out,
  rewriteLines state lines = Return out -> List.length out = List.length lines.
Proof.
  induction lines as [|line lines IH]; intros state out H.
  - injection H as <-. reflexivity.
  - apply rewriteLines_cons in H as (line' & state' & out' & _ & H & ->).
    cbn [List.length]. f_equal. eauto.
Qed.

(** A line the loop does not handle keeps its text and its place. *)
Lemma rewriteLines_unhandled lines : forall state out i line,
  rewriteLines state lines = Return out ->
  nth_error lines i = Some line -> handled line = false ->
  nth_error out i = Some line.
Proof.
  induction lines as [|l lines IH]; intros state out i line H Hn Hh;
    [now destruct i|].
  apply rewriteLines_cons in H as (line' & state' & out' & E & H & ->).
  destruct i as [|i]; cbn [nth_error] in *.
  - injection Hn as ->. rewrite rewriteLine_unhandled in E by assumption.
    now injection E as <- _.
  - eauto.
Qed.

Lemma rewriteLines_all_unhandled lines : forall state,
  forallb (fun line => negb (handled line)) lines = true ->
  rewriteLines state lines = Return lines.
Proof.
  induction lines as [|l lines IH]; intros state H; [reflexivity|].
  cbn [forallb] in H. apply andb_true_iff in H as [H1 H2].
  apply negb_true_iff in H1. cbn [rewriteLines].
  rewrite rewriteLine_unhandled by assumption. cbn [bind fst snd].
  now rewrite IH.
Qed.

Lemma noLF_check s :
  forallb (fun c => negb (c =? LF)) s = true -> Forall (fun c => c <> LF) s.
Proof.
  intros H. apply Forall_forall. intros c Hc.
  rewrite forallb_forall in H. specialize (H c Hc).
  apply negb_true_iff in H. now apply N.eqb_neq.
Qed.

Lemma admits_noLF : admits (fun c => c <> LF).
Proof.
  unfold admits.
  split; [discriminate|]. split; [discriminate|]. split; [discriminate|].
  split; [now apply noLF_check|]. split; [now apply noLF_check|].
  split; [now apply noLF_check|]. split; [now apply noLF_check|].
  split; [now apply noLF_check|].
  split; [now intros c [H _]|]. unfold LF. intros c H. lia.
Qed.

Lemma rewritten_attrsIn (P : N -> Prop) kv payload tag :
  admits P -> attrsIn P kv -> Forall P payload -> Forall P tag ->
  attrsIn P (rewritten kv payload tag).
Proof.
  intros (Hc & _ & _ & H1 & H2 & _ & H3 & _) Hkv Hp Ht. unfold rewritten.
  apply attrsIn_set; [|exact H2|exact Ht].
  apply attrsIn_set; [exact Hkv|exact H1|]. cbn [value].
  apply join_Forall; [repeat constructor; assumption|].
  apply Forall_app. split.
  - unfold characteristicsOf.
    destruct (obj_get kv (lit "CHARACTERISTICS")) as [a|] eqn:E; [|constructor].
    apply splitOn_Forall. exact (attrsIn_get _ _ _ _ Hkv E).
  - constructor; [|constructor]. apply Forall_app. split; [exact H3|exact Hp].
Qed.

Lemma langOf_Forall (P : N -> Prop) kv :
  admits P -> attrsIn P kv -> Forall P (langOf kv).
Proof.
  intros (_ & _ & _ & _ & _ & H & _) Hkv. unfold langOf, attrOr.
  destruct (obj_get kv (lit "LANGUAGE")) as [a|] eqn:E; [|exact H].
  exact (attrsIn_get _ _ _ _ Hkv E).
Qed.

(** What [rewriteLine] returns for a handled line. *)
Lemma rewriteLine_inv state line line' state' :
  handled line = true ->
  rewriteLine state line = Return (line', state') ->
  exists payload tag,
    encodeObject (collectObject (parseAttrs (slice 13 line))) = Return payload
    /\ langTag state (parseAttrs (slice 13 line)) = Return (tag, state')
    /\ line' = PREFIX ++ serializeAttrs
                          (rewritten (parseAttrs (slice 13 line)) payload tag).
Proof.
  intros Hh. rewrite rewriteLine_handled, rewriteAttrs_eq by assumption.
  destruct (encodeObject _) as [payload|]; [|discriminate]. cbn [bind].
  destruct (langTag _ _) as [[tag st]|]; [|discriminate]. cbn [bind fst snd].
  intros [= <- <-]. exists payload, tag. auto.
Qed.

Lemma rewriteLine_Forall (P : N -> Prop) state line line' state' :
  admits P -> Forall P line ->
  rewriteLine state line = Return (line', state') -> Forall P line'.
Proof.
  intros HP Hl H. destruct (handled line) eqn:Hh.
  - apply rewriteLine_inv in H as (payload & tag & He & Ht & ->); [|assumption].
    pose proof (parseAttrs_attrsIn P _ (skipn_Forall P 13 _ Hl)) as Hkv.
    pose proof HP as (Hc & He1 & Hq & _ & _ & _ & _ & Hpre & Hpay & Hsuf).
    apply Forall_app. split; [exact Hpre|].
    apply serializeAttrs_Forall; auto.
    apply rewritten_attrsIn; auto.
    + apply encodeObject_payload in He. eapply Forall_impl; [|exact He]. auto.
    + apply langTag_tag in Ht as (suffix & -> & Hs).
      apply Forall_app. split; [now apply langOf_Forall|].
      eapply Forall_impl; [|exact Hs]. auto.
  - rewrite rewriteLine_unhandled in H by assumption. now injection H as <- _.
Qed.

Lemma rewriteLines_Forall (P : N -> Prop) lines : forall state out,
  admits P -> Forall (Forall P) lines ->
  rewriteLines state lines = Return out -> Forall (Forall P) out.
Proof.
  induction lines as [|l lines IH]; intros state out HP Hl H.
  - injection H as <-. constructor.
  - apply rewriteLines_cons in H as (line' & state' & out' & E & H & ->).
    apply Forall_cons_iff in Hl as [Hl Hls].
    constructor; [eapply rewriteLine_Forall; eauto|eauto].
Qed.

(** *** The rewritten document *)

Lemma lineKeys_cons line lines :
  lineKeys (line :: lines) = lineKeys [line] ++ lineKeys lines.
Proof. unfold lineKeys. cbn [flat_map]. now rewrite app_nil_r. Qed.

Lemma payloadOf_spec kv :
  attrsIn code_unit kv ->
  encodeObject (collectObject kv) = Return (payloadOf kv)
  /\ decodeObject (payloadOf kv) = Return (jsonOf (collectObject kv)).
Proof.
  intros H. pose proof (collectObject_wf kv H) as Hwf.
  destruct (uri_roundtrip _ (JSON_stringify_paired _ Hwf)) as (e & He & Hb & Hd).
  assert (E : encodeObject (collectObject kv) = Return (b64encode (unescape e))).
  { unfold encodeObject. rewrite He. cbn [bind]. now apply btoa_bytes. }
  unfold payloadOf. rewrite E. split; [reflexivity|].
  unfold decodeObject. rewrite atob_b64encode by assumption. cbn [bind].
  rewrite Hd. cbn [bind]. now apply JSON_parse_stringify.
Qed.

Lemma rewriteLine_spec state seen line :
  counts state seen -> wf_string line ->
  (forall key, (occurrences key (seen ++ lineKeys [line]) <= 27)%nat) ->
  exists state',
    rewriteLine state line = Return (expectedLine seen line, state')
    /\ counts state' (seen ++ lineKeys [line]).
Proof.
  intros Hc Hwf Hb. unfold expectedLine, lineKeys in *. cbn [flat_map] in *.
  destruct (handled line) eqn:Hh.
  - set (kv := parseAttrs (slice 13 line)) in *. cbn [app] in *.
    assert (Hkv : attrsIn code_unit kv)
      by (apply parseAttrs_attrsIn, skipn_Forall, Hwf).
    destruct (payloadOf_spec kv Hkv) as [He _].
    assert (Hj : (occurrences (langKey kv) seen <= 26)%nat).
    { specialize (Hb (langKey kv)). rewrite occurrences_app, occurrences_one in Hb.
      rewrite str_eqb_refl in Hb. lia. }
    destruct (langTag_spec state seen kv Hc Hj) as (state' & Ht & Hc').
    exists state'. split; [|exact Hc'].
    rewrite rewriteLine_handled, rewriteAttrs_eq by assumption.
    fold kv. now rewrite He, Ht.
  - exists state. rewrite rewriteLine_unhandled by assumption.
    cbn [app]. now rewrite app_nil_r.
Qed.

(** The loop returns when no key is handled more than 27 times. *)
Lemma rewriteLines_spec lines : forall state seen,
  counts state seen -> Forall wf_string lines ->
  (forall key, (occurrences key (seen ++ lineKeys lines) <= 27)%nat) ->
  rewriteLines state lines = Return (expectedLines seen lines).
Proof.
  induction lines as [|line lines IH]; intros state seen Hc Hwf Hb; [reflexivity|].
  apply Forall_cons_iff in Hwf as [Hl Hwf].
  rewrite lineKeys_cons in Hb.
  destruct (rewriteLine_spec state seen line Hc Hl) as (state' & E & Hc').
  { intros key. specialize (Hb key). rewrite !occurrences_app in *. lia. }
  cbn [rewriteLines expectedLines]. rewrite E. cbn [bind fst snd].
  rewrite (IH state' (seen ++ lineKeys [line])); auto.
  intros key. rewrite <- app_assoc. apply Hb.
Qed.

(** The loop throws as soon as a key is handled for the 28th time. *)
Lemma rewriteLines_overflow lines : forall state seen,
  counts state seen -> Forall wf_string lines ->
  (forall key, (occurrences key seen <= 27)%nat) ->
  (exists key, (27 < occurrences key (seen ++ lineKeys lines))%nat) ->
  rewriteLines state lines = Throw ReferenceError.
Proof.
  induction lines as [|line lines IH]; intros state seen Hc Hwf Hb [key Hk].
  - cbn in Hk. rewrite app_nil_r in Hk. specialize (Hb key). lia.
  - apply Forall_cons_iff in Hwf as [Hl Hwf].
    rewrite lineKeys_cons, app_assoc in Hk.
    assert (Hstep : (forall key', (occurrences key' (seen ++ lineKeys [line]) <= 27)%nat)
                    \/ (handled line = true
                        /\ (26 < occurrences (langKey (parseAttrs (slice 13 line))) seen)%nat)).
    { unfold lineKeys. cbn [flat_map]. destruct (handled line).
      - cbn [app].
        destruct (le_lt_dec (occurrences (langKey (parseAttrs (slice 13 line))) seen) 26)
          as [Hle|Hgt]; [left|right; auto].
        intros key'. rewrite occurrences_app, occurrences_one.
        destruct (str_eqb_spec key' (langKey (parseAttrs (slice 13 line)))) as [->|_].
        + lia.
        + specialize (Hb key'). lia.
      - left. intros key'. cbn [app]. rewrite app_nil_r. apply Hb. }
    cbn [rewriteLines]. destruct Hstep as [Hok|[Hh Hgt]].
    + destruct (rewriteLine_spec state seen line Hc Hl Hok) as (state' & E & Hc').
      rewrite E. cbn [bind fst snd].
      rewrite (IH state' (seen ++ lineKeys [line])); eauto.
    + set (kv := parseAttrs (slice 13 line)) in *.
      assert (Hkv : attrsIn code_unit kv)
        by (apply parseAttrs_attrsIn, skipn_Forall, Hl).
      destruct (payloadOf_spec kv Hkv) as [He _].
      rewrite rewriteLine_handled, rewriteAttrs_eq by assumption. fold kv.
      rewrite He. cbn [bind]. now rewrite (langTag_overflow state seen kv Hc Hgt).
Qed.

Lemma expectedLines_nth lines : forall seen i line,
  nth_error lines i = Some line ->
  nth_error (expectedLines seen lines) i
  = Some (expectedLine (seen ++ lineKeys (firstn i lines)) line).
Proof.
  induction lines as [|l lines IH]; intros seen i line H; [now destruct i|].
  destruct i as [|i]; cbn [nth_error expectedLines firstn] in *.
  - injection H as <-. unfold lineKeys. cbn [flat_map]. now rewrite app_nil_r.
  - rewrite (IH _ _ _ H).
    now rewrite (lineKeys_cons l (firstn i lines)), app_assoc.
Qed.

Lemma splitLines_cons2 a b r :
  splitLines (a :: b :: r)
  = if a =? LF then [] :: splitLines (b :: r)
    else if (a =? CR) && (b =? LF) then [] :: splitLines r
         else consHead a (splitLines (b :: r)).
Proof. reflexivity. Qed.

Lemma consHead_Forall (P : N -> Prop) c parts :
  P c -> Forall (Forall P) parts -> Forall (Forall P) (consHead c parts).
Proof.
  intros Hc [|p ps Hp Hps]; cbn [consHead]; repeat constructor; assumption.
Qed.

Lemma splitLines_Forall (P : N -> Prop) s :
  Forall P s -> Forall (Forall P) (splitLines s).
Proof.
  induction s as [| a | a b r IH0 IH1] using list_ind2; intros H.
  - repeat constructor.
  - apply Forall_cons_iff in H as [Ha _]. cbn [splitLines].
    destruct (a =? LF); repeat constructor. exact Ha.
  - apply Forall_cons_iff in H as [Ha H]. specialize (IH1 H).
    apply Forall_cons_iff in H as [Hb H]. specialize (IH0 H).
    rewrite splitLines_cons2.
    destruct (a =? LF); [constructor; [constructor|exact IH1]|].
    destruct ((a =? CR) && (b =? LF)); [constructor; [constructor|exact IH0]|].
    now apply consHead_Forall.
Qed.

Lemma wf_splitLines m : wf_string m -> Forall wf_string (splitLines m).
Proof. apply splitLines_Forall. Qed.

Lemma wf_string_check s :
  forallb (fun c => c <? 65536) s = true -> wf_string s.
Proof.
  intros Hf. apply Forall_forall. intros c Hc.
  rewrite forallb_forall in Hf. apply N.ltb_lt, Hf, Hc.
Qed.

(* ================================================================= *)
(** * The properties of the specification *)

(** ** C1: the side channel round trip *)

(** C1.  For every object whose property values (and names) are strings
    of UTF-16 code units - ASCII or not - [encodeObject] returns a
    payload, and [decodeObject] of that payload returns an object with
    the same properties, in the same order, with the same string values:
    decodeObject(encodeObject(obj)) equals obj. *)
Theorem decodeObject_encodeObject (obj : jsobj jsstring) :
  wf_object obj ->
  exists payload,
    encodeObject obj = Return payload
    /\ decodeObject payload = Return (jsonOf obj).
Proof.
  intros Hwf.
  destruct (uri_roundtrip _ (JSON_stringify_paired obj Hwf)) as (e & He & Hb & Hd).
  exists (b64encode (unescape e)). unfold encodeObject, decodeObject.
  rewrite He. cbn [bind]. rewrite btoa_bytes by assumption. split; [reflexivity|].
  rewrite atob_b64encode by assumption. cbn [bind]. rewrite Hd. cbn [bind].
  now apply JSON_parse_stringify.
Qed.

Lemma sampleObject_wf : wf_object sampleObject.
Proof.
  unfold wf_object, sampleObject, wf_string, code_unit.
  repeat constructor.
Qed.

Lemma decodeObject_encodeObject_witness :
  wf_object sampleObject
  /\ exists payload,
       encodeObject sampleObject = Return payload
       /\ decodeObject payload = Return (jsonOf sampleObject).
Proof.
  split; [exact sampleObject_wf|].
  exact (decodeObject_encodeObject sampleObject sampleObject_wf).
Defined.

(** ** C3: the twenty-eighth occurrence of a key *)

(** C3 (the code departs from the specification).  When some key is
    handled more than 27 times - one occurrence more than the suffixes
    XA to XZ serve - [langTag] does not return a degraded tag: line 126
    reads the undeclared variable [tagseq], and the ReferenceError ends
    [manifestRewriter] without a result. *)
Theorem manifestRewriter_overflow_throws (m : jsstring) :
  wf_string m ->
  (exists key, (27 < occurrences key (lineKeys (splitLines m)))%nat) ->
  manifestRewriter m = Throw ReferenceError.
Proof.
  intros Hwf Hk. unfold manifestRewriter.
  rewrite (rewriteLines_overflow (splitLines m) [] []); auto.
  - apply counts_nil.
  - now apply wf_splitLines.
  - intros key. cbn. lia.
Qed.

(** A manifest of 27 equal audio lines is rewritten, one of 28 is not. *)
Lemma manifestRewriter_overflow_throws_witness :
  let m := join [LF] (repeat (lit "#EXT-X-MEDIA:TYPE=AUDIO") 28) in
  wf_string m
  /\ (27 < occurrences (lit "gid.und") (lineKeys (splitLines m)))%nat
  /\ manifestRewriter m = Throw ReferenceError
  /\ (exists out,
        manifestRewriter (join [LF] (repeat (lit "#EXT-X-MEDIA:TYPE=AUDIO") 27))
        = Return out)
  /\ langTag [(lit "gid.und", 27)] [] = Throw ReferenceError.
Proof.
  intros m.
  assert (H1 : wf_string m) by (apply wf_string_check; vm_compute; reflexivity).
  assert (H2 : (27 < occurrences (lit "gid.und") (lineKeys (splitLines m)))%nat)
    by (vm_compute; lia).
  split; [exact H1|]. split; [exact H2|].
  split; [exact (manifestRewriter_overflow_throws m H1
                    (ex_intro (fun key => (27 < occurrences key (lineKeys (splitLines m)))%nat)
                              (lit "gid.und") H2))|].
  split; [eexists; vm_compute; reflexivity|vm_compute; reflexivity].
Defined.

(** ** C9 and C6: the track updater *)

(** C9.  A track whose roles hold no entry that starts with the marker
    is returned as it is, every field unchanged, and so is the message:
    applying the updater once or twice changes nothing. *)
Theorem tracksUpdater_no_marker (ts : list track) :
  forallb (fun t => negb (hasMarker t)) ts = true ->
  (forall t, In t ts ->
     doTrackUpdate t = Return t
     /\ (t1 <- doTrackUpdate t ;; doTrackUpdate t1) = Return t)
  /\ tracksUpdater (statusMessage ts) = statusMessage ts
  /\ tracksUpdater (tracksUpdater (statusMessage ts)) = statusMessage ts.
Proof.
  intros H. split.
  - intros t Ht. rewrite forallb_forall in H. specialize (H t Ht).
    apply negb_true_iff in H.
    rewrite (doTrackUpdate_no_marker t H). cbn [bind].
    rewrite (doTrackUpdate_no_marker t H). auto.
  - assert (E : tracksUpdater (statusMessage ts) = statusMessage ts).
    { unfold tracksUpdater, statusMessage. cbn [media tracks].
      now rewrite doTracksUpdate_no_marker. }
    now rewrite !E.
Qed.

Lemma tracksUpdater_no_marker_witness :
  let ts := [sampleTrack "en" [lit "public.accessibility.describes-video";
                               lit "forced_subtitle"];
             {| language := JNull; name := JUndefined; forced := JUndefined;
                channelCount := JUndefined; roles := None; others := [] |}] in
  forallb (fun t => negb (hasMarker t)) ts = true
  /\ tracksUpdater (tracksUpdater (statusMessage ts)) = statusMessage ts.
Proof.
  intros ts. split; [reflexivity|].
  apply (tracksUpdater_no_marker ts). reflexivity.
Defined.

(** A track with a single marker entry has none left after its update,
    so the update that follows is the one of C9. *)
Lemma findMarker_bound rs : forall k i,
  findMarker rs k = Some i -> (k <= i < k + List.length rs)%nat.
Proof.
  induction rs as [|r rs IH]; intros k i H; cbn [findMarker] in H; [discriminate|].
  cbn [List.length]. destruct (startsWith MARKER r).
  - injection H as <-. lia.
  - apply IH in H. lia.
Qed.

Lemma doTrackUpdate_clears_marker t t' i rs :
  roles t = Some rs -> findMarker rs 0 = Some i ->
  existsb (startsWith MARKER) (splice1 i rs) = false ->
  doTrackUpdate t = Return t' -> hasMarker t' = false.
Proof.
  intros Hr Hi Hone. unfold doTrackUpdate. rewrite Hr, Hi.
  destruct (decodeObject _) as [obj|]; [|discriminate]. cbn [bind].
  destruct (updateLanguage obj t) as [t1|]; [|discriminate]. cbn [bind].
  destruct (getProp obj (lit "NAME")) as [n|]; [|discriminate]. cbn [bind].
  destruct (getProp obj (lit "FORCED")) as [f|]; [|discriminate]. cbn [bind].
  destruct (getProp obj (lit "CHANNELS")) as [c|]; [|discriminate]. cbn [bind].
  intros [= <-]. unfold hasMarker. cbn [roles].
  assert (Hs : existsb (startsWith MARKER)
                 (splice1 i (if toBoolean f then rs ++ [lit "forced_subtitle"] else rs))
               = false).
  { destruct (toBoolean f); [|exact Hone].
    apply findMarker_bound in Hi. unfold splice1 in *.
    rewrite firstn_app, skipn_app.
    replace (i - List.length rs)%nat with 0%nat by lia.
    replace (S i - List.length rs)%nat with 0%nat by lia.
    rewrite firstn_O, skipn_O, app_nil_r, app_assoc, existsb_app, Hone.
    reflexivity. }
  destruct (splice1 i (if toBoolean f then rs ++ [lit "forced_subtitle"] else rs));
    [reflexivity|exact Hs].
Qed.




(** ** C4: the tags of a sequence of calls *)

Lemma occurrences_before keys i key :
  nth_error keys i = Some key ->
  (occurrences key (firstn i keys) < occurrences key keys)%nat.
Proof.
  intros H. apply nth_error_split in H as (l1 & l2 & -> & <-).
  rewrite firstn_app, firstn_all, Nat.sub_diag, firstn_O, app_nil_r.
  rewrite occurrences_app. unfold occurrences at 3. cbn [filter].
  rewrite str_eqb_refl. cbn [List.length]. lia.
Qed.

(** C4, with the key the code uses.  The counter of [langTag] is keyed
    by the string [groupId.language] ([langKey]).  From a fresh state,
    in a sequence of calls where no key occurs more than 27 times, every
    call returns: the first call with a key returns the language
    unchanged, the call that follows [j] earlier calls with the same key
    (j from 1 to 26) returns the language followed by [-X] and the
    j-th capital letter, and this differs from what every earlier call
    with that key returned.  The manifest with two audio renditions
    g/en and one g/de is rewritten to en, en-XA and de. *)
Theorem langTags_by_key (kvs : list AttributeSet) :
  (forall key, (occurrences key (map langKey kvs) <= 27)%nat) ->
  (exists outs,
     langTags [] kvs = Return outs
     /\ List.length outs = List.length kvs
     /\ forall i kv,
          nth_error kvs i = Some kv ->
          let j := occurrences (langKey kv) (map langKey (firstn i kvs)) in
          (j <= 26)%nat
          /\ (j = 0%nat -> nth_error outs i = Some (langOf kv))
          /\ ((0 < j)%nat ->
              nth_error outs i = Some (langOf kv ++ lit "-X" ++ [64 + N.of_nat j])
              /\ 65 <= 64 + N.of_nat j <= 90)
          /\ forall i' kv',
               (i' < i)%nat -> nth_error kvs i' = Some kv' ->
               langKey kv' = langKey kv ->
               nth_error outs i' <> nth_error outs i)
  /\ manifestRewriter exampleManifest = Return exampleRewritten.
Proof.
  intros Hb. split; [|vm_compute; reflexivity].
  exists (tagsFrom [] kvs). split; [now apply langTags_spec; [apply counts_nil|]|].
  split; [apply tagsFrom_length|].
  intros i kv Hi j.
  assert (Hj : (j < occurrences (langKey kv) (map langKey kvs))%nat).
  { subst j. rewrite <- firstn_map. apply occurrences_before.
    now rewrite nth_error_map, Hi. }
  pose proof (Hb (langKey kv)) as Hk.
  pose proof (tagsFrom_nth kvs [] i kv Hi) as Hn. cbn [app] in Hn. fold j in Hn.
  split; [lia|]. split; [|split].
  - intros E. now rewrite Hn, E.
  - intros Hpos. rewrite Hn. destruct j as [|n]; [lia|]. cbn [tagFor].
    split; [reflexivity|lia].
  - intros i' kv' Hlt Hi' Hkey.
    rewrite Hn, (tagsFrom_nth kvs [] i' kv' Hi'). cbn [app].
    intros [= E]. revert E. apply tagFor_distinct; [exact Hkey| |lia].
    rewrite Hkey. fold j.
    apply (occurrences_firstn_lt (map langKey kvs) i i' (langKey kv)) in Hlt.
    + subst j. rewrite !firstn_map in Hlt. exact Hlt.
    + rewrite nth_error_map, Hi'. cbn. now rewrite Hkey.
Qed.

Lemma langTags_by_key_witness :
  let kvs := [attrs "g" "en"; attrs "g" "en"; attrs "g" "de"; attrs "g" "en"] in
  (forall key, (occurrences key (map langKey kvs) <= 27)%nat)
  /\ langTags [] kvs = Return [lit "en"; lit "en-XA"; lit "de"; lit "en-XB"]
  /\ manifestRewriter exampleManifest = Return exampleRewritten.
Proof.
  intros kvs.
  assert (Hb : forall key, (occurrences key (map langKey kvs) <= 27)%nat).
  { intros key. unfold occurrences.
    etransitivity; [apply filter_length_le|]. vm_compute. lia. }
  split; [exact Hb|].
  destruct (langTags_by_key kvs Hb) as [_ Hm].
  split; [vm_compute; reflexivity|exact Hm].
Defined.

(** C4 as stated fails for pairs that share a key: the group [a] with
    the language [b.c] and the group [a.b] with the language [c] are
    different pairs with the key [a.b.c], and the first call for the
    second pair returns its language with a suffix. *)
Lemma langTag_pairs_share_key :
  let kv1 := attrs "a" "b.c" in
  let kv2 := attrs "a.b" "c" in
  (attrOr kv1 (lit "GROUP-ID") (lit "gid"), langOf kv1)
  <> (attrOr kv2 (lit "GROUP-ID") (lit "gid"), langOf kv2)
  /\ langKey kv1 = langKey kv2
  /\ langTags [] [kv1; kv2] = Return [lit "b.c"; lit "c-XA"]
  /\ lit "c-XA" <> langOf kv2.
Proof.
  cbv zeta. split; [vm_compute; discriminate|].
  split; [vm_compute; reflexivity|]. split; [vm_compute; reflexivity|].
  vm_compute. discriminate.
Qed.

(** ** C5: parsing and serializing a line *)

(** C5, for lines without repeated keys.  A line made of well-formed
    attributes ([wf_attr]) joined by commas, whose keys are pairwise
    distinct and are neither array indices nor [__proto__], is parsed
    into exactly these attributes, in their order, and serializing them
    gives the line back character by character. *)
Theorem serializeAttrs_parseAttrs (es : list (jsstring * attr)) :
  Forall wf_attr es ->
  NoDup (map fst es) ->
  Forall plainKey (map fst es) ->
  parseAttrs (serializeAttrs es) = es
  /\ serializeAttrs (parseAttrs (serializeAttrs es)) = serializeAttrs es.
Proof.
  intros Hwf Hnd Hpl.
  assert (E : parseAttrs (serializeAttrs es) = es).
  { unfold parseAttrs. now rewrite parseLoop_serialize. }
  now rewrite E.
Qed.

Lemma wf_attr_check e :
  (match fst e with [] => false | _ :: _ => true end)
  && forallb isKeyChar (fst e)
  && forallb isDot (snd e).(value)
  && (if (snd e).(quoted) then forallb notQuote (snd e).(value)
      else forallb notComma (snd e).(value)
           && negb (headIs DQUOTE (snd e).(value))) = true ->
  wf_attr e.
Proof.
  destruct e as [k a]. cbn [fst snd].
  intros H. apply andb_true_iff in H as [H H4].
  apply andb_true_iff in H as [H H3]. apply andb_true_iff in H as [H1 H2].
  unfold wf_attr, wf_key. cbn [fst snd]. repeat split.
  - intros ->. discriminate H1.
  - exact H2.
  - apply Forall_forall. intros c Hc. rewrite forallb_forall in H3.
    specialize (H3 c Hc). unfold isDot in H3. now apply negb_true_iff in H3.
  - destruct (quoted a); [exact H4|].
    apply andb_true_iff in H4 as [H5 H6]. apply negb_true_iff in H6. now split.
Qed.

Lemma sampleAttrs_wf : Forall wf_attr sampleAttrs.
Proof. repeat constructor; apply wf_attr_check; reflexivity. Qed.

Lemma sampleAttrs_keys :
  NoDup (map fst sampleAttrs) /\ Forall plainKey (map fst sampleAttrs).
Proof.
  split.
  - repeat constructor; cbn; intuition discriminate.
  - repeat constructor; (discriminate || reflexivity).
Qed.

Lemma serializeAttrs_parseAttrs_witness :
  Forall wf_attr sampleAttrs
  /\ NoDup (map fst sampleAttrs)
  /\ Forall plainKey (map fst sampleAttrs)
  /\ serializeAttrs (parseAttrs (serializeAttrs sampleAttrs))
     = serializeAttrs sampleAttrs.
Proof.
  split; [exact sampleAttrs_wf|]. split; [exact (proj1 sampleAttrs_keys)|].
  split; [exact (proj2 sampleAttrs_keys)|].
  exact (proj2 (serializeAttrs_parseAttrs sampleAttrs sampleAttrs_wf
                  (proj1 sampleAttrs_keys) (proj2 sampleAttrs_keys))).
Defined.

(** C5 as stated fails on a well-formed line that repeats a key: of
    [A=1,A=2] only [A=2] is left. *)
Lemma serializeAttrs_parseAttrs_repeated_key :
  let es := [(lit "A", {| value := lit "1"; quoted := false |});
             (lit "A", {| value := lit "2"; quoted := false |})] in
  Forall wf_attr es
  /\ serializeAttrs es = lit "A=1,A=2"
  /\ serializeAttrs (parseAttrs (serializeAttrs es)) = lit "A=2"
  /\ serializeAttrs (parseAttrs (serializeAttrs es)) <> serializeAttrs es.
Proof.
  cbv zeta. split; [repeat constructor; apply wf_attr_check; reflexivity|].
  split; [reflexivity|]. split; [vm_compute; reflexivity|].
  vm_compute. discriminate.
Qed.

(** ** C7 and C10: the lines of the output *)

(** The output is the rewritten lines joined by line feeds, and
    splitting it at the line feeds gives these lines back. *)
Lemma manifestRewriter_inv m out :
  manifestRewriter m = Return out ->
  exists ls,
    rewriteLines [] (splitLines m) = Return ls
    /\ out = join [LF] ls
    /\ List.length ls = List.length (splitLines m)
    /\ Forall noLF ls
    /\ splitOn LF out = ls.
Proof.
  unfold manifestRewriter.
  destruct (rewriteLines [] (splitLines m)) as [ls|] eqn:E; [|discriminate].
  cbn [bind]. intros [= <-]. exists ls.
  pose proof (rewriteLines_length _ _ _ E) as Hlen.
  assert (Hn : Forall noLF ls).
  { apply (rewriteLines_Forall (fun c => c <> LF) _ _ _ admits_noLF
             (splitLines_noLF m) E). }
  repeat split; auto.
  apply splitOn_join_LF; [|exact Hn].
  intros ->. pose proof (splitLines_nonempty m).
  destruct (splitLines m); [contradiction|discriminate].
Qed.

(** C7.  In the text [manifestRewriter] returns, every line that does
    not start with [#EXT-X-MEDIA:] and every rendition line whose [TYPE]
    is neither [SUBTITLES] nor [AUDIO] stands unchanged at the position
    it had in the input; the output has as many lines as the input. *)
Theorem manifestRewriter_passthrough (m out : jsstring) :
  manifestRewriter m = Return out ->
  List.length (splitOn LF out) = List.length (splitLines m)
  /\ forall i line,
       nth_error (splitLines m) i = Some line ->
       startsWith PREFIX line = false
       \/ handledType (parseAttrs (slice 13 line)) = false ->
       nth_error (splitOn LF out) i = Some line.
Proof.
  intros H. apply manifestRewriter_inv in H as (ls & E & _ & Hlen & _ & ->).
  split; [exact Hlen|]. intros i line Hi Hu.
  apply (rewriteLines_unhandled _ _ _ _ _ E Hi).
  unfold handled. destruct Hu as [-> | ->]; [reflexivity|apply andb_false_r].
Qed.

Lemma manifestRewriter_passthrough_witness :
  exists out,
    manifestRewriter mixedManifest = Return out
    /\ nth_error (splitOn LF out) 2 = Some (mediaLine "VIDEO" "g" "en")
    /\ nth_error (splitOn LF out) 3 = Some (lit "media.1.m3u8").
Proof.
  eexists. split; [vm_compute; reflexivity|].
  match goal with
  | |- nth_error (splitOn LF ?out) _ = _ /\ _ =>
      assert (H : manifestRewriter mixedManifest = Return out)
        by (vm_compute; reflexivity);
      destruct (manifestRewriter_passthrough mixedManifest out H) as [_ Hp]
  end.
  split.
  - apply Hp; [reflexivity|right; reflexivity].
  - apply Hp; [reflexivity|left; reflexivity].
Defined.

(** C10.  The text [manifestRewriter] returns is the lines it wrote
    joined by single line feeds, and none of these lines holds a line
    feed.  For lines joined by carriage return and line feed, the
    rewriter splits at each pair and joins what it writes with line
    feeds; when no line is handled, the output is the input lines joined
    by line feeds, which differs from the input as soon as there are two
    lines. *)
Theorem manifestRewriter_line_feeds (m : jsstring) (ls : list jsstring) :
  ls <> [] -> Forall noLF ls ->
  (forall text,
     manifestRewriter m = Return text ->
     exists out,
       rewriteLines [] (splitLines m) = Return out
       /\ text = join [LF] out /\ splitOn LF text = out
       /\ List.length out = List.length (splitLines m) /\ Forall noLF out)
  /\ splitLines (join [CR; LF] ls) = ls
  /\ manifestRewriter (join [CR; LF] ls)
     = (out <- rewriteLines [] ls ;; Return (join [LF] out))
  /\ (forallb (fun line => negb (handled line)) ls = true ->
      manifestRewriter (join [CR; LF] ls) = Return (join [LF] ls)
      /\ ((2 <= List.length ls)%nat -> join [LF] ls <> join [CR; LF] ls)).
Proof.
  intros Hne Hls.
  assert (Hs : splitLines (join [CR; LF] ls) = ls) by now apply splitLines_join_CRLF.
  split.
  { intros text H. apply manifestRewriter_inv in H as (out & E & Ht & Hlen & Hn & Hsp).
    exists out. auto. }
  split; [exact Hs|].
  split; [unfold manifestRewriter; now rewrite Hs|].
  intros Hu. split; [|apply join_length_LF_CRLF].
  unfold manifestRewriter. rewrite Hs.
  now rewrite rewriteLines_all_unhandled.
Qed.

Lemma manifestRewriter_line_feeds_witness :
  let ls := [lit "#EXTM3U"; lit "#EXT-X-VERSION:6"; lit "media.1.m3u8"] in
  ls <> [] /\ Forall noLF ls
  /\ manifestRewriter (join [CR; LF] ls) = Return (join [LF] ls)
  /\ join [LF] ls <> join [CR; LF] ls.
Proof.
  intros ls.
  assert (H1 : ls <> []) by discriminate.
  assert (H2 : Forall noLF ls)
    by (repeat (constructor; [apply noLF_check; reflexivity|]); constructor).
  split; [exact H1|]. split; [exact H2|].
  destruct (manifestRewriter_line_feeds exampleManifest ls H1 H2) as (_ & _ & _ & H).
  destruct (H eq_refl) as [H3 H4].
  split; [exact H3|]. apply H4. cbn. lia.
Defined.

(** ** C2: the rewritten lines *)

Lemma rewriteLines_nth lines : forall state out i line,
  rewriteLines state lines = Return out ->
  nth_error lines i = Some line ->
  exists st line' st',
    rewriteLine st line = Return (line', st') /\ nth_error out i = Some line'.
Proof.
  induction lines as [|l lines IH]; intros state out i line H Hn;
    [now destruct i|].
  apply rewriteLines_cons in H as (line' & state' & out' & E & H & ->).
  destruct i as [|i]; cbn [nth_error] in *.
  - injection Hn as ->. eauto.
  - eauto.
Qed.

Lemma characteristics_split kv tok :
  Forall (fun c => c <> COMMA) tok ->
  splitOn COMMA (join [COMMA] (characteristicsOf kv ++ [tok]))
  = characteristicsOf kv ++ [tok].
Proof.
  intros Ht. unfold characteristicsOf.
  destruct (obj_get kv (lit "CHARACTERISTICS")) as [a|].
  - rewrite join_snoc by apply splitOn_nonempty. rewrite join_splitOn.
    cbn [app]. now rewrite splitOn_app, (splitOn_none COMMA tok).
  - cbn [app join]. now apply splitOn_none.
Qed.

Lemma token_no_comma payload :
  Forall payloadChar payload -> Forall (fun c => c <> COMMA) (MARKER ++ payload).
Proof.
  intros H. apply Forall_app. split.
  - apply Forall_forall. intros c Hc. cbn in Hc. unfold COMMA.
    intuition (subst; discriminate).
  - eapply Forall_impl; [|exact H]. now intros c (_ & Hc & _).
Qed.

(** C2, as the code has it.  For a manifest (a string of UTF-16 code
    units) in which no key is handled more than 27 times,
    [manifestRewriter] returns without throwing, with as many lines as
    it was given.  Each line is written from that line and the keys
    handled before it: a line that is no rendition declaration, or whose
    attributes - as far as the lenient parser read them - have no [TYPE]
    of [SUBTITLES] or [AUDIO], is unchanged; any other line is rewritten
    from the attributes the parser read, whatever text it left
    unparsed. *)
Theorem manifestRewriter_returns (m : jsstring) :
  wf_string m ->
  (forall key, (occurrences key (lineKeys (splitLines m)) <= 27)%nat) ->
  exists out,
    manifestRewriter m = Return (join [LF] out)
    /\ List.length out = List.length (splitLines m)
    /\ forall i line,
         nth_error (splitLines m) i = Some line ->
         nth_error out i
         = Some (expectedLine (lineKeys (firstn i (splitLines m))) line)
         /\ (handled line = false -> nth_error out i = Some line)
         /\ (handled line = true ->
             exists payload tag,
               nth_error out i
               = Some (PREFIX ++ serializeAttrs
                                   (rewritten (parseAttrs (slice 13 line))
                                              payload tag))).
Proof.
  intros Hwf Hb.
  pose proof (rewriteLines_spec (splitLines m) [] [] counts_nil
                (wf_splitLines m Hwf) Hb) as E.
  exists (expectedLines [] (splitLines m)).
  split; [unfold manifestRewriter; now rewrite E|].
  split; [exact (rewriteLines_length _ _ _ E)|].
  intros i line Hi.
  pose proof (expectedLines_nth (splitLines m) [] i line Hi) as Hn.
  cbn [app] in Hn. split; [exact Hn|]. rewrite Hn. unfold expectedLine.
  split; intros ->; [reflexivity|eauto].
Qed.


Lemma exampleManifest_wf : wf_string exampleManifest.
Proof. apply wf_string_check. vm_compute. reflexivity. Qed.

Lemma manifestRewriter_returns_witness :
  wf_string exampleManifest
  /\ (forall key, (occurrences key (lineKeys (splitLines exampleManifest)) <= 27)%nat)
  /\ exists out, manifestRewriter exampleManifest = Return (join [LF] out)
                 /\ List.length out = 4%nat.
Proof.
  assert (H1 : wf_string exampleManifest) by exact exampleManifest_wf.
  assert (H2 : forall key,
             (occurrences key (lineKeys (splitLines exampleManifest)) <= 27)%nat).
  { intros key. unfold occurrences.
    etransitivity; [apply filter_length_le|]. vm_compute. lia. }
  split; [exact H1|]. split; [exact H2|].
  destruct (manifestRewriter_returns exampleManifest H1 H2) as (out & E & Hl & _).
  exists out. split; [exact E|exact Hl].
Defined.

(** C2 as stated fails on a rendition line whose parse fails after
    [TYPE]: the first turn of the loop reads [TYPE=AUDIO], the second
    fails on [?] and breaks, and the line is not left as it was but
    rewritten from the one attribute read. *)
Lemma manifestRewriter_rewrites_after_parse_failure :
  let line := lit "#EXT-X-MEDIA:TYPE=AUDIO,?" in
  matchAttr (slice 13 line)
  = Some (lit "TYPE", {| value := lit "AUDIO"; quoted := false |}, lit "?")
  /\ matchAttr (lit "?") = None
  /\ manifestRewriter line
     = Return (lit "#EXT-X-MEDIA:TYPE=AUDIO,CHARACTERISTICS=" ++ dq "xyzzy.obj.e30="
               ++ lit ",LANGUAGE=" ++ dq "und")
  /\ manifestRewriter line <> Return line.
Proof.
  cbv zeta. split; [vm_compute; reflexivity|].
  split; [vm_compute; reflexivity|].
  split; [vm_compute; reflexivity|]. vm_compute. discriminate.
Qed.

(* ================================================================= *)
(** * Further properties of the receiver *)

(** ** Lists, objects and patterns *)

Lemma last_app_nonempty {A} (a p : list A) d : p <> [] -> last (a ++ p) d = last p d.
Proof.
  intro Hp. induction a as [|x a IH]; [reflexivity|].
  cbn [app]. destruct (a ++ p) eqn:E.
  - apply app_eq_nil in E. destruct E. contradiction.
  - rewrite <- IH. reflexivity.
Qed.

Lemma obj_replace_same {A} (o : jsobj A) k v :
  obj_get o k = Some v -> obj_replace o k v = o.
Proof.
  induction o as [|[k' v'] o IH]; cbn [obj_get obj_replace]; [reflexivity|].
  destruct (str_eqb k' k).
  - intro H. injection H as ->. reflexivity.
  - intro H. rewrite (IH H). reflexivity.
Qed.

Lemma obj_replace_keys {A} (o : jsobj A) k v :
  map fst (obj_replace o k v) = map fst o.
Proof.
  induction o as [|[k' v'] o IH]; cbn [obj_replace map]; [reflexivity|].
  destruct (str_eqb k' k); cbn [map fst]; [reflexivity|]. rewrite IH. reflexivity.
Qed.

Lemma exec_Chr_cons c re x s :
  exec ((false, Chr c) :: re) (x :: s) = if c =? x then exec re s else None.
Proof.
  cbn [exec]. rewrite (N.eqb_sym c x).
  destruct (x =? c); [|reflexivity]. destruct (exec re s); reflexivity.
Qed.

(* ================================================================= *)
(** ** The payload of the side channel *)

Lemma b64char_base64 i : base64Char (b64char i) = true.
Proof.
  unfold base64Char, b64char, isAlnum, isDigit, between, PAD.
  destruct (N.ltb_spec i 26); [cmp|].
  destruct (N.ltb_spec i 52); [cmp|].
  destruct (N.ltb_spec i 62); [cmp|].
  destruct (N.eqb_spec i 62); reflexivity.
Qed.

Lemma b64encode_base64 bs : forallb base64Char (b64encode bs) = true.
Proof.
  induction bs as [| a | a b | a b c r IH] using list_ind3; cbn [b64encode forallb];
    rewrite ?b64char_base64, ?IH; reflexivity.
Qed.

Lemma b64encode_length bs : N.of_nat (List.length (b64encode bs)) mod 4 = 0.
Proof.
  rewrite b64encode_split, length_app, length_map, <- length_app.
  apply b64groups_length.
Qed.

Lemma base64Char_token c :
  base64Char c = true ->
  c <> COMMA /\ c <> DQUOTE /\ isLineTerminator c = false /\ isWhiteSpace c = false.
Proof.
  unfold base64Char, isAlnum, isDigit, between, PAD, COMMA, DQUOTE.
  intro H.
  assert (Hr : 43 <= c <= 122 /\ c <> 44).
  { repeat (apply orb_true_iff in H; destruct H as [H|H]); cmp_hyps; lia. }
  split; [lia|]. split; [lia|].
  assert (Hn : forall l, Forall (fun x => x < 43 \/ 122 < x) l -> existsb (N.eqb c) l = false).
  { induction l as [|x l IH]; [reflexivity|]. intro Hl. inversion Hl; subst.
    cbn [existsb]. rewrite IH by assumption.
    replace (c =? x) with false; [reflexivity|]. symmetry. apply N.eqb_neq. lia. }
  assert (Hlt : isLineTerminator c = false).
  { unfold isLineTerminator. apply Hn. repeat constructor; lia. }
  split; [exact Hlt|]. unfold isWhiteSpace. rewrite Hlt, Hn.
  - unfold between. replace (8192 <=? c) with false; [reflexivity|].
    symmetry. apply N.leb_gt. lia.
  - repeat constructor; lia.
Qed.

(** X1.  For every object with string values [encodeObject] returns, and
    the payload is made of base64 characters only, in groups of four.
    It holds no comma, no double quote, no white space and no line
    terminator, so the marker and the payload stay one token of a quoted
    list of characteristics. *)
Theorem encodeObject_token (obj : jsobj jsstring) :
  wf_object obj ->
  exists payload,
    encodeObject obj = Return payload
    /\ payload <> []
    /\ forallb base64Char payload = true
    /\ N.of_nat (List.length payload) mod 4 = 0
    /\ Forall (fun c => c <> COMMA /\ c <> DQUOTE /\ isLineTerminator c = false
                        /\ isWhiteSpace c = false) payload
    /\ splitOn COMMA (MARKER ++ payload) = [MARKER ++ payload].
Proof.
  intro Hwf.
  destruct (uri_roundtrip _ (JSON_stringify_paired _ Hwf)) as (e & He & Hb & Hd).
  exists (b64encode (unescape e)).
  assert (Henc : encodeObject obj = Return (b64encode (unescape e))).
  { unfold encodeObject. rewrite He. cbn [bind]. apply btoa_bytes, Hb. }
  assert (Htok : Forall (fun c => c <> COMMA /\ c <> DQUOTE
                                  /\ isLineTerminator c = false
                                  /\ isWhiteSpace c = false)
                        (b64encode (unescape e))).
  { apply Forall_forall. intros c Hc. apply base64Char_token.
    pose proof (b64encode_base64 (unescape e)) as Ha.
    rewrite forallb_forall in Ha. apply Ha, Hc. }
  split; [exact Henc|]. split; [|split; [|split; [|split]]].
  - intro Hnil.
    assert (Hdec : decodeObject [] = Return (jsonOf obj)).
    { rewrite <- Hnil. unfold decodeObject.
      rewrite atob_b64encode by exact Hb. cbn [bind]. rewrite Hd. cbn [bind].
      apply JSON_parse_stringify, Hwf. }
    vm_compute in Hdec. discriminate.
  - apply b64encode_base64.
  - apply b64encode_length.
  - exact Htok.
  - apply splitOn_none. apply Forall_app. split.
    + unfold MARKER, COMMA. repeat constructor; discriminate.
    + eapply Forall_impl; [|exact Htok]. intros c Hc. apply Hc.
Qed.

Lemma encodeObject_token_witness :
  wf_object sampleObject
  /\ exists payload,
       encodeObject sampleObject = Return payload
       /\ forallb base64Char payload = true
       /\ splitOn COMMA (MARKER ++ payload) = [MARKER ++ payload].
Proof.
  split; [exact sampleObject_wf|].
  destruct (encodeObject_token sampleObject sampleObject_wf)
    as (payload & H1 & _ & H2 & _ & _ & H3).
  exists payload. auto.
Defined.

Lemma sextets_foreign c s : In c s -> b64val c = None -> sextets s = None.
Proof.
  intros Hin Hc. induction s as [|x s IH]; [contradiction|].
  cbn [sextets]. destruct Hin as [-> | Hin].
  - rewrite Hc. reflexivity.
  - rewrite (IH Hin). destruct (b64val x); reflexivity.
Qed.

Lemma stripPadding_keeps c s : In c s -> c <> PAD -> In c (stripPadding s).
Proof.
  intros Hin Hc. unfold stripPadding.
  destruct (N.of_nat (List.length s) mod 4 =? 0); [|exact Hin].
  apply in_rev in Hin. destruct (rev s) as [|x r] eqn:E; [contradiction|].
  destruct (N.eqb_spec x PAD) as [-> | Hx].
  - destruct Hin as [Hin | Hin]; [congruence|].
    destruct r as [|y r]; cbn [headIs tl]; [contradiction|].
    destruct (N.eqb_spec y PAD) as [-> | Hy].
    + destruct Hin as [Hin | Hin]; [congruence|]. apply -> in_rev. exact Hin.
    + apply -> in_rev. exact Hin.
  - rewrite <- E in Hin. apply <- in_rev in Hin. exact Hin.
Qed.

Lemma atob_foreign str c :
  In c str -> b64val c = None -> c <> PAD -> isAsciiWhitespace c = false ->
  atob str = Throw InvalidCharacterError.
Proof.
  intros Hin Hv Hp Hw. unfold atob.
  set (data := stripPadding (filter (fun c => negb (isAsciiWhitespace c)) str)).
  assert (Hd : In c data).
  { apply stripPadding_keeps; [|exact Hp]. apply filter_In. split; [exact Hin|].
    rewrite Hw. reflexivity. }
  destruct (N.of_nat (List.length data) mod 4 =? 1); [reflexivity|].
  rewrite (sextets_foreign c data Hd Hv). reflexivity.
Qed.

(** X2.  A payload that holds a character outside base64 - not a letter,
    a digit, [+], [/], [=] or ASCII white space - makes [decodeObject]
    throw the error of [atob], and so does the update of a track whose
    first marked role carries it. *)
Theorem decodeObject_foreign (str : jsstring) (c : N) :
  In c str -> base64Char c = false -> isAsciiWhitespace c = false ->
  decodeObject str = Throw InvalidCharacterError
  /\ forall t, markerPayload t = Some str ->
               doTrackUpdate t = Throw InvalidCharacterError.
Proof.
  intros Hin Hb Hw.
  assert (Hv : b64val c = None /\ c <> PAD).
  { unfold base64Char, isAlnum, isDigit in Hb. unfold b64val.
    repeat (apply orb_false_iff in Hb; destruct Hb as [Hb ?]).
    repeat match goal with H : _ = false |- _ => rewrite H end.
    split; [reflexivity|]. apply N.eqb_neq. assumption. }
  assert (Hd : decodeObject str = Throw InvalidCharacterError).
  { unfold decodeObject. rewrite (atob_foreign str c Hin (proj1 Hv) (proj2 Hv) Hw).
    reflexivity. }
  split; [exact Hd|]. intros t Ht.
  apply (doTrackUpdate_payload_throws t str _ Ht Hd).
Qed.

Lemma decodeObject_foreign_witness :
  decodeObject (lit "eyJMQU5HVUFHRSI6ImVuIn0-") = Throw InvalidCharacterError
  /\ doTrackUpdate (sampleTrack "en-XA" [lit "xyzzy.obj.eyJMQU5HVUFHRSI6ImVuIn0-"])
     = Throw InvalidCharacterError.
Proof.
  destruct (decodeObject_foreign (lit "eyJMQU5HVUFHRSI6ImVuIn0-") 45) as [H1 H2].
  - vm_compute. tauto.
  - reflexivity.
  - reflexivity.
  - split; [exact H1|]. apply H2. reflexivity.
Defined.

Lemma filter_blank str :
  forallb isAsciiWhitespace str = true ->
  filter (fun c => negb (isAsciiWhitespace c)) str = [].
Proof.
  induction str as [|c str IH]; [reflexivity|]. cbn [forallb filter].
  intro H. apply andb_true_iff in H. destruct H as [Hc H].
  rewrite Hc. cbn [negb]. apply IH, H.
Qed.

(** X3.  A payload that is empty, or made of ASCII white space only,
    decodes to the empty text, which is no JSON text: [decodeObject]
    throws a SyntaxError, and so does the update of a track whose first
    marked role is the bare marker. *)
Theorem decodeObject_blank (str : jsstring) :
  forallb isAsciiWhitespace str = true ->
  decodeObject str = Throw SyntaxError
  /\ forall t, markerPayload t = Some str -> doTrackUpdate t = Throw SyntaxError.
Proof.
  intro Hb.
  assert (Hd : decodeObject str = Throw SyntaxError).
  { unfold decodeObject, atob. rewrite (filter_blank str Hb). reflexivity. }
  split; [exact Hd|]. intros t Ht.
  apply (doTrackUpdate_payload_throws t str _ Ht Hd).
Qed.

Lemma decodeObject_blank_witness :
  decodeObject [] = Throw SyntaxError
  /\ doTrackUpdate (sampleTrack "en" [lit "caption"; lit "xyzzy.obj."])
     = Throw SyntaxError.
Proof.
  destruct (decodeObject_blank [] eq_refl) as [H1 H2].
  split; [exact H1|]. apply H2. reflexivity.
Defined.

(* ================================================================= *)
(** ** Payloads that are not UTF-8 *)

Lemma decodeURI_ascii_prefix pre rest e :
  Forall (fun c => c < 128) pre ->
  decodeURIComponent rest = Throw e ->
  decodeURIComponent (escape pre ++ rest) = Throw e.
Proof.
  intros Hpre Hrest. induction Hpre as [|c pre Hc _ IH]; [exact Hrest|].
  change (escape (c :: pre)) with (escapeUnit c ++ escape pre).
  rewrite <- app_assoc, (decodeURI_ascii c _ Hc), IH. reflexivity.
Qed.

Lemma pctAt_ascii rest :
  asciiNext rest ->
  match pctAt (escape rest) with
  | Some b1 => isContinuation b1 = false
  | None => True
  end.
Proof.
  destruct rest as [|c r]; [intros _; exact I|]. intro Hc. change (c < 128) in Hc.
  change (escape (c :: r)) with (escapeUnit c ++ escape r). unfold escapeUnit.
  destruct (escapeUnreserved c) eqn:E.
  - apply escapeUnreserved_ascii in E. destruct E as [_ E]. cbn [app pctAt].
    replace (c =? PERCENT) with false by (symmetry; apply N.eqb_neq; exact E).
    exact I.
  - replace (c <? 256) with true by (symmetry; apply N.ltb_lt; lia).
    rewrite pctAt_pctOctet by (unfold byte; lia).
    apply between_false. lia.
Qed.

Lemma utf8_decode_at_ascii b rest :
  asciiNext rest -> utf8_decode_at b (escape rest) = None.
Proof.
  intro H. apply pctAt_ascii in H. unfold utf8_decode_at.
  destruct (pctAt (escape rest)) as [b1|].
  - rewrite H. cbn [andb].
    destruct (between 192 223 b); [reflexivity|].
    destruct (between 224 239 b).
    + destruct (pctAt (skipn 3 (escape rest))); reflexivity.
    + destruct (between 240 247 b); [|reflexivity].
      destruct (pctAt (skipn 3 (escape rest))); [|reflexivity].
      destruct (pctAt (skipn 6 (escape rest))); reflexivity.
  - destruct (between 192 223 b); [reflexivity|].
    destruct (between 224 239 b); [reflexivity|].
    destruct (between 240 247 b); reflexivity.
Qed.

Lemma decodeURI_stray b rest :
  128 <= b < 256 -> asciiNext rest ->
  decodeURIComponent (escape (b :: rest)) = Throw URIError.
Proof.
  intros Hb Hrest.
  change (escape (b :: rest)) with (escapeUnit b ++ escape rest).
  rewrite escapeUnit_high by (unfold byte; lia).
  unfold decodeURIComponent, pctOctet. cbn [app].
  change (decodeURI_from 0 (PERCENT :: hexDigitU (b / 16) :: hexDigitU (b mod 16)
                              :: escape rest))
    with (if PERCENT =? PERCENT then
            match hex2 (hexDigitU (b / 16) :: hexDigitU (b mod 16) :: escape rest) with
            | None => Throw URIError
            | Some b' =>
                if b' <? 128 then
                  r <- decodeURI_from 0 (escape rest) ;; Return (b' :: r)
                else
                  match utf8_decode_at b' (escape rest) with
                  | None => Throw URIError
                  | Some (v, n) =>
                      r <- decodeURI_from n (escape rest) ;; Return (utf16 v ++ r)
                  end
            end
          else r <- decodeURI_from 0 (hexDigitU (b / 16) :: hexDigitU (b mod 16)
                                        :: escape rest) ;;
               Return (PERCENT :: r)).
  rewrite N.eqb_refl, hex2_pct by (unfold byte; lia).
  replace (b <? 128) with false by (symmetry; apply N.ltb_ge; lia).
  rewrite (utf8_decode_at_ascii b rest Hrest). reflexivity.
Qed.

(** X4.  A payload that is the base64 of octets which are not UTF-8 - an
    octet above 127 that stands, after ASCII text, before an ASCII
    character or at the end, as in text in Latin-1 - makes
    [decodeObject] throw a URIError. *)
Theorem decodeObject_not_utf8 (pre rest : list N) (b : N) :
  Forall (fun c => c < 128) pre ->
  128 <= b < 256 ->
  Forall byte rest -> asciiNext rest ->
  decodeObject (b64encode (pre ++ b :: rest)) = Throw URIError.
Proof.
  intros Hpre Hb Hrest Hnext.
  assert (Hbytes : Forall byte (pre ++ b :: rest)).
  { apply Forall_app. split.
    - eapply Forall_impl; [|exact Hpre]. intros c Hc. cbv beta in Hc.
      unfold byte. lia.
    - constructor; [unfold byte; lia|exact Hrest]. }
  unfold decodeObject. rewrite (atob_b64encode _ Hbytes). cbn [bind].
  rewrite escape_app.
  rewrite (decodeURI_ascii_prefix pre _ URIError Hpre (decodeURI_stray b rest Hb Hnext)).
  reflexivity.
Qed.

Lemma decodeObject_not_utf8_witness :
  decodeObject (b64encode (lit "Espa" ++ 241 :: lit "ol")) = Throw URIError.
Proof.
  apply (decodeObject_not_utf8 (lit "Espa") (lit "ol") 241).
  - repeat constructor.
  - lia.
  - repeat constructor.
  - reflexivity.
Defined.

(* ================================================================= *)
(** ** What the parse loop guarantees *)

Lemma exec_Star_inv cap cls re s caps :
  exec ((cap, Star cls) :: re) s = Some caps ->
  exists p q caps',
    s = p ++ q /\ forallb cls p = true /\ exec re q = Some caps'
    /\ caps = if cap then p :: caps' else caps'.
Proof.
  cbn [exec]. intro H. apply greedy_inv in H.
  destruct H as (p & q & -> & Hp & Hk). cbn [rev app] in Hk. cbv beta in Hk.
  destruct (exec re q) as [caps'|] eqn:E; [|discriminate].
  injection Hk as <-. exists p, q, caps'. auto.
Qed.

Lemma exec_Plus_inv cap cls re s caps :
  exec ((cap, Plus cls) :: re) s = Some caps ->
  exists p q caps',
    s = p ++ q /\ p <> [] /\ forallb cls p = true /\ exec re q = Some caps'
    /\ caps = if cap then p :: caps' else caps'.
Proof.
  cbn [exec]. intro H. apply greedy_inv in H.
  destruct H as (p & q & -> & Hp & Hk). cbn [rev app] in Hk. cbv beta in Hk.
  destruct p as [|x p]; [discriminate|].
  destruct (exec re q) as [caps'|] eqn:E; [|discriminate].
  injection Hk as <-. exists (x :: p), q, caps'.
  split; [reflexivity|]. split; [discriminate|]. auto.
Qed.

Lemma exec_Chr_inv c re s caps :
  exec ((false, Chr c) :: re) s = Some caps ->
  exists q, s = c :: q /\ exec re q = Some caps.
Proof.
  destruct s as [|x q]; [discriminate|]. rewrite exec_Chr_cons.
  destruct (N.eqb_spec c x) as [<- | _]; [|discriminate].
  intro H. exists q. auto.
Qed.

Lemma exec_reQuoted_inv line k v rest :
  exec reQuoted line = Some [k; v; rest] ->
  wf_key k /\ forallb notQuote v = true.
Proof.
  unfold reQuoted. intro H.
  apply exec_Plus_inv in H. destruct H as (p & q & caps & -> & Hne & Hp & H & Hc).
  apply exec_Chr_inv in H. destruct H as (q1 & -> & H).
  apply exec_Chr_inv in H. destruct H as (q2 & -> & H).
  apply exec_Star_inv in H. destruct H as (pv & q3 & caps3 & -> & Hv & H & ->).
  cbn iota in Hc. injection Hc as Ek Ev _. subst k v.
  split; [split; assumption|exact Hv].
Qed.

Lemma exec_reBare_inv line k v rest :
  exec reBare line = Some [k; v; rest] ->
  wf_key k /\ forallb notComma v = true.
Proof.
  unfold reBare. intro H.
  apply exec_Plus_inv in H. destruct H as (p & q & caps & -> & Hne & Hp & H & Hc).
  apply exec_Chr_inv in H. destruct H as (q1 & -> & H).
  apply exec_Star_inv in H. destruct H as (pv & q3 & caps3 & -> & Hv & H & ->).
  cbn iota in Hc. injection Hc as Ek Ev _. subst k v.
  split; [split; assumption|exact Hv].
Qed.

Lemma matchAttr_parsed line k a rest :
  matchAttr line = Some (k, a, rest) -> parsedAttr (k, a).
Proof.
  unfold matchAttr, parsedAttr. cbn [fst snd].
  destruct (groups3 (exec reQuoted line)) as [[[k1 v1] r1]|] eqn:E1.
  - intros [= <- <- _]. apply groups3_inv in E1. cbn [quoted value].
    apply (exec_reQuoted_inv _ _ _ _ E1).
  - destruct (groups3 (exec reBare line)) as [[[k2 v2] r2]|] eqn:E2; [|discriminate].
    intros [= <- <- _]. apply groups3_inv in E2. cbn [quoted value].
    apply (exec_reBare_inv _ _ _ _ E2).
Qed.

Lemma obj_get_none_absent {A} (o : jsobj A) k :
  obj_get o k = None -> ~ In k (map fst o).
Proof.
  induction o as [|[k' v'] o IH]; cbn [obj_get map fst In]; [tauto|].
  destruct (str_eqb_spec k' k) as [-> | Hne]; [discriminate|].
  intros H [E | Hin]; [congruence|]. exact (IH H Hin).
Qed.

Lemma obj_insert_index_In {A} n k (v : A) o x :
  In x (map fst (obj_insert_index n k v o)) <-> x = k \/ In x (map fst o).
Proof.
  induction o as [|[k' v'] o IH]; cbn [obj_insert_index map fst In]; [intuition|].
  destruct (arrayIndex k') as [n'|]; [destruct (n' <? n)|]; cbn [map fst In];
    rewrite ?IH; intuition.
Qed.

Lemma obj_insert_index_NoDup {A} n k (v : A) o :
  ~ In k (map fst o) -> NoDup (map fst o) -> NoDup (map fst (obj_insert_index n k v o)).
Proof.
  induction o as [|[k' v'] o IH]; cbn [obj_insert_index map fst].
  - intros _ _. constructor; [intros []|constructor].
  - intros Hk Hnd. inversion Hnd as [|? ? Hk' Hnd']; subst.
    assert (Hall : NoDup (k :: k' :: map fst o)) by (constructor; assumption).
    destruct (arrayIndex k') as [n'|]; [destruct (n' <? n)|]; try exact Hall.
    cbn [map fst]. constructor.
    + rewrite obj_insert_index_In. intros [E | Hin]; [|contradiction].
      apply Hk. left. exact E.
    + apply IH; [|exact Hnd']. intro Hin. apply Hk. right. exact Hin.
Qed.

Lemma obj_set_NoDup {A} (o : jsobj A) k v :
  NoDup (map fst o) -> NoDup (map fst (obj_set o k v)).
Proof.
  intro Hnd. unfold obj_set. destruct (str_eqb k (lit "__proto__")); [exact Hnd|].
  destruct (obj_get o k) eqn:E.
  - rewrite obj_replace_keys. exact Hnd.
  - apply obj_get_none_absent in E. destruct (arrayIndex k).
    + apply obj_insert_index_NoDup; assumption.
    + rewrite map_app. cbn [map fst].
      rewrite <- (rev_involutive (map fst o ++ [k])). apply NoDup_rev.
      rewrite rev_app_distr. cbn [rev app]. constructor.
      * rewrite <- in_rev. exact E.
      * apply NoDup_rev. exact Hnd.
Qed.

Lemma obj_set_Forall {A} (P : jsstring * A -> Prop) (o : jsobj A) k v :
  Forall P o -> P (k, v) -> Forall P (obj_set o k v).
Proof.
  intros Ho Hkv. apply Forall_forall. intros e He.
  apply obj_set_In in He. destruct He as [-> | He]; [exact Hkv|].
  rewrite Forall_forall in Ho. apply Ho, He.
Qed.

Lemma obj_set_proto {A} (o : jsobj A) k v :
  obj_get o (lit "__proto__") = None ->
  obj_get (obj_set o k v) (lit "__proto__") = None.
Proof.
  intro H. destruct (str_eqb_spec k (lit "__proto__")) as [-> | Hne].
  - unfold obj_set. rewrite str_eqb_refl. exact H.
  - rewrite obj_get_set by exact Hne.
    replace (str_eqb k (lit "__proto__")) with false
      by (symmetry; apply str_eqb_neq; exact Hne).
    exact H.
Qed.

Lemma parseLoop_invariant fuel : forall kv line,
  NoDup (map fst kv) -> Forall parsedAttr kv ->
  obj_get kv (lit "__proto__") = None ->
  NoDup (map fst (parseLoop fuel kv line))
  /\ Forall parsedAttr (parseLoop fuel kv line)
  /\ obj_get (parseLoop fuel kv line) (lit "__proto__") = None.
Proof.
  induction fuel as [|fuel IH]; intros kv line Hnd Hp Hproto; cbn [parseLoop]; [auto|].
  destruct line as [|c line]; [auto|].
  destruct (matchAttr (c :: line)) as [[[k a] rest]|] eqn:E; [|auto].
  apply IH.
  - apply obj_set_NoDup, Hnd.
  - apply obj_set_Forall; [exact Hp|]. apply (matchAttr_parsed _ _ _ _ E).
  - apply obj_set_proto, Hproto.
Qed.

(** X5.  Whatever the line, the attribute set the parse loop builds has
    no name twice and no attribute named [__proto__]; every name is a
    run of one or more key characters, every quoted value is free of
    double quotes and every bare value free of commas. *)
Theorem parseAttrs_invariant (line : jsstring) :
  NoDup (map fst (parseAttrs line))
  /\ Forall parsedAttr (parseAttrs line)
  /\ obj_get (parseAttrs line) (lit "__proto__") = None.
Proof.
  unfold parseAttrs. apply parseLoop_invariant.
  - constructor.
  - constructor.
  - reflexivity.
Qed.

(* ================================================================= *)
(** ** Lines that are not well formed *)

Lemma exec_Opt_skip c re s :
  headIs c s = false -> exec ((false, Opt c) :: re) s = exec re s.
Proof.
  intro H. cbn [exec]. destruct s as [|x s].
  - destruct (exec re []); reflexivity.
  - cbn [headIs] in H. rewrite H. destruct (exec re (x :: s)); reflexivity.
Qed.

(** X6.  Let a text start with a key of key characters, [=] and a
    quoted value without double quote, go on with a run of white space
    and then a comma or none, and end with a rest that holds no line
    terminator and, when there is no comma, is empty or starts with a
    character that is neither white space nor a comma.  Then one turn of
    the parse loop reads the attribute, quoted, with that key and that
    value, and the rest is what the loop goes on with. *)
Theorem matchAttr_lenient (key v ws : jsstring) (comma : bool) (rest : jsstring) :
  wf_key key -> forallb notQuote v = true ->
  forallb isWhiteSpace ws = true -> dots rest ->
  (comma = false -> attrNext rest) ->
  matchAttr (key ++ [61; DQUOTE] ++ v ++ [DQUOTE] ++ ws
               ++ (if comma then [COMMA] else []) ++ rest)
  = Some (key, {| value := v; quoted := true |}, rest).
Proof.
  intros [Hne Hk] Hv Hws Hrest Hnext. unfold matchAttr.
  assert (Hdot : exec [(true, Star isDot)] rest = Some [rest]).
  { rewrite <- (app_nil_r rest) at 1.
    apply (exec_Star true isDot [] rest []);
      [apply dots_forallb, Hrest | exact I | reflexivity]. }
  assert (Hopt : exec [(false, Opt COMMA); (true, Star isDot)]
                   ((if comma then [COMMA] else []) ++ rest) = Some [rest]).
  { destruct comma; cbn [app].
    - apply exec_Opt_take, Hdot.
    - rewrite exec_Opt_skip; [exact Hdot|].
      specialize (Hnext eq_refl). destruct rest as [|c r]; [reflexivity|].
      cbn [headIs]. apply N.eqb_neq. apply Hnext. }
  assert (Htail : exec reTail (ws ++ (if comma then [COMMA] else []) ++ rest)
                  = Some [rest]).
  { unfold reTail. apply (exec_Star false isWhiteSpace _ ws _ [rest]);
      [exact Hws | | exact Hopt].
    destruct comma; cbn [app stopsAt]; [reflexivity|].
    specialize (Hnext eq_refl). destruct rest as [|c r]; [exact I|]. apply Hnext. }
  assert (Hq : exec reQuoted
                 (key ++ [61; DQUOTE] ++ v ++ [DQUOTE] ++ ws
                    ++ (if comma then [COMMA] else []) ++ rest)
               = Some [key; v; rest]).
  { unfold reQuoted. apply (exec_Plus true); auto; [reflexivity|].
    cbn [app]. rewrite !exec_Chr.
    apply (exec_Star true); auto; [reflexivity|].
    rewrite exec_Chr. exact Htail. }
  rewrite Hq. reflexivity.
Qed.

Lemma matchAttr_lenient_witness :
  matchAttr (lit "NAME=" ++ dq "English" ++ lit "  LANGUAGE=" ++ dq "en")
  = Some (lit "NAME", {| value := lit "English"; quoted := true |},
          lit "LANGUAGE=" ++ dq "en").
Proof.
  apply (matchAttr_lenient (lit "NAME") (lit "English") (lit "  ") false
           (lit "LANGUAGE=" ++ dq "en")).
  - split; [discriminate|reflexivity].
  - reflexivity.
  - reflexivity.
  - repeat constructor.
  - intros _. split; [reflexivity|discriminate].
Defined.

Lemma matchAttr_noKey s : noKeyNext s -> s <> [] -> matchAttr s = None.
Proof.
  destruct s as [|c s]; [contradiction|]. intros Hc _. change (isKeyChar c = false) in Hc.
  unfold matchAttr, reQuoted, reBare. cbn [exec greedy]. rewrite Hc. reflexivity.
Qed.

Lemma parseLoop_noKey kv s : noKeyNext s -> parseLoop (List.length s) kv s = kv.
Proof.
  intro H. destruct s as [|c s]; [reflexivity|].
  cbn [List.length parseLoop]. rewrite (matchAttr_noKey (c :: s) H); [reflexivity|discriminate].
Qed.

Lemma parseLoop_serialize_junk junk es : forall kv,
  es <> [] -> Forall wf_attr es -> Forall plainKey (map fst es) ->
  NoDup (map fst kv ++ map fst es) ->
  dots junk -> noKeyNext junk ->
  parseLoop (List.length (serializeAttrs es ++ COMMA :: junk)) kv
    (serializeAttrs es ++ COMMA :: junk)
  = kv ++ es.
Proof.
  induction es as [|e es IH]; intros kv Hne Hwf Hpl Hnd Hj Hk; [contradiction|].
  apply Forall_cons_iff in Hwf. destruct Hwf as [He Hwf].
  cbn [map] in Hpl, Hnd. apply Forall_cons_iff in Hpl. destruct Hpl as [[Hp Hi] Hpl].
  rewrite serializeAttrs_cons.
  set (next := match es with
               | [] => junk
               | _ :: _ => serializeAttrs es ++ COMMA :: junk
               end).
  assert (Hline : (renderAttr e
                     ++ match es with [] => [] | _ :: _ => COMMA :: serializeAttrs es end)
                    ++ COMMA :: junk
                  = renderAttr e ++ COMMA :: next).
  { subst next. rewrite <- app_assoc. destruct es; reflexivity. }
  rewrite Hline.
  assert (Hdots : dots next).
  { subst next. destruct es as [|e' es']; [exact Hj|].
    apply dots_app; [apply serializeAttrs_dots, Hwf|].
    constructor; [reflexivity|exact Hj]. }
  rewrite (parseAttrs_step _ (fst e) (snd e) next);
    [| apply renderAttr_nonempty, He
     | apply matchAttr_render; [exact He|constructor; exact Hdots]].
  assert (Hfresh : obj_get kv (fst e) = None).
  { apply obj_get_absent. apply NoDup_remove_2 in Hnd.
    intro Hin. apply Hnd. apply in_or_app. left. exact Hin. }
  rewrite (obj_set_fresh kv (fst e) (snd e) Hp Hi Hfresh).
  assert (Hentry : kv ++ [(fst e, snd e)] = kv ++ [e]) by (destruct e; reflexivity).
  rewrite Hentry.
  subst next. destruct es as [|e' es'].
  - rewrite (parseLoop_noKey _ junk Hk). reflexivity.
  - rewrite IH; [rewrite <- app_assoc; reflexivity | discriminate | exact Hwf | exact Hpl
                 | | exact Hj | exact Hk].
    rewrite map_app, <- app_assoc. exact Hnd.
Qed.

(** X7.  Let a well-formed list of one or more attributes - its names
    distinct, none of them a number or [__proto__] - be followed by a
    comma and a tail that holds no line terminator and is empty or
    starts with a character no key can start with, white space for one.
    Then the parse loop reads the attributes of the list and stops at
    the tail, and a line of a handled type is rewritten as the line
    without the comma and the tail is: the tail is not in the rewritten
    line. *)
Theorem parseAttrs_stops (es : AttributeSet) (junk : jsstring) (state : AllocationState) :
  es <> [] -> Forall wf_attr es -> NoDup (map fst es) -> Forall plainKey (map fst es) ->
  dots junk -> noKeyNext junk ->
  parseAttrs (serializeAttrs es ++ COMMA :: junk) = es
  /\ (handledType es = true ->
      rewriteLine state (PREFIX ++ serializeAttrs es ++ COMMA :: junk)
      = rewriteLine state (PREFIX ++ serializeAttrs es)).
Proof.
  intros Hne Hwf Hnd Hpl Hj Hk.
  assert (Hparse : parseAttrs (serializeAttrs es ++ COMMA :: junk) = es).
  { unfold parseAttrs.
    rewrite (parseLoop_serialize_junk junk es []); [reflexivity | | | | | |]; assumption. }
  split; [exact Hparse|]. intro Hty.
  assert (Hparse' : parseAttrs (serializeAttrs es) = es).
  { unfold parseAttrs.
    rewrite (parseLoop_serialize es []); [reflexivity | | | ]; assumption. }
  unfold rewriteLine.
  replace (startsWith PREFIX (PREFIX ++ serializeAttrs es ++ COMMA :: junk)) with true
    by (symmetry; vm_compute; reflexivity).
  replace (startsWith PREFIX (PREFIX ++ serializeAttrs es)) with true
    by (symmetry; vm_compute; reflexivity).
  change (slice 13 (PREFIX ++ serializeAttrs es ++ COMMA :: junk))
    with (serializeAttrs es ++ COMMA :: junk).
  change (slice 13 (PREFIX ++ serializeAttrs es)) with (serializeAttrs es).
  rewrite Hparse, Hparse', Hty. reflexivity.
Qed.

Lemma parseAttrs_stops_witness :
  parseAttrs (serializeAttrs sampleAttrs ++ COMMA :: lit " DEFAULT=NO") = sampleAttrs
  /\ rewriteLine [] (PREFIX ++ serializeAttrs sampleAttrs ++ COMMA :: lit " DEFAULT=NO")
     = rewriteLine [] (PREFIX ++ serializeAttrs sampleAttrs).
Proof.
  destruct (parseAttrs_stops sampleAttrs (lit " DEFAULT=NO") []) as [H1 H2].
  - discriminate.
  - exact sampleAttrs_wf.
  - exact (proj1 sampleAttrs_keys).
  - exact (proj2 sampleAttrs_keys).
  - repeat constructor.
  - reflexivity.
  - split; [exact H1|]. apply H2. reflexivity.
Defined.

(* ================================================================= *)
(** ** [langTag] on any state *)

(** X8.  Whatever the state, a tag [langTag] returns is the language
    itself or the language followed by [-X] and one letter from A to Z.
    The series [Q] that the comment of line 123 announces is never
    used. *)
Theorem langTag_letter (state : AllocationState) (kv : AttributeSet)
        (tag : jsstring) (state' : AllocationState) :
  langTag state kv = Return (tag, state') ->
  tag = langOf kv
  \/ exists n, 1 <= n <= 26
               /\ obj_get state (langKey kv) = Some n
               /\ tag = langOf kv ++ lit "-X" ++ [64 + n].
Proof.
  unfold langTag. fold (langOf kv).
  destruct (obj_get state (langKey kv)) as [n|] eqn:E.
  - destruct (N.eqb_spec n 0) as [-> | Hn].
    + cbn [N.eqb]. intros [= <- _]. left. reflexivity.
    + replace (n =? 0) with false by (symmetry; apply N.eqb_neq; exact Hn).
      destruct (N.ltb_spec 26 n); [discriminate|].
      intros [= <- _]. right. exists n. split; [lia|]. split; reflexivity.
  - cbn [N.eqb]. intros [= <- _]. left. reflexivity.
Qed.

Lemma langTag_letter_witness :
  langTag [(lit "g.en", 26)] (attrs "g" "en")
  = Return (lit "en-XZ", [(lit "g.en", 27)])
  /\ (lit "en-XZ" = langOf (attrs "g" "en")
      \/ exists n, 1 <= n <= 26
                   /\ obj_get [(lit "g.en", 26)] (langKey (attrs "g" "en")) = Some n
                   /\ lit "en-XZ" = langOf (attrs "g" "en") ++ lit "-X" ++ [64 + n]).
Proof.
  assert (H : langTag [(lit "g.en", 26)] (attrs "g" "en")
              = Return (lit "en-XZ", [(lit "g.en", 27)])) by reflexivity.
  split; [exact H|].
  exact (langTag_letter _ _ _ _ H).
Defined.

(** X9.  A call of [langTag] that returns adds one to the counter of its
    own key, or sets it to one when the key is new, and leaves the
    counter of every other key as it was. *)
Theorem langTag_counter (state : AllocationState) (kv : AttributeSet)
        (tag : jsstring) (state' : AllocationState) :
  langTag state kv = Return (tag, state') ->
  obj_get state' (langKey kv) = Some (nextCount (obj_get state (langKey kv)))
  /\ forall key, key <> langKey kv -> obj_get state' key = obj_get state key.
Proof.
  intro H.
  assert (Hst : state' = obj_set state (langKey kv)
                           (nextCount (obj_get state (langKey kv)))).
  { revert H. unfold langTag, nextCount.
    destruct (obj_get state (langKey kv)) as [n|].
    - destruct (n =? 0).
      + cbn [N.eqb]. intros [= _ <-]. reflexivity.
      + destruct (n =? 0); [intros [= _ <-]; reflexivity|].
        destruct (26 <? n); [discriminate|]. intros [= _ <-]. reflexivity.
    - cbn [N.eqb]. intros [= _ <-]. reflexivity. }
  rewrite Hst. split.
  - rewrite obj_get_set by apply langKey_not_proto. rewrite str_eqb_refl. reflexivity.
  - intros key Hk. rewrite obj_get_set by apply langKey_not_proto.
    destruct (str_eqb (langKey kv) key) eqn:E; [|reflexivity].
    apply str_eqb_eq in E. congruence.
Qed.

Lemma langTag_counter_witness :
  let state := [(lit "g.en", 2); (lit "g.de", 1)] in
  exists tag state',
    langTag state (attrs "g" "en") = Return (tag, state')
    /\ obj_get state' (lit "g.en") = Some 3
    /\ obj_get state' (lit "g.de") = Some 1.
Proof.
  intro state. exists (lit "en-XB"), [(lit "g.en", 3); (lit "g.de", 1)].
  assert (H : langTag state (attrs "g" "en")
              = Return (lit "en-XB", [(lit "g.en", 3); (lit "g.de", 1)]))
    by reflexivity.
  split; [exact H|].
  destruct (langTag_counter _ _ _ _ H) as [H1 H2].
  split; [exact H1|]. apply (H2 (lit "g.de")). discriminate.
Defined.

(* ================================================================= *)
(** ** The attributes of a rewritten line *)

Lemma obj_set_keys {A} (o : jsobj A) k v :
  k <> lit "__proto__" -> arrayIndex k = None ->
  map fst (obj_set o k v)
  = map fst o ++ match obj_get o k with Some _ => [] | None => [k] end.
Proof.
  intros Hp Hi. unfold obj_set.
  replace (str_eqb k (lit "__proto__")) with false
    by (symmetry; apply str_eqb_neq; exact Hp).
  destruct (obj_get o k).
  - rewrite obj_replace_keys, app_nil_r. reflexivity.
  - rewrite Hi, map_app. reflexivity.
Qed.

Lemma rewritten_get kv payload tag k :
  obj_get (rewritten kv payload tag) k
  = if str_eqb (lit "LANGUAGE") k then Some {| value := tag; quoted := true |}
    else if str_eqb (lit "CHARACTERISTICS") k
         then Some {| value := join [COMMA] (characteristicsOf kv ++ [MARKER ++ payload]);
                      quoted := true |}
         else obj_get kv k.
Proof.
  unfold rewritten. rewrite !obj_get_set by discriminate. reflexivity.
Qed.

Lemma rewritten_keys kv payload tag :
  map fst (rewritten kv payload tag)
  = map fst kv ++ newKey kv (lit "CHARACTERISTICS") ++ newKey kv (lit "LANGUAGE").
Proof.
  unfold rewritten, newKey.
  rewrite obj_set_keys by (discriminate || reflexivity).
  rewrite obj_set_keys by (discriminate || reflexivity).
  rewrite obj_get_set by discriminate.
  replace (str_eqb (lit "CHARACTERISTICS") (lit "LANGUAGE")) with false by reflexivity.
  rewrite <- app_assoc. reflexivity.
Qed.

Lemma rewriteAttrs_inv state kv kv' state' :
  rewriteAttrs state kv = Return (kv', state') ->
  exists payload tag,
    encodeObject (collectObject kv) = Return payload
    /\ langTag state kv = Return (tag, state')
    /\ kv' = rewritten kv payload tag.
Proof.
  rewrite rewriteAttrs_eq.
  destruct (encodeObject (collectObject kv)) as [payload|]; [|discriminate].
  cbn [bind]. destruct (langTag state kv) as [[tag st]|]; [|discriminate].
  cbn [bind fst snd]. intros [= <- <-]. exists payload, tag. auto.
Qed.

(** X10.  The rewrite of a line keeps every attribute other than
    [LANGUAGE] and [CHARACTERISTICS], with its value and its quoting, and
    keeps the order of the attributes; [CHARACTERISTICS] and [LANGUAGE]
    come out quoted, at their old place when the line had them and else
    at the end, in that order. *)
Theorem rewriteAttrs_keeps_attributes (state : AllocationState) (kv kv' : AttributeSet)
        (state' : AllocationState) :
  rewriteAttrs state kv = Return (kv', state') ->
  (forall k, k <> lit "LANGUAGE" -> k <> lit "CHARACTERISTICS" ->
             obj_get kv' k = obj_get kv k)
  /\ map fst kv'
     = map fst kv ++ newKey kv (lit "CHARACTERISTICS") ++ newKey kv (lit "LANGUAGE")
  /\ (exists a, obj_get kv' (lit "LANGUAGE") = Some a /\ quoted a = true
                /\ langTag state kv = Return (value a, state'))
  /\ (exists a, obj_get kv' (lit "CHARACTERISTICS") = Some a /\ quoted a = true).
Proof.
  intro H. apply rewriteAttrs_inv in H.
  destruct H as (payload & tag & He & Ht & ->).
  split; [|split; [|split]].
  - intros k Hl Hc. rewrite rewritten_get.
    replace (str_eqb (lit "LANGUAGE") k) with false
      by (symmetry; apply str_eqb_neq; congruence).
    replace (str_eqb (lit "CHARACTERISTICS") k) with false
      by (symmetry; apply str_eqb_neq; congruence).
    reflexivity.
  - apply rewritten_keys.
  - eexists. rewrite rewritten_get. split; [reflexivity|]. split; [reflexivity|exact Ht].
  - eexists. rewrite rewritten_get. split; reflexivity.
Qed.

Lemma rewriteAttrs_keeps_attributes_witness :
  exists kv' state',
    rewriteAttrs [] sampleAttrs = Return (kv', state')
    /\ obj_get kv' (lit "NAME") = obj_get sampleAttrs (lit "NAME")
    /\ map fst kv' = map fst sampleAttrs ++ [lit "CHARACTERISTICS"].
Proof.
  destruct (rewriteAttrs [] sampleAttrs) as [[kv' state']|] eqn:E;
    [|vm_compute in E; discriminate].
  exists kv', state'. split; [reflexivity|].
  destruct (rewriteAttrs_keeps_attributes [] sampleAttrs kv' state' E)
    as (H1 & H2 & _).
  split; [apply H1; discriminate|].
  rewrite H2. reflexivity.
Defined.

Lemma splitOn_join_snoc c v x :
  Forall (fun y => y <> c) x ->
  splitOn c (join [c] (splitOn c v ++ [x])) = splitOn c v ++ [x].
Proof.
  intro Hx. rewrite join_snoc by apply splitOn_nonempty.
  rewrite join_splitOn. cbn [app]. rewrite splitOn_app.
  rewrite (splitOn_none c x Hx). reflexivity.
Qed.

Lemma rewritten_characteristics kv payload tag :
  Forall (fun y => y <> COMMA) payload ->
  characteristicsOf (rewritten kv payload tag)
  = characteristicsOf kv ++ [MARKER ++ payload].
Proof.
  intro Hp.
  assert (Htok : Forall (fun y => y <> COMMA) (MARKER ++ payload)).
  { apply Forall_app. split; [|exact Hp].
    unfold MARKER, COMMA. repeat constructor; discriminate. }
  unfold characteristicsOf at 1. rewrite rewritten_get.
  replace (str_eqb (lit "LANGUAGE") (lit "CHARACTERISTICS")) with false by reflexivity.
  rewrite str_eqb_refl. cbn [value].
  unfold characteristicsOf. destruct (obj_get kv (lit "CHARACTERISTICS")) as [a|].
  - apply splitOn_join_snoc, Htok.
  - cbn [app join]. apply splitOn_none, Htok.
Qed.

(** X11.  After the rewrite of a line the list of characteristics, split
    at its commas, is the old list with one token more at the end: the
    marker followed by the payload of the line.  A line without
    characteristics gets that token alone, and an empty list of
    characteristics stays as an empty first token. *)
Theorem rewriteAttrs_characteristics (state : AllocationState) (kv kv' : AttributeSet)
        (state' : AllocationState) :
  rewriteAttrs state kv = Return (kv', state') ->
  exists payload,
    encodeObject (collectObject kv) = Return payload
    /\ characteristicsOf kv' = characteristicsOf kv ++ [MARKER ++ payload].
Proof.
  intro H. apply rewriteAttrs_inv in H.
  destruct H as (payload & tag & He & Ht & ->).
  exists payload. split; [exact He|].
  apply rewritten_characteristics.
  apply encodeObject_payload in He. eapply Forall_impl; [|exact He].
  intros c Hc. apply Hc.
Qed.

Lemma rewriteAttrs_characteristics_witness :
  let kv := [(lit "TYPE", {| value := lit "SUBTITLES"; quoted := false |});
             (lit "CHARACTERISTICS",
              {| value := lit "public.easy-to-read,public.accessibility.describes-video";
                 quoted := true |})] in
  exists kv' state' payload,
    rewriteAttrs [] kv = Return (kv', state')
    /\ characteristicsOf kv'
       = [lit "public.easy-to-read"; lit "public.accessibility.describes-video";
          MARKER ++ payload].
Proof.
  intro kv.
  destruct (rewriteAttrs [] kv) as [[kv' state']|] eqn:E;
    [|vm_compute in E; discriminate].
  destruct (rewriteAttrs_characteristics [] kv kv' state' E) as (payload & _ & H).
  exists kv', state', payload. split; [reflexivity|]. rewrite H. reflexivity.
Defined.

(* ================================================================= *)
(** ** Reading a rewritten line back *)

Lemma encodeObject_base64 obj payload :
  encodeObject obj = Return payload -> forallb base64Char payload = true.
Proof.
  unfold encodeObject, btoa.
  destruct (encodeURIComponent (JSON_stringify obj)) as [e|]; [|discriminate].
  cbn [bind]. destruct (forallb _ _); [|discriminate].
  intros [= <-]. apply b64encode_base64.
Qed.

Lemma forallb_Forall {A} (f : A -> bool) l :
  forallb f l = true <-> Forall (fun x => f x = true) l.
Proof. rewrite forallb_forall, Forall_forall. reflexivity. Qed.

(** The characters a quoted value may hold. *)
Lemma quotable_marker :
  Forall (fun c => isLineTerminator c = false /\ notQuote c = true) MARKER.
Proof. unfold MARKER. repeat constructor. Qed.

Lemma rewritten_wf es payload tag :
  Forall wf_attr es ->
  quoteFree es (lit "CHARACTERISTICS") ->
  Forall (fun c => isLineTerminator c = false /\ notQuote c = true) payload ->
  Forall (fun c => isLineTerminator c = false /\ notQuote c = true) tag ->
  Forall wf_attr (rewritten es payload tag).
Proof.
  intros Hwf Hqc Hp Ht.
  assert (Hvalue : forall v, Forall (fun c => isLineTerminator c = false /\ notQuote c = true) v ->
                             dots v /\ forallb notQuote v = true).
  { intros v Hv. split.
    - eapply Forall_impl; [|exact Hv]. intros c Hc. apply Hc.
    - apply forallb_Forall. eapply Forall_impl; [|exact Hv]. intros c Hc. apply Hc. }
  unfold rewritten. apply obj_set_Forall; [apply obj_set_Forall; [exact Hwf|]|].
  - unfold wf_attr. cbn [fst snd value quoted].
    split; [split; [discriminate|reflexivity]|].
    apply Hvalue. apply join_Forall; [repeat constructor|].
    apply Forall_app. split.
    + unfold characteristicsOf. unfold quoteFree, attrOr in Hqc.
      destruct (obj_get es (lit "CHARACTERISTICS")) as [a|] eqn:E; [|constructor].
      apply splitOn_Forall. apply obj_get_In in E.
      rewrite Forall_forall in Hwf. destruct (Hwf _ E) as (_ & Hd & _).
      cbn [snd] in Hd. apply forallb_Forall in Hqc.
      apply Forall_forall. intros c Hc. split.
      * unfold dots in Hd. rewrite Forall_forall in Hd. apply Hd, Hc.
      * rewrite Forall_forall in Hqc. apply Hqc, Hc.
    + constructor; [|constructor]. apply Forall_app. split; [apply quotable_marker|exact Hp].
  - unfold wf_attr. cbn [fst snd value quoted].
    split; [split; [discriminate|reflexivity]|]. apply Hvalue, Ht.
Qed.

Lemma langOf_quotable es :
  Forall wf_attr es -> quoteFree es (lit "LANGUAGE") ->
  Forall (fun c => isLineTerminator c = false /\ notQuote c = true) (langOf es).
Proof.
  intros Hwf Hq. unfold quoteFree in Hq. unfold langOf. unfold attrOr in *.
  destruct (obj_get es (lit "LANGUAGE")) as [a|] eqn:E; [|repeat constructor].
  apply obj_get_In in E. rewrite Forall_forall in Hwf.
  destruct (Hwf _ E) as (_ & Hd & _). cbn [snd] in Hd.
  apply forallb_Forall in Hq. apply Forall_forall. intros c Hc. split.
  - unfold dots in Hd. rewrite Forall_forall in Hd. apply Hd, Hc.
  - rewrite Forall_forall in Hq. apply Hq, Hc.
Qed.

Lemma langTag_quotable state kv tag state' :
  langTag state kv = Return (tag, state') ->
  Forall (fun c => isLineTerminator c = false /\ notQuote c = true) (langOf kv) ->
  Forall (fun c => isLineTerminator c = false /\ notQuote c = true) tag.
Proof.
  intros Ht Hl. destruct (langTag_tag _ _ _ _ Ht) as (suffix & -> & _).
  revert Ht. unfold langTag. fold (langOf kv).
  destruct (match obj_get state (langKey kv) with
            | Some n => if n =? 0 then (0, obj_set state (langKey kv) 1)
                        else (n, obj_set state (langKey kv) (n + 1))
            | None => (0, obj_set state (langKey kv) 1)
            end) as [tagSeq st].
  destruct (tagSeq =? 0).
  - intros [= <- _]. exact Hl.
  - destruct (N.ltb_spec 26 tagSeq); [discriminate|].
    intros [= <- _]. apply Forall_app. split; [exact Hl|].
    assert (Hc : isLineTerminator (64 + tagSeq) = false /\ notQuote (64 + tagSeq) = true).
    { split.
      - unfold isLineTerminator. cbn [existsb].
        repeat (replace (64 + tagSeq =? _) with false by (symmetry; apply N.eqb_neq; lia)).
        reflexivity.
      - unfold notQuote, DQUOTE. apply negb_true_iff, N.eqb_neq. lia. }
    repeat constructor; apply Hc.
Qed.

Lemma parseAttrs_serializeAttrs es :
  Forall wf_attr es -> NoDup (map fst es) -> Forall plainKey (map fst es) ->
  parseAttrs (serializeAttrs es) = es.
Proof.
  intros Hwf Hnd Hpl. unfold parseAttrs.
  rewrite (parseLoop_serialize es []); [reflexivity | exact Hwf | exact Hpl | exact Hnd].
Qed.

(** X12.  A well-formed line of a handled type - its names distinct, none
    of them a number, its language and characteristics free of double
    quotes - is rewritten to a text that the parse loop reads back as
    the rewritten attribute set: the language is the tag, the last
    characteristic is the marker with the payload, and every other
    attribute is as before. *)
Theorem rewriteLine_reparses (state : AllocationState) (es : AttributeSet)
        (line' : jsstring) (state' : AllocationState) :
  Forall wf_attr es -> NoDup (map fst es) -> Forall plainKey (map fst es) ->
  quoteFree es (lit "LANGUAGE") -> quoteFree es (lit "CHARACTERISTICS") ->
  handledType es = true ->
  rewriteLine state (PREFIX ++ serializeAttrs es) = Return (line', state') ->
  exists payload tag,
    encodeObject (collectObject es) = Return payload
    /\ langTag state es = Return (tag, state')
    /\ parseAttrs (slice 13 line') = rewritten es payload tag
    /\ handled line' = true.
Proof.
  intros Hwf Hnd Hpl Hql Hqc Hty Hrw.
  assert (Hparse : parseAttrs (slice 13 (PREFIX ++ serializeAttrs es)) = es).
  { change (slice 13 (PREFIX ++ serializeAttrs es)) with (serializeAttrs es).
    apply parseAttrs_serializeAttrs; assumption. }
  assert (Hh : handled (PREFIX ++ serializeAttrs es) = true).
  { unfold handled. rewrite Hparse, Hty.
    replace (startsWith PREFIX (PREFIX ++ serializeAttrs es)) with true; [reflexivity|].
    symmetry. vm_compute. reflexivity. }
  destruct (rewriteLine_inv _ _ _ _ Hh Hrw) as (payload & tag & He & Ht & ->).
  rewrite Hparse in He, Ht |- *.
  exists payload, tag. split; [exact He|]. split; [exact Ht|].
  assert (Hp : Forall (fun c => isLineTerminator c = false /\ notQuote c = true) payload).
  { apply encodeObject_base64 in He. apply forallb_Forall in He.
    eapply Forall_impl; [|exact He]. intros c Hc.
    apply base64Char_token in Hc. destruct Hc as (_ & Hq & Hl & _).
    split; [exact Hl|]. unfold notQuote. apply negb_true_iff, N.eqb_neq, Hq. }
  assert (Htag : Forall (fun c => isLineTerminator c = false /\ notQuote c = true) tag).
  { apply (langTag_quotable _ _ _ _ Ht), langOf_quotable; assumption. }
  assert (Hre : parseAttrs (serializeAttrs (rewritten es payload tag))
                = rewritten es payload tag).
  { apply parseAttrs_serializeAttrs.
    - apply rewritten_wf; assumption.
    - unfold rewritten. apply obj_set_NoDup, obj_set_NoDup, Hnd.
    - rewrite rewritten_keys. apply Forall_app. split; [exact Hpl|].
      unfold newKey. apply Forall_app.
      split; [destruct (obj_get es (lit "CHARACTERISTICS"))
             |destruct (obj_get es (lit "LANGUAGE"))];
        repeat constructor; discriminate. }
  change (slice 13 (PREFIX ++ serializeAttrs (rewritten es payload tag)))
    with (serializeAttrs (rewritten es payload tag)).
  split; [exact Hre|].
  unfold handled.
  change (slice 13 (PREFIX ++ serializeAttrs (rewritten es payload tag)))
    with (serializeAttrs (rewritten es payload tag)).
  rewrite Hre.
  replace (startsWith PREFIX (PREFIX ++ serializeAttrs (rewritten es payload tag)))
    with true by (symmetry; vm_compute; reflexivity).
  cbn [andb]. revert Hty. unfold handledType. rewrite rewritten_get.
  replace (str_eqb (lit "LANGUAGE") (lit "TYPE")) with false by reflexivity.
  replace (str_eqb (lit "CHARACTERISTICS") (lit "TYPE")) with false by reflexivity.
  auto.
Qed.

Lemma rewriteLine_reparses_witness :
  exists line' state' payload tag,
    rewriteLine [] (PREFIX ++ serializeAttrs sampleAttrs) = Return (line', state')
    /\ parseAttrs (slice 13 line') = rewritten sampleAttrs payload tag
    /\ tag = lit "en".
Proof.
  destruct (rewriteLine [] (PREFIX ++ serializeAttrs sampleAttrs))
    as [[line' state']|] eqn:E; [|vm_compute in E; discriminate].
  destruct (rewriteLine_reparses [] sampleAttrs line' state' sampleAttrs_wf
              (proj1 sampleAttrs_keys) (proj2 sampleAttrs_keys)
              eq_refl eq_refl eq_refl E)
    as (payload & tag & _ & Ht & Hp & _).
  exists line', state', payload, tag.
  split; [reflexivity|]. split; [exact Hp|].
  vm_compute in Ht. injection Ht as Ht _. rewrite <- Ht. reflexivity.
Defined.

(* ================================================================= *)
(** ** C8: the language a rewritten line carries *)

Lemma rewritten_reparses state es payload tag state' :
  Forall wf_attr es -> NoDup (map fst es) -> Forall plainKey (map fst es) ->
  quoteFree es (lit "LANGUAGE") -> quoteFree es (lit "CHARACTERISTICS") ->
  encodeObject (collectObject es) = Return payload ->
  langTag state es = Return (tag, state') ->
  parseAttrs (serializeAttrs (rewritten es payload tag)) = rewritten es payload tag.
Proof.
  intros Hwf Hnd Hpl Hql Hqc He Ht.
  assert (Hp : Forall (fun c => isLineTerminator c = false /\ notQuote c = true) payload).
  { apply encodeObject_base64 in He. apply forallb_Forall in He.
    eapply Forall_impl; [|exact He]. intros c Hc.
    apply base64Char_token in Hc. destruct Hc as (_ & Hq & Hl & _).
    split; [exact Hl|]. unfold notQuote. apply negb_true_iff, N.eqb_neq, Hq. }
  assert (Htag : Forall (fun c => isLineTerminator c = false /\ notQuote c = true) tag).
  { apply (langTag_quotable _ _ _ _ Ht), langOf_quotable; assumption. }
  apply parseAttrs_serializeAttrs.
  - apply rewritten_wf; assumption.
  - unfold rewritten. apply obj_set_NoDup, obj_set_NoDup, Hnd.
  - rewrite rewritten_keys. apply Forall_app. split; [exact Hpl|].
    unfold newKey. apply Forall_app.
    split; [destruct (obj_get es (lit "CHARACTERISTICS"))
           |destruct (obj_get es (lit "LANGUAGE"))];
      repeat constructor; discriminate.
Qed.

(** C8, as the code has it.  Take a line that [manifestRewriter]
    rewrote, and let the attributes read from it be well formed - no
    value with a line terminator, no bare value that starts with a
    double quote -, none of them named by a number, and its [LANGUAGE]
    and [CHARACTERISTICS] values free of double quotes.  Then the line
    of the output at the same place, read by the same parse loop, is a
    rendition line of a handled type whose [CHARACTERISTICS] attribute,
    split at the commas, holds the marker followed by a payload, and
    [decodeObject] of that payload returns an object whose [LANGUAGE] is
    the [LANGUAGE] value read from the line before the rewrite (and is
    undefined when the line had none). *)
Theorem manifestRewriter_carries_language (m out : jsstring) :
  wf_string m ->
  manifestRewriter m = Return out ->
  forall i line,
    nth_error (splitLines m) i = Some line ->
    handled line = true ->
    Forall wf_attr (parseAttrs (slice 13 line)) ->
    Forall plainKey (map fst (parseAttrs (slice 13 line))) ->
    quoteFree (parseAttrs (slice 13 line)) (lit "LANGUAGE") ->
    quoteFree (parseAttrs (slice 13 line)) (lit "CHARACTERISTICS") ->
    exists line' chv payload obj,
      nth_error (splitOn LF out) i = Some line'
      /\ handled line' = true
      /\ obj_get (parseAttrs (slice 13 line')) (lit "CHARACTERISTICS")
         = Some {| value := chv; quoted := true |}
      /\ In (MARKER ++ payload) (splitOn COMMA chv)
      /\ decodeObject payload = Return obj
      /\ getProp obj (lit "LANGUAGE")
         = Return match obj_get (parseAttrs (slice 13 line)) (lit "LANGUAGE") with
                  | Some a => JStr a.(value)
                  | None => JUndefined
                  end.
Proof.
  intros Hwf H i line Hi Hh Hattrs Hpl Hql Hqc.
  apply manifestRewriter_inv in H. destruct H as (ls & E & _ & _ & _ & ->).
  destruct (rewriteLines_nth _ _ _ _ _ E Hi) as (st & line' & st' & Hr & Hn).
  apply rewriteLine_inv in Hr; [|exact Hh].
  destruct Hr as (payload & tag & He & Ht & ->).
  set (kv := parseAttrs (slice 13 line)) in *.
  assert (Hkv : attrsIn code_unit kv).
  { apply parseAttrs_attrsIn, skipn_Forall.
    pose proof (wf_splitLines m Hwf) as Hall. rewrite Forall_forall in Hall.
    apply Hall. apply (nth_error_In _ _ Hi). }
  destruct (payloadOf_spec kv Hkv) as [He' Hd].
  assert (Hpay : payloadOf kv = payload) by congruence. subst payload.
  assert (Hnd : NoDup (map fst kv)).
  { apply (parseLoop_invariant (List.length (slice 13 line)) [] (slice 13 line));
      [constructor | constructor | reflexivity]. }
  assert (Hre : parseAttrs (slice 13 (PREFIX ++ serializeAttrs (rewritten kv (payloadOf kv) tag)))
                = rewritten kv (payloadOf kv) tag).
  { change (slice 13 (PREFIX ++ serializeAttrs (rewritten kv (payloadOf kv) tag)))
      with (serializeAttrs (rewritten kv (payloadOf kv) tag)).
    apply (rewritten_reparses st kv (payloadOf kv) tag st'); assumption. }
  exists (PREFIX ++ serializeAttrs (rewritten kv (payloadOf kv) tag)),
    (join [COMMA] (characteristicsOf kv ++ [MARKER ++ payloadOf kv])),
    (payloadOf kv), (jsonOf (collectObject kv)).
  split; [exact Hn|]. split; [|split; [|split; [|split]]].
  - unfold handled. rewrite Hre.
    replace (startsWith PREFIX (PREFIX ++ serializeAttrs (rewritten kv (payloadOf kv) tag)))
      with true by (symmetry; vm_compute; reflexivity).
    cbn [andb]. unfold handled in Hh. apply andb_true_iff in Hh. destruct Hh as [_ Hty].
    fold kv in Hty. revert Hty. unfold handledType. rewrite rewritten_get.
    replace (str_eqb (lit "LANGUAGE") (lit "TYPE")) with false by reflexivity.
    replace (str_eqb (lit "CHARACTERISTICS") (lit "TYPE")) with false by reflexivity.
    auto.
  - rewrite Hre, rewritten_get.
    replace (str_eqb (lit "LANGUAGE") (lit "CHARACTERISTICS")) with false by reflexivity.
    rewrite str_eqb_refl. reflexivity.
  - rewrite characteristics_split.
    + apply in_or_app. right. left. reflexivity.
    + apply token_no_comma. apply (encodeObject_payload _ _ He).
  - exact Hd.
  - apply getProp_collectObject.
Qed.

Lemma manifestRewriter_carries_language_witness :
  exists line' chv payload obj,
    nth_error (splitOn LF exampleRewritten) 2 = Some line'
    /\ handled line' = true
    /\ obj_get (parseAttrs (slice 13 line')) (lit "CHARACTERISTICS")
       = Some {| value := chv; quoted := true |}
    /\ In (MARKER ++ payload) (splitOn COMMA chv)
    /\ decodeObject payload = Return obj
    /\ getProp obj (lit "LANGUAGE") = Return (JStr (lit "en")).
Proof.
  assert (H1 : wf_string exampleManifest) by exact exampleManifest_wf.
  assert (H2 : manifestRewriter exampleManifest = Return exampleRewritten)
    by (vm_compute; reflexivity).
  assert (H3 : Forall wf_attr (parseAttrs (slice 13 (mediaLine "AUDIO" "g" "en")))).
  { repeat constructor; apply wf_attr_check; reflexivity. }
  assert (H4 : Forall plainKey (map fst (parseAttrs (slice 13 (mediaLine "AUDIO" "g" "en"))))).
  { repeat constructor; (discriminate || reflexivity). }
  exact (manifestRewriter_carries_language exampleManifest exampleRewritten H1 H2
           2%nat (mediaLine "AUDIO" "g" "en") eq_refl eq_refl H3 H4 eq_refl eq_refl).
Defined.

(** C8 as stated fails on a line whose bare [CHARACTERISTICS] value
    holds a double quote.  The rewrite writes the value between double
    quotes as it is, so the parse loop reads the rewritten line back
    with the text before that quote as the whole value and stops at
    what follows: the [CHARACTERISTICS] read from the rewritten line
    hold no token with the marker. *)
Lemma manifestRewriter_quote_hides_token :
  let line := lit "#EXT-X-MEDIA:TYPE=SUBTITLES,CHARACTERISTICS=p" ++ [DQUOTE]
              ++ lit "q,LANGUAGE=" ++ dq "en" in
  let line' := lit "#EXT-X-MEDIA:TYPE=SUBTITLES,CHARACTERISTICS="
               ++ [DQUOTE] ++ lit "p" ++ [DQUOTE]
               ++ lit "q,xyzzy.obj.eyJMQU5HVUFHRSI6ImVuIn0=" ++ [DQUOTE]
               ++ lit ",LANGUAGE=" ++ dq "en" in
  handled line = true
  /\ obj_get (parseAttrs (slice 13 line)) (lit "CHARACTERISTICS")
     = Some {| value := lit "p" ++ [DQUOTE] ++ lit "q"; quoted := false |}
  /\ manifestRewriter line = Return line'
  /\ parseAttrs (slice 13 line')
     = [(lit "TYPE", {| value := lit "SUBTITLES"; quoted := false |});
        (lit "CHARACTERISTICS", {| value := lit "p"; quoted := true |})]
  /\ characteristicsOf (parseAttrs (slice 13 line')) = [lit "p"]
  /\ existsb (startsWith MARKER) (characteristicsOf (parseAttrs (slice 13 line')))
     = false.
Proof.
  cbv zeta. repeat split; vm_compute; reflexivity.
Qed.

(* ================================================================= *)
(** ** A manifest the rewriter has nothing to do with *)

Lemma splitOn_cons c x s :
  splitOn c (x :: s) = if x =? c then [] :: splitOn c s else consHead x (splitOn c s).
Proof.
  cbn [splitOn]. destruct (x =? c); [reflexivity|].
  unfold consHead. destruct (splitOn c s); reflexivity.
Qed.

Lemma splitLines_splitOn m : hasCRLF m = false -> splitLines m = splitOn LF m.
Proof.
  induction m as [|c m IH]; [reflexivity|].
  cbn [hasCRLF]. intro H. apply orb_false_iff in H. destruct H as [Hc H].
  rewrite splitOn_cons. cbn [splitLines]. rewrite (IH H).
  destruct (c =? LF); [reflexivity|].
  destruct m as [|d m]; [reflexivity|].
  cbn [headIs] in Hc. rewrite Hc. reflexivity.
Qed.

(** X13.  A manifest in which no carriage return stands before a line
    feed, and none of whose lines is a rendition of a handled type,
    comes back from the rewriter as it went in, character for
    character. *)
Theorem manifestRewriter_identity (m : jsstring) :
  hasCRLF m = false ->
  forallb (fun line => negb (handled line)) (splitOn LF m) = true ->
  manifestRewriter m = Return m.
Proof.
  intros Hcr Hlines. unfold manifestRewriter.
  rewrite (splitLines_splitOn m Hcr).
  rewrite (rewriteLines_all_unhandled _ [] Hlines). cbn [bind].
  rewrite join_splitOn. reflexivity.
Qed.

Lemma manifestRewriter_identity_witness :
  manifestRewriter mixedManifest <> Return mixedManifest
  /\ let m := join [LF] [lit "#EXTM3U"; mediaLine "VIDEO" "g" "en";
                         lit "#EXT-X-STREAM-INF:BANDWIDTH=376205"; [CR; 35];
                         lit "media.1.m3u8"; []] in
     manifestRewriter m = Return m.
Proof.
  split; [vm_compute; discriminate|].
  intro m. apply (manifestRewriter_identity m); reflexivity.
Defined.

(* ================================================================= *)
(** ** The errors of the rewriter *)

Lemma occurrences_bound (n : nat) keys :
  (forall key, (occurrences key keys <= n)%nat)
  \/ (exists key, (n < occurrences key keys)%nat).
Proof.
  destruct (existsb (fun k => (n <? occurrences k keys)%nat) keys) eqn:E.
  - right. apply existsb_exists in E. destruct E as (k & _ & Hk).
    exists k. apply Nat.ltb_lt, Hk.
  - left. intro key. unfold occurrences.
    destruct (filter (str_eqb key) keys) as [|x l] eqn:Ef; [cbn; lia|].
    assert (Hin : In x (filter (str_eqb key) keys)) by (rewrite Ef; left; reflexivity).
    apply filter_In in Hin. destruct Hin as [Hin Hx]. apply str_eqb_eq in Hx. subst x.
    rewrite <- Ef. fold (occurrences key keys).
    destruct (Nat.ltb_spec n (occurrences key keys)) as [Hlt|Hle]; [|exact Hle].
    exfalso. assert (Hex : existsb (fun k => (n <? occurrences k keys)%nat) keys = true).
    { apply existsb_exists. exists key. split; [exact Hin|]. apply Nat.ltb_lt, Hlt. }
    congruence.
Qed.

(** X14.  The only error the rewriter throws is the ReferenceError of
    [langTag], and it throws it only when a key is handled more than 27
    times.  No content of a line - no character, no attribute - makes
    the encoding of the payload or anything else in the rewrite fail. *)
Theorem manifestRewriter_only_error (m : jsstring) (e : error) :
  wf_string m ->
  manifestRewriter m = Throw e ->
  e = ReferenceError
  /\ exists key, (27 < occurrences key (lineKeys (splitLines m)))%nat.
Proof.
  intros Hwf H. unfold manifestRewriter in H.
  destruct (occurrences_bound 27 (lineKeys (splitLines m))) as [Hall | Hex].
  - rewrite (rewriteLines_spec (splitLines m) [] []) in H.
    + discriminate.
    + apply counts_nil.
    + apply wf_splitLines, Hwf.
    + exact Hall.
  - rewrite (rewriteLines_overflow (splitLines m) [] []) in H.
    + cbn [bind] in H. injection H as <-. split; [reflexivity|exact Hex].
    + apply counts_nil.
    + apply wf_splitLines, Hwf.
    + intro key. cbn. lia.
    + exact Hex.
Qed.

Lemma manifestRewriter_only_error_witness :
  let m := join [LF] (repeat (lit "#EXT-X-MEDIA:TYPE=AUDIO") 28) in
  exists key, (27 < occurrences key (lineKeys (splitLines m)))%nat.
Proof.
  intro m.
  assert (Hwf : wf_string m) by (apply wf_string_check; vm_compute; reflexivity).
  assert (H : manifestRewriter m = Throw ReferenceError) by (vm_compute; reflexivity).
  exact (proj2 (manifestRewriter_only_error m ReferenceError Hwf H)).
Defined.

(* ================================================================= *)
(** ** From a rewritten line to its track *)

Lemma getProp_fieldOf kv k :
  In k [lit "LANGUAGE"; lit "NAME"; lit "FORCED"; lit "CHANNELS"] ->
  getProp (jsonOf (collectObject kv)) k = Return (fieldOf kv k).
Proof.
  intro Hk. rewrite collectObject_entries. unfold entryOf, jsonOf, getProp, fieldOf.
  cbn [In] in Hk.
  destruct Hk as [<- | [<- | [<- | [<- | []]]]];
    destruct (obj_get kv (lit "LANGUAGE")), (obj_get kv (lit "NAME")),
      (obj_get kv (lit "FORCED")), (obj_get kv (lit "CHANNELS")); reflexivity.
Qed.

Lemma findMarker_app pre x post : forall k,
  existsb (startsWith MARKER) pre = false -> startsWith MARKER x = true ->
  findMarker (pre ++ x :: post) k = Some (k + List.length pre)%nat.
Proof.
  induction pre as [|r pre IH]; intros k Hpre Hx; cbn [app findMarker List.length].
  - rewrite Hx. f_equal. lia.
  - cbn [existsb] in Hpre. apply orb_false_iff in Hpre. destruct Hpre as [Hr Hpre].
    rewrite Hr, (IH (S k) Hpre Hx). f_equal. lia.
Qed.

Lemma splice1_app (pre : list jsstring) x post :
  splice1 (List.length pre) (pre ++ x :: post) = pre ++ post.
Proof.
  unfold splice1. rewrite firstn_app, firstn_all, Nat.sub_diag, firstn_O, app_nil_r.
  change (S (List.length pre)) with (1 + List.length pre)%nat.
  rewrite skipn_app.
  replace (1 + List.length pre - List.length pre)%nat with 1%nat by lia.
  rewrite skipn_all2 by lia. reflexivity.
Qed.

Lemma startsWith_app p s : startsWith p (p ++ s) = true.
Proof.
  induction p as [|c p IH]; [reflexivity|]. cbn [app startsWith].
  rewrite N.eqb_refl. exact IH.
Qed.

(** The update of a track that carries the token of the line [kv]. *)
Lemma doTrackUpdate_payloadOf (kv : AttributeSet) (t : track)
        (pre post : list jsstring) :
  attrsIn code_unit kv ->
  roles t = Some (pre ++ (MARKER ++ payloadOf kv) :: post) ->
  existsb (startsWith MARKER) pre = false ->
  stringOrAbsent (language t) ->
  doTrackUpdate t = Return (updatedTrack kv t (pre ++ post)).
Proof.
  intros Hkv Hr Hpre Hlang.
  destruct (payloadOf_spec kv Hkv) as [_ Hdec].
  unfold doTrackUpdate. rewrite Hr.
  rewrite (findMarker_app pre _ post 0 Hpre (startsWith_app MARKER _)).
  cbn [Nat.add]. rewrite nth_middle.
  change (slice 10 (MARKER ++ payloadOf kv)) with (payloadOf kv).
  rewrite Hdec. cbn [bind].
  assert (Hlanguage :
            updateLanguage (jsonOf (collectObject kv)) t
            = Return {| language := language (updatedTrack kv t (pre ++ post));
                        name := name t; forced := forced t;
                        channelCount := channelCount t; roles := roles t;
                        others := others t |}).
  { unfold updateLanguage. rewrite getProp_fieldOf by (cbn; auto). cbn [bind].
    unfold updatedTrack. cbn [language].
    destruct (toBoolean (fieldOf kv (lit "LANGUAGE"))); [reflexivity|].
    destruct t as [l n f c r o]. cbn [language name forced channelCount roles others] in *.
    destruct l as [| |b|? ? ?|s|?|?]; try contradiction; cbn [toBoolean]; try reflexivity.
    destruct s as [|x s]; [reflexivity|].
    destruct (startsWith (lit "und") (x :: s)); reflexivity. }
  rewrite Hlanguage. cbn [bind].
  rewrite !getProp_fieldOf by (cbn; auto 6). cbn [bind].
  cbn [language name forced channelCount roles others].
  unfold updatedTrack. cbn [language].
  assert (Hsplice : forall f : bool,
            splice1 (List.length pre)
              (if f then (pre ++ (MARKER ++ payloadOf kv) :: post) ++ [lit "forced_subtitle"]
               else pre ++ (MARKER ++ payloadOf kv) :: post)
            = if f then (pre ++ post) ++ [lit "forced_subtitle"] else pre ++ post).
  { intros [|].
    - rewrite <- !app_assoc. cbn [app]. apply splice1_app.
    - apply splice1_app. }
  rewrite Hsplice. reflexivity.
Qed.

Lemma audioAttrs_wf : attrsIn code_unit audioAttrs.
Proof.
  apply Forall_forall. intros e He.
  split; apply wf_string_check;
    repeat (destruct He as [<- | He]; [reflexivity|]); destruct He.
Qed.


Lemma payloadOf_eq kv payload :
  encodeObject (collectObject kv) = Return payload -> payloadOf kv = payload.
Proof. intro H. unfold payloadOf. rewrite H. reflexivity. Qed.

Lemma startsWith_und_app s : startsWith (lit "und") (lit "und" ++ s) = true.
Proof. reflexivity. Qed.

(** X15.  The way of a language through the receiver.  When a line is
    rewritten and the player reports the track of that line with the
    tag as its language and the rewritten characteristics as its roles,
    the update gives the track the data of the line and the roles the
    line had.  A language of the line that is not empty comes back,
    whatever tag it was given; the language of a line without language,
    which the rewrite sets to [und], becomes [null]. *)
Theorem rewrite_then_update (state : AllocationState) (kv kv' : AttributeSet)
        (state' : AllocationState) (t : track) :
  attrsIn code_unit kv ->
  existsb (startsWith MARKER) (characteristicsOf kv) = false ->
  rewriteAttrs state kv = Return (kv', state') ->
  language t = JStr (langOf kv') ->
  roles t = Some (characteristicsOf kv') ->
  doTrackUpdate t = Return (updatedTrack kv t (characteristicsOf kv))
  /\ (forall a, obj_get kv (lit "LANGUAGE") = Some a -> value a <> [] ->
        language (updatedTrack kv t (characteristicsOf kv)) = JStr (value a))
  /\ (obj_get kv (lit "LANGUAGE") = None ->
      language (updatedTrack kv t (characteristicsOf kv)) = JNull).
Proof.
  intros Hkv Hpre Hrw Hlang Hroles.
  apply rewriteAttrs_inv in Hrw. destruct Hrw as (payload & tag & He & Ht & ->).
  assert (Hch : characteristicsOf (rewritten kv payload tag)
                = characteristicsOf kv ++ [MARKER ++ payloadOf kv]).
  { rewrite (payloadOf_eq kv payload He). apply rewritten_characteristics.
    apply encodeObject_payload in He. eapply Forall_impl; [|exact He].
    intros c Hc. apply Hc. }
  assert (Htag : langOf (rewritten kv payload tag) = tag).
  { unfold langOf, attrOr. rewrite rewritten_get, str_eqb_refl. reflexivity. }
  rewrite Hch in Hroles. rewrite Htag in Hlang.
  split; [|split].
  - assert (Hs : stringOrAbsent (language t)) by (rewrite Hlang; exact I).
    pose proof (doTrackUpdate_payloadOf kv t (characteristicsOf kv) []
                  Hkv Hroles Hpre Hs) as H.
    rewrite app_nil_r in H. exact H.
  - intros a Ha Hne. unfold updatedTrack. cbn [language]. unfold fieldOf. rewrite Ha.
    cbn [toBoolean]. destruct (value a); [contradiction|reflexivity].
  - intro Hnone. unfold updatedTrack. cbn [language]. unfold fieldOf. rewrite Hnone.
    cbn [toBoolean]. rewrite Hlang.
    destruct (langTag_tag _ _ _ _ Ht) as (suffix & -> & _).
    unfold langOf, attrOr. rewrite Hnone. rewrite startsWith_und_app. reflexivity.
Qed.

Lemma rewrite_then_update_witness :
  exists kv' state',
    rewriteAttrs [(lit "audio/ac-3.en", 1)] audioAttrs = Return (kv', state')
    /\ langOf kv' = lit "en-XA"
    /\ doTrackUpdate {| language := JStr (langOf kv'); name := JUndefined;
                        forced := JUndefined; channelCount := JNum false 6 0;
                        roles := Some (characteristicsOf kv'); others := [] |}
       = Return {| language := JStr (lit "en");
                   name := JStr (lit "English - 5.1 Channel");
                   forced := JUndefined; channelCount := JStr (lit "6");
                   roles := None; others := [] |}.
Proof.
  destruct (rewriteAttrs [(lit "audio/ac-3.en", 1)] audioAttrs)
    as [[kv' state']|] eqn:E; [|vm_compute in E; discriminate].
  exists kv', state'. split; [reflexivity|].
  destruct (rewrite_then_update _ audioAttrs kv' state'
              {| language := JStr (langOf kv'); name := JUndefined;
                 forced := JUndefined; channelCount := JNum false 6 0;
                 roles := Some (characteristicsOf kv'); others := [] |}
              audioAttrs_wf eq_refl E eq_refl eq_refl) as (H & _ & _).
  split.
  - vm_compute in E. injection E as <- _. reflexivity.
  - rewrite H. reflexivity.
Defined.



(* ================================================================= *)
(** ** One marked role at a time *)

Lemma findMarker_split rs : forall k i,
  findMarker rs k = Some i ->
  exists pre x post,
    rs = pre ++ x :: post /\ i = (k + List.length pre)%nat
    /\ existsb (startsWith MARKER) pre = false /\ startsWith MARKER x = true.
Proof.
  induction rs as [|r rs IH]; intros k i H; cbn [findMarker] in H; [discriminate|].
  destruct (startsWith MARKER r) eqn:E.
  - injection H as <-. exists [], r, rs. cbn [app List.length]. rewrite Nat.add_0_r. auto.
  - destruct (IH _ _ H) as (pre & x & post & -> & -> & Hpre & Hx).
    exists (r :: pre), x, post. cbn [app List.length existsb]. rewrite E, Hpre.
    repeat split; [lia|exact Hx].
Qed.

Lemma findMarker_none_inv rs : forall k,
  findMarker rs k = None -> existsb (startsWith MARKER) rs = false.
Proof.
  induction rs as [|r rs IH]; intros k H; [reflexivity|].
  cbn [findMarker] in H. cbn [existsb].
  destruct (startsWith MARKER r); [discriminate|]. apply (IH _ H).
Qed.

Lemma filter_none (f : jsstring -> bool) l : existsb f l = false -> filter f l = [].
Proof.
  induction l as [|x l IH]; [reflexivity|]. cbn [existsb filter]. intro H.
  apply orb_false_iff in H. destruct H as [Hx H]. rewrite Hx. apply IH, H.
Qed.

Lemma existsb_filter (f : jsstring -> bool) l : filter f l = [] -> existsb f l = false.
Proof.
  induction l as [|x l IH]; [reflexivity|]. cbn [existsb filter].
  destruct (f x); [discriminate|]. exact IH.
Qed.

Lemma markerCount_roles t rs :
  markerCount {| language := language t; name := name t; forced := forced t;
                 channelCount := channelCount t;
                 roles := match rs with [] => None | _ :: _ => Some rs end;
                 others := others t |}
  = List.length (filter (startsWith MARKER) rs).
Proof. unfold markerCount. cbn [roles]. destruct rs; reflexivity. Qed.

Lemma doTrackUpdate_roles t t' rs i :
  roles t = Some rs -> findMarker rs 0 = Some i ->
  doTrackUpdate t = Return t' ->
  exists extra,
    roles t' = match splice1 i (rs ++ extra) with
               | [] => None
               | r :: rs' => Some (r :: rs')
               end
    /\ (extra = [] \/ extra = [lit "forced_subtitle"]).
Proof.
  intros Hr Hi. unfold doTrackUpdate. rewrite Hr, Hi.
  destruct (decodeObject _) as [obj|]; [|discriminate]. cbn [bind].
  destruct (updateLanguage obj t) as [t1|]; [|discriminate]. cbn [bind].
  destruct (getProp obj (lit "NAME")) as [n|]; [|discriminate]. cbn [bind].
  destruct (getProp obj (lit "FORCED")) as [f|]; [|discriminate]. cbn [bind].
  destruct (getProp obj (lit "CHANNELS")) as [c|]; [|discriminate]. cbn [bind].
  intros [= <-]. cbn [roles]. destruct (toBoolean f).
  - exists [lit "forced_subtitle"].
    split; [destruct (splice1 i (rs ++ [lit "forced_subtitle"])); reflexivity|auto].
  - exists []. rewrite app_nil_r.
    split; [destruct (splice1 i rs); reflexivity|auto].
Qed.

(** X17.  An update that returns takes away one marked role, the first,
    and no more: the number of marked roles goes down by one, or stays
    at zero.  A track with at most one marked role has none afterwards,
    and a second update leaves it as it is. *)
Theorem doTrackUpdate_one_marker (t t' : track) :
  doTrackUpdate t = Return t' ->
  markerCount t' = pred (markerCount t)
  /\ ((markerCount t <= 1)%nat -> doTrackUpdate t' = Return t').
Proof.
  intro H.
  assert (Hcount : markerCount t' = pred (markerCount t)).
  { destruct (roles t) as [rs|] eqn:Hr.
    - destruct (findMarker rs 0) as [i|] eqn:Hi.
      + destruct (doTrackUpdate_roles t t' rs i Hr Hi H) as (extra & Hr' & Hextra).
        destruct (findMarker_split rs 0 i Hi) as (pre & x & post & -> & -> & Hpre & Hx).
        cbn [Nat.add] in Hr'. rewrite <- app_assoc in Hr'. cbn [app] in Hr'.
        rewrite splice1_app in Hr'.
        unfold markerCount. rewrite Hr, Hr'.
        rewrite filter_app. cbn [filter]. rewrite Hx, (filter_none _ pre Hpre).
        cbn [app List.length pred].
        assert (Hf : filter (startsWith MARKER) (pre ++ post ++ extra)
                     = filter (startsWith MARKER) post).
        { rewrite !filter_app, (filter_none _ pre Hpre).
          destruct Hextra as [-> | ->]; cbn [filter app]; [apply app_nil_r|].
          replace (startsWith MARKER (lit "forced_subtitle")) with false by reflexivity.
          apply app_nil_r. }
        rewrite <- Hf. destruct (pre ++ post ++ extra); reflexivity.
      + unfold doTrackUpdate in H. rewrite Hr, Hi in H. injection H as <-.
        unfold markerCount. rewrite Hr.
        rewrite (filter_none _ rs (findMarker_none_inv rs 0 Hi)). reflexivity.
    - unfold doTrackUpdate in H. rewrite Hr in H. injection H as <-.
      unfold markerCount. rewrite Hr. reflexivity. }
  split; [exact Hcount|]. intro Hle.
  apply doTrackUpdate_no_marker. unfold hasMarker.
  unfold markerCount in Hcount at 1. destruct (roles t') as [rs'|]; [|reflexivity].
  apply existsb_filter. destruct (filter (startsWith MARKER) rs'); [reflexivity|].
  cbn [List.length] in Hcount. lia.
Qed.

Lemma doTrackUpdate_one_marker_witness :
  let t := sampleTrack "en-XA"
             [MARKER ++ payloadOf audioAttrs; lit "caption";
              MARKER ++ payloadOf subtitlesAttrs] in
  markerCount t = 2%nat
  /\ exists t', doTrackUpdate t = Return t' /\ markerCount t' = 1%nat
                /\ roles t' = Some [lit "caption"; MARKER ++ payloadOf subtitlesAttrs].
Proof.
  intro t. split; [reflexivity|].
  destruct (doTrackUpdate t) as [t'|] eqn:E; [|vm_compute in E; discriminate].
  exists t'. split; [reflexivity|].
  destruct (doTrackUpdate_one_marker t t' E) as [H _].
  split; [rewrite H; reflexivity|].
  vm_compute in E. injection E as <-. reflexivity.
Defined.

(* ================================================================= *)
(** ** Payloads that are not an object *)

Lemma getProp_notObject v k : notObject v -> getProp v k = Return JUndefined.
Proof. destruct v; try contradiction; reflexivity. Qed.

(** X18.  A payload that decodes to JSON which is not an object - a number,
    a string, a boolean, an array - throws nothing.  The marked role is
    taken away, a language that starts with [und] is cleared, and name,
    mark and channels stay; only [null] makes the update throw, a
    TypeError. *)
Theorem doTrackUpdate_not_object (t : track) (pre post : list jsstring)
        (payload : jsstring) (v : jsval) :
  roles t = Some (pre ++ (MARKER ++ payload) :: post) ->
  existsb (startsWith MARKER) pre = false ->
  decodeObject payload = Return v ->
  (v = JNull -> doTrackUpdate t = Throw TypeError)
  /\ (notObject v -> stringOrAbsent (language t) ->
      doTrackUpdate t
      = Return {| language := match language t with
                              | JStr s => if startsWith (lit "und") s then JNull
                                          else JStr s
                              | l => l
                              end;
                  name := name t; forced := forced t;
                  channelCount := channelCount t;
                  roles := match pre ++ post with
                           | [] => None
                           | _ :: _ => Some (pre ++ post)
                           end;
                  others := others t |}).
Proof.
  intros Hr Hpre Hdec.
  assert (Hstart : doTrackUpdate t
                   = (obj <- Return v ;;
                      t1 <- updateLanguage obj t ;;
                      n <- getProp obj (lit "NAME") ;;
                      let name1 := if toBoolean n then n else name t1 in
                      f <- getProp obj (lit "FORCED") ;;
                      let rs := pre ++ (MARKER ++ payload) :: post in
                      let rs1 := if toBoolean f then rs ++ [lit "forced_subtitle"] else rs in
                      let forced1 := if toBoolean f then JBool true else forced t1 in
                      c <- getProp obj (lit "CHANNELS") ;;
                      let channels1 := if toBoolean c then c else channelCount t1 in
                      let rs2 := splice1 (List.length pre) rs1 in
                      Return {| language := language t1; name := name1;
                                forced := forced1; channelCount := channels1;
                                roles := match rs2 with [] => None | _ :: _ => Some rs2 end;
                                others := others t1 |})).
  { unfold doTrackUpdate. rewrite Hr.
    rewrite (findMarker_app pre _ post 0 Hpre (startsWith_app MARKER _)).
    cbn [Nat.add]. rewrite nth_middle.
    change (slice 10 (MARKER ++ payload)) with payload.
    rewrite Hdec. reflexivity. }
  rewrite Hstart. cbn [bind]. split.
  - intros ->. reflexivity.
  - intros Hv Hlang. unfold updateLanguage.
    rewrite !(getProp_notObject v _ Hv). cbn [bind toBoolean].
    assert (Hl : (if toBoolean (language t)
                  then match language t with
                       | JStr s =>
                           if startsWith (lit "und") s
                           then Return {| language := JNull; name := name t;
                                          forced := forced t;
                                          channelCount := channelCount t;
                                          roles := roles t; others := others t |}
                           else Return t
                       | _ => Throw TypeError
                       end
                  else Return t)
                 = Return {| language := match language t with
                                         | JStr s => if startsWith (lit "und") s
                                                     then JNull else JStr s
                                         | l => l
                                         end;
                             name := name t; forced := forced t;
                             channelCount := channelCount t;
                             roles := roles t; others := others t |}).
    { destruct t as [l n f c r o]. cbn [language name forced channelCount roles others] in *.
      destruct l as [| |b|? ? ?|s|?|?]; try contradiction; cbn [toBoolean]; try reflexivity.
      destruct s as [|x s]; [reflexivity|].
      destruct (startsWith (lit "und") (x :: s)); reflexivity. }
    rewrite Hl. cbn [bind language name forced channelCount roles others].
    rewrite splice1_app. reflexivity.
Qed.

Lemma doTrackUpdate_not_object_witness :
  decodeObject (lit "NDI=") = Return (JNum false 42 0)
  /\ doTrackUpdate (sampleTrack "und-XA" [lit "caption"; lit "xyzzy.obj.NDI="])
     = Return {| language := JNull; name := JUndefined; forced := JUndefined;
                 channelCount := JNum false 2 0; roles := Some [lit "caption"];
                 others := [(lit "trackId", JNum false 1 0)] |}.
Proof.
  assert (Hd : decodeObject (lit "NDI=") = Return (JNum false 42 0)) by reflexivity.
  split; [exact Hd|].
  destruct (doTrackUpdate_not_object
              (sampleTrack "und-XA" [lit "caption"; lit "xyzzy.obj.NDI="])
              [lit "caption"] [] (lit "NDI=") (JNum false 42 0)
              eq_refl eq_refl Hd) as [_ H].
  rewrite (H I I). reflexivity.
Defined.

(* ================================================================= *)
(** ** The tracks of a message *)

Lemma updateLanguage_others obj t t' :
  updateLanguage obj t = Return t' -> others t' = others t.
Proof.
  unfold updateLanguage. destruct (getProp obj (lit "LANGUAGE")) as [l|]; [|discriminate].
  cbn [bind]. destruct (toBoolean l); [intros [= <-]; reflexivity|].
  destruct (toBoolean (language t)); [|intros [= <-]; reflexivity].
  destruct (language t); try discriminate.
  destruct (startsWith (lit "und") s); intros [= <-]; reflexivity.
Qed.

Lemma doTrackUpdate_others t t' : doTrackUpdate t = Return t' -> others t' = others t.
Proof.
  unfold doTrackUpdate. destruct (roles t) as [rs|]; [|intros [= <-]; reflexivity].
  destruct (findMarker rs 0) as [i|]; [|intros [= <-]; reflexivity].
  destruct (decodeObject _) as [obj|]; [|discriminate]. cbn [bind].
  destruct (updateLanguage obj t) as [t1|] eqn:E; [|discriminate]. cbn [bind].
  destruct (getProp obj (lit "NAME")) as [n|]; [|discriminate]. cbn [bind].
  destruct (getProp obj (lit "FORCED")) as [f|]; [|discriminate]. cbn [bind].
  destruct (getProp obj (lit "CHANNELS")) as [c|]; [|discriminate]. cbn [bind].
  intros [= <-]. cbn [others]. apply (updateLanguage_others _ _ _ E).
Qed.

(** X19.  The updater neither adds, drops nor moves a track, and leaves
    the properties of a track it does not know alone.  Every track of
    the message it returns is the track at the same place as it was or
    as its own update left it, and when no update throws every track is
    updated. *)
Theorem tracksUpdater_tracks (ts : list track) :
  let out := fst (doTracksUpdate ts) in
  tracksUpdater (statusMessage ts) = statusMessage out
  /\ List.length out = List.length ts
  /\ forall i t,
       nth_error ts i = Some t ->
       exists t',
         nth_error out i = Some t'
         /\ others t' = others t
         /\ (t' = t \/ doTrackUpdate t = Return t')
         /\ (snd (doTracksUpdate ts) = None -> doTrackUpdate t = Return t').
Proof.
  cbv zeta. split; [reflexivity|].
  induction ts as [|t0 ts IH]; [split; [reflexivity|]; intros [|i] t H; discriminate|].
  cbn [doTracksUpdate]. destruct (doTrackUpdate t0) as [t0'|e] eqn:E0.
  - destruct (doTracksUpdate ts) as [out e] eqn:Ets. cbn [fst snd] in *.
    destruct IH as [Hlen IH]. split; [cbn [List.length]; congruence|].
    intros [|i] t H; cbn [nth_error] in *.
    + injection H as <-. exists t0'. split; [reflexivity|].
      split; [apply (doTrackUpdate_others _ _ E0)|]. split; [right; exact E0|].
      intros _. exact E0.
    + apply (IH i t H).
  - cbn [fst snd]. split; [reflexivity|]. intros i t H. exists t.
    split; [exact H|]. split; [reflexivity|]. split; [left; reflexivity|discriminate].
Qed.

(* ================================================================= *)
(** ** [interceptPlayerLoad] *)

Section InterceptFacts.
Context {State Args Result : Type}.
Variable interceptor : State -> State * option error.
Variable _load : Args -> State -> State * completion Result.

Lemma loads_intercepted calls : forall s,
  loads interceptor _load calls {| _didIntercept := true; rest := s |}
  = {| _didIntercept := true;
       rest := fold_left (fun s args => fst (_load args s)) calls s |}.
Proof.
  induction calls as [|args calls IH]; intro s; [reflexivity|].
  cbn [loads fold_left]. unfold load at 1. cbn [_didIntercept rest negb].
  destruct (_load args s) as [s' r]. cbn [fst]. apply IH.
Qed.

(** X20.  Over any number of calls of [load] on a new player, the
    interceptor runs once, before the first call of the original
    method, when it does not throw. *)
Theorem loads_intercept_once (s0 s1 : State) (args : Args) (calls : list Args) :
  interceptor s0 = (s1, None) ->
  loads interceptor _load (args :: calls) {| _didIntercept := false; rest := s0 |}
  = {| _didIntercept := true;
       rest := fold_left (fun s a => fst (_load a s)) (args :: calls) s1 |}.
Proof.
  intro Hi. cbn [loads fold_left]. unfold load at 1.
  cbn [_didIntercept rest negb]. rewrite Hi.
  destruct (_load args s1) as [s' r]. cbn [fst]. apply loads_intercepted.
Qed.

(** X21.  While the interceptor throws, every call of [load] throws its
    error, the original method never runs, and the interceptor runs
    again at the next call. *)
Theorem loads_interceptor_throws (calls : list Args) : forall s0 : State,
  (forall s, snd (interceptor s) <> None) ->
  let this := loads interceptor _load calls {| _didIntercept := false; rest := s0 |} in
  this = {| _didIntercept := false;
            rest := fold_left (fun s _ => fst (interceptor s)) calls s0 |}
  /\ forall args, exists e,
       snd (interceptor (rest this)) = Some e
       /\ load interceptor _load args this
          = ({| _didIntercept := false; rest := fst (interceptor (rest this)) |},
             Throw e).
Proof.
  intros s0 Hthrow. cbv zeta.
  assert (Hstep : forall s args,
            exists e, snd (interceptor s) = Some e
                      /\ load interceptor _load args {| _didIntercept := false; rest := s |}
                         = ({| _didIntercept := false; rest := fst (interceptor s) |}, Throw e)).
  { intros s args. specialize (Hthrow s). unfold load. cbn [_didIntercept rest negb].
    destruct (interceptor s) as [s' [e|]]; cbn [snd fst] in *; [|congruence].
    exists e. split; reflexivity. }
  assert (Hloads : forall cs s,
            loads interceptor _load cs {| _didIntercept := false; rest := s |}
            = {| _didIntercept := false;
                 rest := fold_left (fun s _ => fst (interceptor s)) cs s |}).
  { induction cs as [|a cs IH]; intro s; [reflexivity|].
    cbn [loads fold_left]. destruct (Hstep s a) as (e & _ & ->). cbn [fst]. apply IH. }
  split; [apply Hloads|].
  intro args. rewrite Hloads. cbn [rest]. apply Hstep.
Qed.

End InterceptFacts.

Lemma loads_intercept_once_witness :
  let interceptor := fun s : list N => (1 :: s, @None error) in
  let _load := fun (a : N) (s : list N) => (a :: s, Return tt) in
  loads interceptor _load [7; 8; 9] {| _didIntercept := false; rest := [] |}
  = {| _didIntercept := true; rest := [9; 8; 7; 1] |}.
Proof.
  intros interceptor _load.
  exact (loads_intercept_once interceptor _load [] [1] 7 [8; 9] eq_refl).
Defined.

Lemma loads_interceptor_throws_witness :
  let interceptor := fun s : list N => (1 :: s, Some TypeError) in
  let _load := fun (a : N) (s : list N) => (a :: s, Return tt) in
  (forall s, snd (interceptor s) <> None)
  /\ loads interceptor _load [7; 8] {| _didIntercept := false; rest := [] |}
     = {| _didIntercept := false; rest := [1; 1] |}.
Proof.
  intros interceptor _load.
  assert (H : forall s, snd (interceptor s) <> None) by (intro s; discriminate).
  split; [exact H|].
  exact (proj1 (loads_interceptor_throws interceptor _load [7; 8] [] H)).
Defined.

(* ================================================================= *)
(** ** The response filter *)

Lemma endsWith_app base p : endsWith p (base ++ p) = true.
Proof.
  unfold endsWith. rewrite length_app.
  replace (List.length base + List.length p - List.length p)%nat
    with (List.length base + 0)%nat by lia.
  rewrite skipn_app, Nat.add_0_r, skipn_all.
  replace (List.length base - List.length base)%nat with 0%nat by lia.
  cbn [skipn app]. rewrite str_eqb_refl, andb_true_r.
  apply Nat.leb_le. lia.
Qed.

Lemma endsWith_inv p s : endsWith p s = true -> exists base, s = base ++ p.
Proof.
  unfold endsWith. intro H. apply andb_true_iff in H. destruct H as [_ H].
  apply str_eqb_eq in H.
  set (n := (List.length s - List.length p)%nat) in *.
  exists (firstn n s). rewrite <- H. symmetry. apply firstn_skipn.
Qed.

Lemma endsWith_last p s c d :
  p <> [] -> last p d = c -> endsWith p s = true -> last s d = c.
Proof.
  intros Hp Hl H. apply endsWith_inv in H. destruct H as [base ->].
  rewrite last_app_nonempty by exact Hp. exact Hl.
Qed.

Lemma statusRefused_accepted st : statusAccepted st -> statusRefused st = false.
Proof.
  destruct st as [n|]; [|reflexivity]. unfold statusAccepted, statusRefused, statusClass.
  intros [->|H]; [reflexivity|].
  replace (n / 100 =? 2) with true; [apply andb_false_r|].
  symmetry. apply N.eqb_eq. lia.
Qed.

Section ResponseFilterFacts.
Context {D : Type}.
Variable fromUTF8 : D -> completion jsstring.
Variable toUTF8 : jsstring -> completion D.

Lemma responseFilter_other_name (type : requestType) (response : netResponse D) :
  endsWith (lit "master.m3u8") (uri response) = false ->
  endsWith (lit "main.m3u8") (uri response) = false ->
  responseFilter fromUTF8 toUTF8 type response = response.
Proof.
  intros E1 E2. unfold responseFilter. rewrite E1, E2. cbn [negb andb].
  rewrite orb_true_r. reflexivity.
Qed.

(** X22.  The filter leaves alone every response that is not a manifest,
    whose address ends with neither [master.m3u8] nor [main.m3u8], or
    whose status is a positive integer outside 200-299. *)
Theorem responseFilter_ignores (type : requestType) (response : netResponse D) :
  type <> MANIFEST
  \/ (forall base, uri response <> base ++ lit "master.m3u8"
                   /\ uri response <> base ++ lit "main.m3u8")
  \/ (exists n, status response = Some n /\ 0 < n < 2 ^ 53
                 /\ (n < 200 \/ 300 <= n)) ->
  responseFilter fromUTF8 toUTF8 type response = response.
Proof.
  intros H. unfold responseFilter.
  destruct H as [H | [H | (n & Hs & [Hn _] & Hr)]].
  - destruct type; try reflexivity. congruence.
  - fold (responseFilter fromUTF8 toUTF8 type response).
    apply responseFilter_other_name.
    + destruct (endsWith (lit "master.m3u8") (uri response)) eqn:E1; [|reflexivity].
      apply endsWith_inv in E1. destruct E1 as [base E1].
      destruct (H base) as [H1 _]. congruence.
    + destruct (endsWith (lit "main.m3u8") (uri response)) eqn:E2; [|reflexivity].
      apply endsWith_inv in E2. destruct E2 as [base E2].
      destruct (H base) as [_ H2]. congruence.
  - rewrite Hs. unfold statusRefused, statusClass.
    replace (n =? 0) with false by (symmetry; apply N.eqb_neq; lia).
    replace (n / 100 =? 2) with false by (symmetry; apply N.eqb_neq; lia).
    cbn [negb andb]. rewrite orb_true_r. reflexivity.
Qed.

Lemma responseFilter_accepted (response : netResponse D) base :
  uri response = base ++ lit "master.m3u8" \/ uri response = base ++ lit "main.m3u8" ->
  statusAccepted (status response) ->
  responseFilter fromUTF8 toUTF8 MANIFEST response
  = match (s <- fromUTF8 (data response) ;;
           m3u8 <- manifestRewriter s ;;
           toUTF8 m3u8) with
    | Return d => {| uri := uri response; status := status response; data := d |}
    | Throw _ => response
    end.
Proof.
  intros Hu Hs. unfold responseFilter.
  rewrite (statusRefused_accepted _ Hs).
  destruct Hu as [-> | ->]; rewrite endsWith_app; cbn [isManifest negb andb orb].
  - reflexivity.
  - rewrite andb_false_r. reflexivity.
Qed.

(** X23.  When a key of the manifest is handled more than 27 times, the
    rewrite throws inside the filter, the error is caught, and the
    response keeps its data: no line of the manifest is rewritten. *)
Theorem responseFilter_overflow (response : netResponse D) (base m : jsstring) :
  uri response = base ++ lit "master.m3u8" \/ uri response = base ++ lit "main.m3u8" ->
  statusAccepted (status response) ->
  fromUTF8 (data response) = Return m ->
  wf_string m ->
  (exists key, (27 < occurrences key (lineKeys (splitLines m)))%nat) ->
  responseFilter fromUTF8 toUTF8 MANIFEST response = response.
Proof.
  intros Hu Hs Hd Hwf Hover.
  rewrite (responseFilter_accepted response base Hu Hs), Hd.
  cbn [bind]. unfold manifestRewriter.
  rewrite (rewriteLines_overflow (splitLines m) [] []); [reflexivity | | | |].
  - apply counts_nil.
  - apply wf_splitLines, Hwf.
  - intro key. cbn. lia.
  - exact Hover.
Qed.

(** X24.  A manifest response whose address ends with [master.m3u8] or
    [main.m3u8] and whose status is absent, zero or in 200-299 gets the
    rewritten manifest as its data when no key is handled more than 27
    times; when a conversion throws, the data stay. *)
Theorem responseFilter_rewrites (response : netResponse D) (base m : jsstring) :
  uri response = base ++ lit "master.m3u8" \/ uri response = base ++ lit "main.m3u8" ->
  statusAccepted (status response) ->
  fromUTF8 (data response) = Return m ->
  wf_string m ->
  (forall key, (occurrences key (lineKeys (splitLines m)) <= 27)%nat) ->
  responseFilter fromUTF8 toUTF8 MANIFEST response
  = match toUTF8 (join [LF] (expectedLines [] (splitLines m))) with
    | Return d => {| uri := uri response; status := status response; data := d |}
    | Throw _ => response
    end.
Proof.
  intros Hu Hs Hd Hwf Hkeys.
  rewrite (responseFilter_accepted response base Hu Hs), Hd.
  cbn [bind]. unfold manifestRewriter.
  rewrite (rewriteLines_spec (splitLines m) [] []).
  - reflexivity.
  - apply counts_nil.
  - apply wf_splitLines, Hwf.
  - exact Hkeys.
Qed.

End ResponseFilterFacts.

Lemma responseFilter_ignores_witness :
  let response := {| uri := lit "https://h/v/master.m3u8"; status := Some 404;
                     data := lit "Not found" |} in
  responseFilter Return Return MANIFEST response = response.
Proof.
  intro response.
  apply (responseFilter_ignores Return Return MANIFEST response).
  right. right. exists 404. split; [reflexivity|].
  split; [split; [lia|reflexivity]|lia].
Defined.

Lemma responseFilter_overflow_witness :
  let m := join [LF] (repeat (lit "#EXT-X-MEDIA:TYPE=AUDIO") 28) in
  let response := {| uri := lit "https://h/v/main.m3u8"; status := Some 200;
                     data := m |} in
  responseFilter Return Return MANIFEST response = response.
Proof.
  intros m response.
  apply (responseFilter_overflow Return Return response (lit "https://h/v/") m).
  - right. reflexivity.
  - right. cbn. lia.
  - reflexivity.
  - apply wf_string_check. vm_compute. reflexivity.
  - exists (lit "gid.und"). vm_compute. lia.
Defined.

Lemma responseFilter_rewrites_witness :
  responseFilter Return Return MANIFEST
    {| uri := lit "master.m3u8"; status := None; data := exampleManifest |}
  = {| uri := lit "master.m3u8"; status := None; data := exampleRewritten |}.
Proof.
  assert (Hkeys : forall key,
            (occurrences key (lineKeys (splitLines exampleManifest)) <= 27)%nat).
  { intro key. apply Nat.le_trans with (List.length (lineKeys (splitLines exampleManifest))).
    - apply filter_length_le.
    - vm_compute. lia. }
  rewrite (responseFilter_rewrites Return Return
             {| uri := lit "master.m3u8"; status := None; data := exampleManifest |}
             [] exampleManifest (or_introl eq_refl) I eq_refl
             exampleManifest_wf Hkeys).
  vm_compute. reflexivity.
Defined.

(* ================================================================= *)
(** ** The request filter *)

(** X25.  After the request filter a manifest request carries the header
    [x-application] with the value [Notflix], once; every other header,
    also one whose name differs in case only, keeps its value; the
    filter applied twice gives what it gives applied once, and the
    handler of the receiver for recent firmware sets the same header.
    A request of another type keeps its headers. *)
Theorem requestFilter_header (type : requestType) (headers : jsobj jsstring) :
  obj_get (requestFilter MANIFEST headers) (lit "x-application") = Some (lit "Notflix")
  /\ (forall k, k <> lit "x-application" ->
        obj_get (requestFilter MANIFEST headers) k = obj_get headers k)
  /\ requestFilter MANIFEST (requestFilter MANIFEST headers)
     = requestFilter MANIFEST headers
  /\ (obj_get headers (lit "x-application") = None ->
      requestFilter MANIFEST headers
      = headers ++ [(lit "x-application", lit "Notflix")])
  /\ (obj_get headers (lit "x-application") <> None ->
      map fst (requestFilter MANIFEST headers) = map fst headers)
  /\ manifestRequestHandler headers = requestFilter MANIFEST headers
  /\ (type <> MANIFEST -> requestFilter type headers = headers).
Proof.
  assert (Hp : lit "x-application" <> lit "__proto__") by discriminate.
  assert (Hget : obj_get (requestFilter MANIFEST headers) (lit "x-application")
                 = Some (lit "Notflix")).
  { cbn [requestFilter isManifest]. unfold setApplicationHeader.
    rewrite (obj_get_set _ _ _ _ Hp), str_eqb_refl. reflexivity. }
  split; [exact Hget|]. split; [|split; [|split; [|split; [|split]]]].
  - intros k Hk. cbn [requestFilter isManifest]. unfold setApplicationHeader.
    rewrite (obj_get_set _ _ _ _ Hp).
    destruct (str_eqb (lit "x-application") k) eqn:E; [|reflexivity].
    apply str_eqb_eq in E. congruence.
  - revert Hget. cbn [requestFilter isManifest].
    generalize (setApplicationHeader headers). intros o Hget.
    unfold setApplicationHeader, obj_set.
    replace (str_eqb (lit "x-application") (lit "__proto__")) with false by reflexivity.
    rewrite Hget. apply obj_replace_same, Hget.
  - intro Hnone. cbn [requestFilter isManifest]. unfold setApplicationHeader.
    apply obj_set_fresh; [exact Hp | reflexivity | exact Hnone].
  - intro Hsome. cbn [requestFilter isManifest]. unfold setApplicationHeader, obj_set.
    replace (str_eqb (lit "x-application") (lit "__proto__")) with false by reflexivity.
    destruct (obj_get headers (lit "x-application")); [|congruence].
    apply obj_replace_keys.
  - reflexivity.
  - intro Ht. destruct type; try reflexivity. congruence.
Qed.

(* ================================================================= *)
(** ** The interceptor of LOAD requests *)

Lemma exec_reM3u8 alt r :
  exec (reM3u8 alt) r
  = if startsWith (lit "m3u8") r then exec alt (skipn 4 r) else None.
Proof.
  unfold reM3u8. change (lit "m3u8") with [109; 51; 117; 56].
  cbn [map app].
  destruct r as [|x1 r]; [reflexivity|]. rewrite exec_Chr_cons. cbn [startsWith].
  destruct (109 =? x1); [|reflexivity]. cbn [andb].
  destruct r as [|x2 r]; [reflexivity|]. rewrite exec_Chr_cons. cbn [startsWith].
  destruct (51 =? x2); [|reflexivity]. cbn [andb].
  destruct r as [|x3 r]; [reflexivity|]. rewrite exec_Chr_cons. cbn [startsWith].
  destruct (117 =? x3); [|reflexivity]. cbn [andb].
  destruct r as [|x4 r]; [reflexivity|]. rewrite exec_Chr_cons. cbn [startsWith].
  destruct (56 =? x4); reflexivity.
Qed.

Lemma exec_altEmpty t : exec altEmpty t <> None <-> t = [].
Proof.
  unfold altEmpty. cbn [exec]. destruct t; split; intro H; congruence.
Qed.

Lemma forallb_isDot_dots q : forallb isDot q = true -> dots q.
Proof.
  intro H. apply Forall_forall. intros c Hc.
  rewrite forallb_forall in H. specialize (H c Hc).
  unfold isDot in H. apply negb_true_iff in H. exact H.
Qed.

Lemma exec_altQuery t :
  exec altQuery t <> None <-> exists q, t = 63 :: q /\ dots q.
Proof.
  unfold altQuery. split.
  - destruct t as [|x q]; [cbn [exec]; congruence|].
    rewrite exec_Chr_cons. destruct (63 =? x) eqn:E; [|congruence].
    apply N.eqb_eq in E. subst x. intro H. exists q. split; [reflexivity|].
    destruct (exec [(false, Star isDot)] q) as [caps|] eqn:Eq; [|congruence].
    cbn [exec] in Eq. apply greedy_inv in Eq.
    destruct Eq as (p & q' & -> & Hp & Hk). cbn [rev app] in Hk.
    destruct q' as [|y q']; [|discriminate].
    rewrite app_nil_r. apply forallb_isDot_dots, Hp.
  - intros (q & -> & Hq). rewrite exec_Chr_cons. cbn [N.eqb Pos.eqb].
    rewrite <- (app_nil_r q).
    rewrite (exec_Star false isDot [] q [] []); [discriminate | | exact I | reflexivity].
    apply dots_forallb, Hq.
Qed.

Lemma m3u8At_spec s :
  m3u8At s = true
  <-> exists c b,
        s = c :: lit "m3u8" ++ b /\ isLineTerminator c = false
        /\ (b = [] \/ exists q, b = 63 :: q /\ dots q).
Proof.
  unfold m3u8At. split.
  - destruct s as [|c r]; [discriminate|].
    intro H. apply andb_true_iff in H. destruct H as [Hc H].
    unfold isDot in Hc. apply negb_true_iff in Hc.
    rewrite !exec_reM3u8 in H.
    destruct (startsWith (lit "m3u8") r) eqn:Es; [|discriminate].
    apply startsWith_split in Es. change (List.length (lit "m3u8")) with 4%nat in Es.
    exists c, (skipn 4 r). split; [congruence|]. split; [exact Hc|].
    destruct (exec altEmpty (skipn 4 r)) eqn:E1.
    + left. apply exec_altEmpty. congruence.
    + right. apply exec_altQuery.
      destruct (exec altQuery (skipn 4 r)); [discriminate|discriminate].
  - intros (c & b & -> & Hc & Hb). unfold isDot. rewrite Hc. cbn [negb andb].
    rewrite !exec_reM3u8.
    replace (startsWith (lit "m3u8") (lit "m3u8" ++ b)) with true
      by (symmetry; vm_compute; reflexivity).
    change (skipn 4 (lit "m3u8" ++ b)) with b.
    destruct Hb as [-> | Hq]; [reflexivity|].
    apply exec_altQuery in Hq.
    destruct (exec altEmpty b); [reflexivity|].
    destruct (exec altQuery b); [reflexivity|congruence].
Qed.

Lemma m3u8Match_intro a t : m3u8At t = true -> m3u8Match (a ++ t) = true.
Proof.
  intro H. induction a as [|x a IH].
  - cbn [app]. destruct t; [discriminate|]. cbn [m3u8Match]. rewrite H. reflexivity.
  - cbn [app m3u8Match]. rewrite IH. apply orb_true_r.
Qed.

Lemma m3u8Match_elim s :
  m3u8Match s = true -> exists a t, s = a ++ t /\ m3u8At t = true.
Proof.
  induction s as [|x s IH]; [discriminate|].
  cbn [m3u8Match]. intro H. apply orb_true_iff in H. destruct H as [H|H].
  - exists [], (x :: s). auto.
  - destruct (IH H) as (a & t & -> & Ht). exists (x :: a), t. auto.
Qed.

(** X26.  The pattern of the LOAD interceptor matches a text exactly when
    the text holds, somewhere, one character other than a line
    terminator, then [m3u8], and after that either nothing or a question
    mark and no line terminator up to the end.  The character before
    [m3u8] need not be a dot. *)
Theorem m3u8Match_spec (s : jsstring) :
  m3u8Match s = true
  <-> exists a c b,
        s = a ++ c :: lit "m3u8" ++ b /\ isLineTerminator c = false
        /\ (b = [] \/ exists q, b = 63 :: q /\ dots q).
Proof.
  split.
  - intro H. apply m3u8Match_elim in H. destruct H as (a & t & -> & Ht).
    apply m3u8At_spec in Ht. destruct Ht as (c & b & -> & Hc & Hb).
    exists a, c, b. auto.
  - intros (a & c & b & -> & Hc & Hb). apply m3u8Match_intro.
    apply m3u8At_spec. exists c, b. auto.
Qed.

Lemma m3u8Match_suffix base query :
  query = [] \/ (exists q, query = 63 :: q /\ dots q) ->
  m3u8Match (base ++ lit ".m3u8" ++ query) = true.
Proof.
  intro Hq. apply m3u8Match_intro. apply m3u8At_spec. exists 46, query.
  split; [reflexivity|]. split; [reflexivity|exact Hq].
Qed.

Lemma m3u8Match_continues s : m3u8Continues s -> m3u8Match s = false.
Proof.
  intro H. destruct (m3u8Match s) eqn:E; [|reflexivity].
  apply m3u8Match_elim in E. destruct E as (a & t & -> & Ht).
  apply m3u8At_spec in Ht. destruct Ht as (c & b & -> & _ & Hb).
  destruct (H (a ++ [c]) b) as (x & b' & -> & Hx).
  { rewrite <- app_assoc. reflexivity. }
  destruct Hb as [Hb | (q & Hb & _)]; [discriminate|].
  injection Hb as -> _. congruence.
Qed.

(** X27.  A LOAD request whose content id or content URL ends with
    [.m3u8], or with [.m3u8], a question mark and a query without line
    terminators, leaves the interceptor with the content type of DASH;
    its id and URL stay as they were. *)
Theorem loadInterceptor_routes (m : loadMedia) (base query : jsstring) :
  contentId m = Some (base ++ lit ".m3u8" ++ query)
  \/ contentUrl m = Some (base ++ lit ".m3u8" ++ query) ->
  query = [] \/ (exists q, query = 63 :: q /\ dots q) ->
  loadInterceptor {| requestMedia := Some m |} = routed m.
Proof.
  intros Hm Hq. unfold loadInterceptor, routed. cbn [requestMedia].
  destruct Hm as [Hm | Hm]; rewrite Hm; cbn [orEmpty];
    rewrite (m3u8Match_suffix base query Hq).
  - reflexivity.
  - rewrite orb_true_r. reflexivity.
Qed.

(** X28.  A LOAD request without media is returned as it is, and so is one
    in whose content id and content URL every [m3u8] is followed by a
    character other than the question mark: an address with a fragment
    after [.m3u8] is not routed to DASH. *)
Theorem loadInterceptor_leaves (req : loadRequest) :
  requestMedia req = None
  \/ (exists m, requestMedia req = Some m
                /\ m3u8Continues (orEmpty (contentId m))
                /\ m3u8Continues (orEmpty (contentUrl m))) ->
  loadInterceptor req = req.
Proof.
  unfold loadInterceptor. intros [H | (m & H & Hid & Hurl)]; rewrite H; [reflexivity|].
  rewrite (m3u8Match_continues _ Hid), (m3u8Match_continues _ Hurl). reflexivity.
Qed.

Lemma loadInterceptor_routes_witness :
  let m := {| contentId := Some (lit "https://h/v/master.m3u8?token=1");
              contentUrl := None; contentType := Some (lit "video/mp4") |} in
  loadInterceptor {| requestMedia := Some m |} = routed m.
Proof.
  intro m.
  apply (loadInterceptor_routes m (lit "https://h/v/master") (lit "?token=1")).
  - left. reflexivity.
  - right. exists (lit "token=1"). split; [reflexivity|].
    repeat constructor.
Defined.

Lemma m3u8Continues_check s :
  forallb (fun t => negb (startsWith (lit "m3u8") t)
                    || match skipn 4 t with
                       | x :: _ => negb (x =? 63)
                       | [] => false
                       end)
          (map (fun n => skipn n s) (seq 0 (S (List.length s)))) = true ->
  m3u8Continues s.
Proof.
  intros H a b ->. rewrite forallb_forall in H.
  specialize (H (lit "m3u8" ++ b)).
  replace (startsWith (lit "m3u8") (lit "m3u8" ++ b)) with true in H
    by (symmetry; vm_compute; reflexivity).
  change (skipn 4 (lit "m3u8" ++ b)) with b in H. cbn [negb orb] in H.
  assert (Hin : In (lit "m3u8" ++ b)
                   (map (fun n => skipn n (a ++ lit "m3u8" ++ b))
                        (seq 0 (S (List.length (a ++ lit "m3u8" ++ b)))))).
  { apply in_map_iff. exists (List.length a). split.
    - rewrite skipn_app, skipn_all, Nat.sub_diag. reflexivity.
    - apply in_seq. rewrite length_app. lia. }
  specialize (H Hin). destruct b as [|x b']; [discriminate|].
  exists x, b'. split; [reflexivity|].
  apply negb_true_iff, N.eqb_neq in H. exact H.
Qed.

Lemma loadInterceptor_leaves_witness :
  let req := {| requestMedia :=
                  Some {| contentId := Some (lit "https://h/v/master.m3u8#t=10");
                          contentUrl := Some (lit "https://h/v/film.mp4");
                          contentType := Some (lit "video/mp4") |} |} in
  loadInterceptor req = req.
Proof.
  intro req. apply (loadInterceptor_leaves req).
  right. eexists. split; [reflexivity|].
  split; apply m3u8Continues_check; vm_compute; reflexivity.
Defined.

(* ================================================================= *)
(** ** An address with a query *)

Section QueryFacts.
Context {D : Type}.
Variable fromUTF8 : D -> completion jsstring.
Variable toUTF8 : jsstring -> completion D.

(** X29.  An address that ends with [master.m3u8] or [main.m3u8], a
    question mark and a query whose last character is not [8] is
    routed to DASH by the LOAD interceptor, and the manifest that comes
    back from that address is not rewritten by the response filter. *)
Theorem query_routed_not_rewritten (m : loadMedia) (response : netResponse D)
        (base name q : jsstring) :
  name = lit "master.m3u8" \/ name = lit "main.m3u8" ->
  dots q -> last (63 :: q) 0 <> 56 ->
  contentId m = Some (base ++ name ++ 63 :: q) ->
  uri response = base ++ name ++ 63 :: q ->
  loadInterceptor {| requestMedia := Some m |} = routed m
  /\ responseFilter fromUTF8 toUTF8 MANIFEST response = response.
Proof.
  intros Hname Hq Hlast Hid Huri. split.
  - assert (Hm : m3u8Match (base ++ name ++ 63 :: q) = true).
    { destruct Hname as [-> | ->].
      + change (lit "master.m3u8") with (lit "master" ++ lit ".m3u8").
        rewrite <- app_assoc, app_assoc.
        apply m3u8Match_suffix. right. exists q. auto.
      + change (lit "main.m3u8") with (lit "main" ++ lit ".m3u8").
        rewrite <- app_assoc, app_assoc.
        apply m3u8Match_suffix. right. exists q. auto. }
    unfold loadInterceptor, routed. cbn [requestMedia]. rewrite Hid. cbn [orEmpty].
    rewrite Hm. reflexivity.
  - assert (Hl : last (uri response) 0 <> 56).
    { rewrite Huri, app_assoc, last_app_nonempty by discriminate. exact Hlast. }
    apply responseFilter_other_name.
    + destruct (endsWith (lit "master.m3u8") (uri response)) eqn:E; [|reflexivity].
      exfalso. apply Hl.
      apply (endsWith_last (lit "master.m3u8") (uri response) 56 0);
        [discriminate | reflexivity | exact E].
    + destruct (endsWith (lit "main.m3u8") (uri response)) eqn:E; [|reflexivity].
      exfalso. apply Hl.
      apply (endsWith_last (lit "main.m3u8") (uri response) 56 0);
        [discriminate | reflexivity | exact E].
Qed.

End QueryFacts.

Lemma query_routed_not_rewritten_witness :
  let u := lit "https://h/v/master.m3u8?token=1" in
  let m := {| contentId := Some u; contentUrl := None; contentType := None |} in
  let response := {| uri := u; status := Some 200; data := exampleManifest |} in
  loadInterceptor {| requestMedia := Some m |} = routed m
  /\ responseFilter Return Return MANIFEST response = response.
Proof.
  intros u m response.
  apply (query_routed_not_rewritten Return Return m response
           (lit "https://h/v/") (lit "master.m3u8") (lit "token=1")).
  - left. reflexivity.
  - repeat constructor.
  - vm_compute. discriminate.
  - reflexivity.
  - reflexivity.
Defined.
